(** * Prospect aggregation pipeline ([prospect_finder.py])

    A shallow embedding of the [ProspectFinder] class: the in-memory prospect
    table with its merge, filter, classify, score, report and export methods,
    together with the handful of pandas operations those methods call. *)

From Stdlib Require Import ZArith Lia Ascii String DecimalString.
From stdpp Require Import gmap strings list fin_maps sorting.

Local Open Scope string_scope.
Local Open Scope Z_scope.

(** ** Cells, records and frames *)

(** A cell holds text, an integer, or a float64 with an integral value, which
    is what an integer becomes when its column is turned into float64; the
    float is given by the integer it equals.  A missing cell (pandas' NaN /
    None) is a key the record does not bind, so a record is a sparse map from
    field name to value. *)
Inductive value : Type :=
  | VStr (s : string)
  | VInt (z : Z)
  | VFloat (z : Z).

#[global] Instance value_eq_dec : EqDecision value.
Proof. solve_decision. Defined.

Abbreviation Row := (gmap string value).

(** A [pd.DataFrame]: the column labels, in order, and the records, in order.
    Row labels (the index) are left out: every merge passes
    [ignore_index=True], exports pass [index=False], and no method reads a
    label. *)
Record DataFrame : Type := {
  columns : list string;
  rows : list Row
}.

#[global] Instance DataFrame_eq_dec : EqDecision DataFrame.
Proof. solve_decision. Defined.

(** The columns the methods read through the [.str] accessor. *)
Definition text_columns : list string := ["name"; "source"].

Definition is_text (v : value) : Prop :=
  match v with VStr _ => True | VInt _ | VFloat _ => False end.

#[global] Instance is_text_dec (v : value) : Decision (is_text v).
Proof. destruct v; simpl; apply _. Defined.

(** Representation invariant: a record binds only fields that are columns of
    its frame, and the columns read as text hold text (pandas refuses [.str]
    on a column of another type). *)
Definition wf_cell (cols : list string) (c : string) (v : value) : Prop :=
  c ∈ cols ∧ (c ∈ text_columns -> is_text v).

Definition wf (df : DataFrame) : Prop :=
  Forall (fun r : Row => map_Forall (wf_cell (columns df)) r) (rows df).

#[global] Instance wf_dec (df : DataFrame) : Decision (wf df).
Proof. unfold wf, wf_cell. apply _. Defined.

(** [pd.DataFrame()] *)
Definition DataFrame_new : DataFrame := {| columns := []; rows := [] |}.

(** [len(df)] *)
Definition len (df : DataFrame) : nat := length (rows df).

(** [df.empty]: true when either axis has length zero. *)
Definition df_empty (df : DataFrame) : bool :=
  bool_decide (columns df = []) || bool_decide (rows df = []).

(** A [pd.Series] read off a frame: one optional cell per record. *)
Abbreviation Series := (list (option value)).

(** [df[col]] *)
Definition getitem (df : DataFrame) (col : string) : Series :=
  (fun r : Row => r !! col) <$> rows df.

(** [col in df.columns] *)
Definition has_column (df : DataFrame) (col : string) : bool :=
  bool_decide (col ∈ columns df).

(** [astype('float64')] on an int64: the nearest double, ties to the even
    mantissa.  Up to 2^53 every integer is a double; above it [e] low bits are
    rounded away. *)
Definition float64_of_int (z : Z) : Z :=
  let a := Z.abs z in
  if a <=? 2 ^ 53 then z
  else
    let e := Z.log2 a - 52 in
    let q := Z.shiftr a e in
    let r := a - Z.shiftl q e in
    let half := Z.shiftl 1 (e - 1) in
    let q := if (r <? half) || ((r =? half) && Z.even q) then q else q + 1 in
    Z.sgn z * Z.shiftl q e.

(** The dtype of a column is the one pandas infers from its cells: int64 when
    the frame has a record and every cell of the column is an integer,
    float64 when the column has a float and otherwise only floats and missing
    cells, object in every other case. *)
Definition int_column (df : DataFrame) (col : string) : bool :=
  negb (bool_decide (rows df = []))
  && forallb (fun c : option value => match c with Some (VInt _) => true | _ => false end)
             (getitem df col).

Definition float_column (df : DataFrame) (col : string) : bool :=
  existsb (fun c : option value => match c with Some (VFloat _) => true | _ => false end)
          (getitem df col)
  && forallb (fun c : option value =>
                match c with Some (VFloat _) | None => true | _ => false end)
             (getitem df col).

(** Whether [other], concatenated with a frame that holds int64 in [col],
    makes the column float64: it holds float64 there itself, or it lacks the
    column, whose cells for its records are then NaN.  A frame without
    records and without columns is dropped before the concatenation and
    forces nothing. *)
Definition forces_float (other : DataFrame) (col : string) : bool :=
  if has_column other col then float_column other col
  else negb (bool_decide (columns other = []) && bool_decide (rows other = [])).

Definition to_float (v : value) : value :=
  match v with
  | VInt z => VFloat (float64_of_int z)
  | _ => v
  end.

(** The records of [df] as they stand in [pd.concat([df, other])] or
    [pd.concat([other, df])]: the int64 columns that [other] forces are
    float64. *)
Definition upcast (df other : DataFrame) : list Row :=
  (fun r : Row =>
     map_imap (fun (col : string) (v : value) =>
                 Some (if int_column df col && forces_float other col
                       then to_float v else v)) r)
  <$> rows df.

(** [pd.concat([a, b], ignore_index=True)]: the union of the columns in order
    of first appearance, the records of [a] followed by the records of [b],
    each column in the common dtype of its two parts. *)
Definition concat (a b : DataFrame) : DataFrame :=
  {| columns := columns a ++ filter (fun c => c ∉ columns a) (columns b);
     rows := upcast a b ++ upcast b a |}.

(** ** Logging *)

Inductive level : Type := INFO | WARNING.

#[global] Instance level_eq_dec : EqDecision level.
Proof. solve_decision. Defined.

Abbreviation LogRecord := (level * string)%type.

(** [str(n)] for a length inside an f-string. *)
Definition str_of_nat (n : nat) : string :=
  NilEmpty.string_of_uint (Nat.to_uint n).

(** ** The finder and its merge entry points *)

Record ProspectFinder : Type := {
  output_directory : string;
  prospects : DataFrame
}.

(** [ProspectFinder.__init__] *)
Definition init (output_directory : string) : ProspectFinder :=
  {| output_directory := output_directory; prospects := DataFrame_new |}.

Definition set_prospects (self : ProspectFinder) (df : DataFrame) : ProspectFinder :=
  {| output_directory := output_directory self; prospects := df |}.

(** Each method returns the finder it leaves behind and the records it
    logged. *)
Definition add_yellowpages_data (self : ProspectFinder) (df : DataFrame)
  : ProspectFinder * list LogRecord :=
  if df_empty df then
    (self, [(WARNING, "No Yellow Pages data to add")])
  else
    (set_prospects self (concat (prospects self) df),
     [(INFO, "Adding " ++ str_of_nat (len df) ++ " Yellow Pages records")]).

Definition add_dmv_data (self : ProspectFinder) (df : DataFrame)
  : ProspectFinder * list LogRecord :=
  if df_empty df then
    (self, [(WARNING, "No DMV data to add")])
  else
    (set_prospects self (concat (prospects self) df),
     [(INFO, "Adding " ++ str_of_nat (len df) ++ " DMV records")]).

(** ** Text operations *)

(** [str.lower] on the ASCII letters; text is a sequence of UTF-8 bytes.
    Every keyword the classifier looks for is made of spaces and ASCII letters
    other than [k], and none ends in [i]; lower-casing a non-ASCII character
    yields an ASCII letter only for the Kelvin sign (giving [k]) and the
    dotted capital I (giving [i] followed by a combining dot), so the
    non-ASCII cases of [str.lower] cannot create or destroy a keyword
    occurrence. *)
Definition lower_ascii (c : ascii) : ascii :=
  let n := nat_of_ascii c in
  if (65 <=? n)%nat && (n <=? 90)%nat then ascii_of_nat (n + 32) else c.

Fixpoint lower (s : string) : string :=
  match s with
  | EmptyString => EmptyString
  | String c s' => String (lower_ascii c) (lower s')
  end.

(** [s.startswith(p)] *)
Fixpoint startswith (p s : string) : bool :=
  match p, s with
  | EmptyString, _ => true
  | String a p', String b s' => bool_decide (a = b) && startswith p' s'
  | String _ _, EmptyString => false
  end.

(** [p in s]: [p] occurs in [s] at some offset. *)
Fixpoint find (p s : string) : bool :=
  startswith p s ||
  match s with
  | EmptyString => false
  | String _ s' => find p s'
  end.

(** [sep.join(parts)] *)
Fixpoint join (sep : string) (parts : list string) : string :=
  match parts with
  | [] => ""
  | [p] => p
  | p :: ps => p ++ sep ++ join sep ps
  end.

(** The alternatives of a pattern: the pieces between its [|] characters. *)
Fixpoint alternatives_aux (cur : string) (pat : string) : list string :=
  match pat with
  | EmptyString => [cur]
  | String c pat' =>
      if bool_decide (c = "|"%char) then cur :: alternatives_aux "" pat'
      else alternatives_aux (cur ++ String c "") pat'
  end.

Definition alternatives (pat : string) : list string := alternatives_aux "" pat.

(** [re.search(pat, s)] for the patterns this module builds: literal text
    joined by [|], which matches when one of the alternatives occurs in [s]. *)
Definition re_search (pat s : string) : bool :=
  existsb (fun alt => find alt s) (alternatives pat).

(** ** Series operations *)

(** [series.notna()] *)
Definition notna (s : Series) : list bool :=
  (fun c : option value => bool_decide (is_Some c)) <$> s.

(** [series.str.lower()]: a cell that is not text becomes missing (in a
    well-formed frame the columns read this way hold text only). *)
Definition str_lower (s : Series) : Series :=
  (fun c : option value =>
     match c with
     | Some (VStr t) => Some (VStr (lower t))
     | _ => None
     end) <$> s.

(** [series.fillna(v)] *)
Definition fillna (v : value) (s : Series) : Series :=
  (fun c : option value => Some (default v c)) <$> s.

(** [series.str.contains(pat, na=na)]: a cell that is not text yields [na].
    The call without [na] is only made after [fillna('')], where every cell is
    text and the fill value is never used. *)
Definition str_contains (pat : string) (na : bool) (s : Series) : list bool :=
  (fun c : option value =>
     match c with
     | Some (VStr t) => re_search pat t
     | _ => na
     end) <$> s.

(** [series.sum()] of a boolean series *)
Definition sum_true (m : list bool) : nat := length (filter (fun b : bool => b = true) m).

(** ** Frame updates *)

(** [df[col] = v]: every record gets [v] in [col]; a new column goes last. *)
Definition setitem (col : string) (v : value) (df : DataFrame) : DataFrame :=
  {| columns := if has_column df col then columns df else columns df ++ [col];
     rows := (fun r : Row => <[col := v]> r) <$> rows df |}.

(** [df.loc[mask, col] = v] *)
Definition loc_set (mask : list bool) (col : string) (v : value) (df : DataFrame)
  : DataFrame :=
  {| columns := columns df;
     rows := zip_with (fun (b : bool) (r : Row) => if b then <[col := v]> r else r)
                      mask (rows df) |}.

(** Integer addition on a cell; [col] holds integers wherever it is used. *)
Definition value_add (k : Z) (v : value) : value :=
  match v with
  | VInt z => VInt (z + k)
  | VFloat z => VFloat (float64_of_int (z + k))
  | VStr s => VStr s
  end.

(** [df.loc[mask, col] += k] *)
Definition loc_iadd (mask : list bool) (col : string) (k : Z) (df : DataFrame)
  : DataFrame :=
  {| columns := columns df;
     rows := zip_with (fun (b : bool) (r : Row) => if b then alter (value_add k) col r else r)
                      mask (rows df) |}.

(** ** Sorting

    [df.sort_values(col, ascending=False)] is called without [kind], so pandas
    hands the key column to numpy's [argsort] with the default
    [kind='quicksort'], which pandas documents as not stable.  Which routine
    numpy runs for that kind depends on the build and the processor, so the
    sort is a parameter of the scorer; below, [aquicksort] is numpy's portable
    routine for it. *)

(** [a[p]]: the entries of [a] at the positions listed in [p].  The positions
    come from an argsort of [a]'s own key column and so lie inside [a]. *)
Definition take_at {A : Type} (a : list A) (p : list nat) : list A :=
  omap (fun i => a !! i) p.

(** The integer array behind a column that holds integers. *)
Definition int_values (s : Series) : list Z :=
  (fun c : option value => match c with Some (VInt z) => z | _ => 0 end) <$> s.

Section Sorting.
Variable argsort : list Z -> list nat.

(** [pandas.core.sorting.nargsort] on an array without missing entries: a
    descending sort reverses the keys, sorts them ascending and reverses the
    resulting positions. *)
Definition nargsort (items : list Z) (ascending : bool) : list nat :=
  let idx := seq 0 (length items) in
  let non_nans := if ascending then items else reverse items in
  let non_nan_idx := if ascending then idx else reverse idx in
  let indexer := take_at non_nan_idx (argsort non_nans) in
  if ascending then indexer else reverse indexer.

(** [df.sort_values(by_, ascending=ascending)] for an integer column. *)
Definition sort_values (by_ : string) (ascending : bool) (df : DataFrame)
  : DataFrame :=
  let k := int_values (getitem df by_) in
  let indexer := nargsort k ascending in
  {| columns := columns df; rows := take_at (rows df) indexer |}.
End Sorting.

(** What [argsort] owes its caller on the array [keys]: the result lists every
    position once, and reads the keys in ascending order. *)
Definition argsort_ok (keys : list Z) (p : list nat) : Prop :=
  p ≡ₚ seq 0 (length keys) ∧ StronglySorted Z.le (take_at keys p).

(** A stable argsort also lists equal keys by increasing position. *)
Definition argsort_stable (keys : list Z) (p : list nat) : Prop :=
  StronglySorted (fun i j : nat => keys !! i = keys !! j -> (i < j)%nat) p.

#[global] Instance argsort_ok_dec keys p : Decision (argsort_ok keys p).
Proof. unfold argsort_ok. apply _. Defined.

#[global] Instance argsort_stable_dec keys p : Decision (argsort_stable keys p).
Proof. unfold argsort_stable. apply _. Defined.

(** *** numpy's portable argsort for [kind='quicksort']

    An introsort over the position array [tosort], comparing [v[tosort[i]]]:
    ranges of more than [SMALL_QUICKSORT + 1] positions are partitioned around
    a median of three, shorter ranges are insertion-sorted, and a range whose
    depth budget is spent is heap-sorted.  Pending ranges wait on an explicit
    stack.  The threshold is numpy's: its sort partitions a range of 17
    positions and insertion-sorts one of 16. *)

Definition SMALL_QUICKSORT : nat := 15.

(** [v[tosort[i]]] *)
Definition key_at (v : list Z) (tosort : list nat) (i : nat) : Z :=
  v !!! (tosort !!! i).

(** [INTP_SWAP(tosort[i], tosort[j])] *)
Definition swap (i j : nat) (tosort : list nat) : list nat :=
  <[j := tosort !!! i]> (<[i := tosort !!! j]> tosort).

(** [if (v[tosort[a]] < v[tosort[b]]) INTP_SWAP(tosort[a], tosort[b])] *)
Definition swap_if_less (v : list Z) (a b : nat) (tosort : list nat) : list nat :=
  if key_at v tosort a <? key_at v tosort b then swap a b tosort else tosort.

(** [do { ++pi; } while (v[*pi] < vp);] *)
Fixpoint scan_up (fuel : nat) (v : list Z) (tosort : list nat) (vp : Z) (pi : nat)
  : nat :=
  match fuel with
  | O => pi
  | S fuel' =>
      let pi := S pi in
      if key_at v tosort pi <? vp then scan_up fuel' v tosort vp pi else pi
  end.

(** [do { --pj; } while (vp < v[*pj]);] *)
Fixpoint scan_down (fuel : nat) (v : list Z) (tosort : list nat) (vp : Z) (pj : nat)
  : nat :=
  match fuel with
  | O => pj
  | S fuel' =>
      let pj := Nat.pred pj in
      if vp <? key_at v tosort pj then scan_down fuel' v tosort vp pj else pj
  end.

(** The [for (;;)] loop of the partition: scan from both ends, stop when the
    scans meet, otherwise swap and go on. *)
Fixpoint partition_loop (fuel : nat) (v : list Z) (vp : Z) (pi pj : nat)
    (tosort : list nat) : nat * list nat :=
  match fuel with
  | O => (pi, tosort)
  | S fuel' =>
      let pi := scan_up (length tosort) v tosort vp pi in
      let pj := scan_down (length tosort) v tosort vp pj in
      if (pj <=? pi)%nat then (pi, tosort)
      else partition_loop fuel' v vp pi pj (swap pi pj tosort)
  end.

(** One partition of [pl..pr]: returns the pivot's final position. *)
Definition partition (v : list Z) (pl pr : nat) (tosort : list nat)
  : nat * list nat :=
  let pm := (pl + Nat.shiftr (pr - pl) 1)%nat in
  let tosort := swap_if_less v pm pl tosort in
  let tosort := swap_if_less v pr pm tosort in
  let tosort := swap_if_less v pm pl tosort in
  let vp := key_at v tosort pm in
  let pi := pl in
  let pj := (pr - 1)%nat in
  let tosort := swap pm pj tosort in
  let '(pi, tosort) := partition_loop (length tosort) v vp pi pj tosort in
  let pk := (pr - 1)%nat in
  (pi, swap pi pk tosort).

(** The inner [while] of the insertion sort: shift larger entries up, then
    drop [vi] into the gap. *)
Fixpoint insert_back (fuel : nat) (v : list Z) (pl : nat) (vp : Z) (vi pj : nat)
    (tosort : list nat) : list nat :=
  match fuel with
  | O => <[pj := vi]> tosort
  | S fuel' =>
      if (pl <? pj)%nat && (vp <? key_at v tosort (pj - 1)) then
        insert_back fuel' v pl vp vi (pj - 1) (<[pj := tosort !!! (pj - 1)%nat]> tosort)
      else <[pj := vi]> tosort
  end.

Fixpoint insertion_sort_from (todo : nat) (v : list Z) (pl pi : nat)
    (tosort : list nat) : list nat :=
  match todo with
  | O => tosort
  | S todo' =>
      let vi := tosort !!! pi in
      let vp := v !!! vi in
      insertion_sort_from todo' v pl (S pi) (insert_back pi v pl vp vi pi tosort)
  end.

(** [for (pi = pl + 1; pi <= pr; ++pi) ...] *)
Definition insertion_sort (v : list Z) (pl pr : nat) (tosort : list nat)
  : list nat :=
  insertion_sort_from (pr - pl) v pl (S pl) tosort.

(** Heap sort of the [n] positions starting at [base]; [a[k]] is
    [tosort[base + k - 1]]. *)
Definition heap_get (base : nat) (tosort : list nat) (k : nat) : nat :=
  tosort !!! (base + k - 1)%nat.

Definition heap_set (base : nat) (k x : nat) (tosort : list nat) : list nat :=
  <[(base + k - 1)%nat := x]> tosort.

(** [for (i, j; j <= n;) { ... } a[i] = tmp;] *)
Fixpoint sift (fuel : nat) (v : list Z) (base n tmp i j : nat) (tosort : list nat)
  : list nat :=
  match fuel with
  | O => heap_set base i tmp tosort
  | S fuel' =>
      if (j <=? n)%nat then
        let j :=
          if (j <? n)%nat &&
             (v !!! heap_get base tosort j <? v !!! heap_get base tosort (j + 1))
          then (j + 1)%nat else j in
        if v !!! tmp <? v !!! heap_get base tosort j then
          sift fuel' v base n tmp j (j + j) (heap_set base i (heap_get base tosort j) tosort)
        else heap_set base i tmp tosort
      else heap_set base i tmp tosort
  end.

(** [for (l = n >> 1; l > 0; --l)] *)
Fixpoint heapify (l : nat) (v : list Z) (base n : nat) (tosort : list nat)
  : list nat :=
  match l with
  | O => tosort
  | S l' =>
      let tmp := heap_get base tosort l in
      heapify l' v base n (sift n v base n tmp l (l + l) tosort)
  end.

(** [for (; n > 1;)] *)
Fixpoint heap_extract (n : nat) (v : list Z) (base : nat) (tosort : list nat)
  : list nat :=
  match n with
  | O => tosort
  | S n' =>
      if (1 <? n)%nat then
        let tmp := heap_get base tosort n in
        let tosort := heap_set base n (heap_get base tosort 1) tosort in
        heap_extract n' v base (sift n v base n' tmp 1 2 tosort)
      else tosort
  end.

Definition aheapsort (v : list Z) (base n : nat) (tosort : list nat) : list nat :=
  heap_extract n v base (heapify (Nat.shiftr n 1) v base n tosort).

(** [npy_get_msb] *)
Definition npy_get_msb (n : nat) : nat := Nat.log2 n.

(** Where the outer [while (1)] stands: at its head, or inside the
    partitioning [while]. *)
Inductive where_ : Type := AtHead | Partitioning.

(** The driver.  Each step either partitions once, or finishes the current
    range and pops the next one off [stack]; [fuel] bounds the steps. *)
Fixpoint aquicksort_run (fuel : nat) (v : list Z) (at_ : where_) (pl pr : nat)
    (cdepth : Z) (stack : list (nat * nat * Z)) (tosort : list nat) : list nat :=
  match fuel with
  | O => tosort
  | S fuel' =>
      let stack_pop tosort :=
        match stack with
        | [] => tosort
        | (pl, pr, cdepth) :: stack => aquicksort_run fuel' v AtHead pl pr cdepth stack tosort
        end in
      match at_ with
      | AtHead =>
          if cdepth <? 0 then stack_pop (aheapsort v pl (pr - pl + 1) tosort)
          else aquicksort_run fuel' v Partitioning pl pr cdepth stack tosort
      | Partitioning =>
          if (SMALL_QUICKSORT <? pr - pl)%nat then
            let '(pi, tosort) := partition v pl pr tosort in
            let cdepth := cdepth - 1 in
            if (pi - pl <? pr - pi)%nat then
              aquicksort_run fuel' v Partitioning pl (pi - 1)
                             cdepth ((S pi, pr, cdepth) :: stack) tosort
            else
              aquicksort_run fuel' v Partitioning (S pi) pr
                             cdepth ((pl, (pi - 1)%nat, cdepth) :: stack) tosort
          else stack_pop (insertion_sort v pl pr tosort)
      end
  end.

(** [ndarray.argsort(kind='quicksort')]: sort [0 .. num-1] by key. *)
Definition aquicksort (v : list Z) : list nat :=
  let num := length v in
  aquicksort_run (4 * num + 4) v AtHead 0 (num - 1)
                 (Z.of_nat (npy_get_msb num) * 2) [] (seq 0 num).

(** ** Exceptions *)

(** The one exception the methods below can meet: pandas' [KeyError] for
    column labels a frame does not have. *)
Inductive exn : Type :=
  | KeyError (missing : list string).

Inductive outcome (A : Type) : Type :=
  | Returns (a : A)
  | Raises (e : exn).

Arguments Returns {A} a.
Arguments Raises {A} e.

(** ** Filtering *)

(** The cells of a record under the [subset] columns; two missing cells
    compare equal, as in [DataFrame.duplicated]. *)
Definition subset_key (subset : list string) (r : Row) : list (option value) :=
  (fun c => r !! c) <$> subset.

(** [keep='first']: walk the records in order, keeping one only if its key has
    not been seen. *)
Fixpoint keep_first (subset : list string) (seen : list (list (option value)))
    (l : list Row) : list Row :=
  match l with
  | [] => []
  | r :: l' =>
      if bool_decide (subset_key subset r ∈ seen) then keep_first subset seen l'
      else r :: keep_first subset (subset_key subset r :: seen) l'
  end.

(** [df.drop_duplicates(subset=subset, keep='first')]: an empty frame is
    returned as it is; otherwise every label of [subset] must be a column. *)
Definition drop_duplicates (subset : list string) (df : DataFrame)
  : outcome DataFrame :=
  if df_empty df then Returns df
  else
    match filter (fun c => c ∉ columns df) subset with
    | [] => Returns {| columns := columns df; rows := keep_first subset [] (rows df) |}
    | missing => Raises (KeyError missing)
    end.

(** [criteria] is a dict; only the presence of its keys is looked at. *)
Definition filter_prospects (self : ProspectFinder) (criteria : option (gmap string value))
  : outcome DataFrame * list LogRecord :=
  let filtered := prospects self in
  match criteria with
  | None => (Returns filtered, [])
  | Some criteria =>
      let filtered :=
        if bool_decide (is_Some (criteria !! "min_records")) then
          drop_duplicates ["name"; "phone"] filtered
        else Returns filtered in
      match filtered with
      | Returns filtered =>
          (Returns filtered,
           [(INFO, "Filtered to " ++ str_of_nat (len filtered) ++ " prospects")])
      | Raises e => (Raises e, [])
      end
  end.

(** ** Scoring *)

(** Lines 83-98 of [score_prospects]: the score column is reset to 0 and the
    four rules are added in turn, each only where its column exists.  On a
    [source] column without any text pandas refuses the [.str] accessor with
    an [AttributeError]; the definition covers the frames on which the method
    returns, [wf] ones among them. *)
Definition assign_scores (df : DataFrame) : DataFrame :=
  let df := setitem "score" (VInt 0) df in
  let df :=
    if has_column df "phone" then loc_iadd (notna (getitem df "phone")) "score" 10 df
    else df in
  let df :=
    if has_column df "website" then loc_iadd (notna (getitem df "website")) "score" 5 df
    else df in
  let df :=
    if has_column df "address" then loc_iadd (notna (getitem df "address")) "score" 5 df
    else df in
  let df :=
    if has_column df "source" then
      loc_iadd (str_contains "DMV" false (getitem df "source")) "score" 20 df
    else df in
  df.

(** [score_prospects(df)]: with [df = None] a copy of the store is scored.
    The frame passed in is left scored but unsorted; the sorted frame is
    returned. *)
Definition score_prospects (argsort : list Z -> list nat) (self : ProspectFinder)
    (df : option DataFrame) : DataFrame * list LogRecord :=
  let df := default (prospects self) df in
  let df := assign_scores df in
  let df := sort_values argsort "score" false df in
  (df, [(INFO, "Scored " ++ str_of_nat (len df) ++ " prospects")]).

(** The score cell of a record. *)
Definition score_of (r : Row) : Z :=
  match r !! "score" with Some (VInt z) => z | _ => 0 end.

(** ** Classification *)

Definition dealer_keywords : list string :=
  ["auto"; "car"; "dealer"; "motors"; "automotive"].
Definition buyer_keywords : list string :=
  ["buyer"; "cash for cars"; "we buy"; "wholesale"].
Definition shop_keywords : list string :=
  ["body shop"; "collision"; "repair"].

(** [categorize_prospects(df)]: with [df = None] a copy of the store is
    labelled.  The result is both the frame returned and the state the frame
    passed in is left in.  On a [name] column without any text pandas refuses
    the [.str] accessor with an [AttributeError]; the definition covers the
    frames on which the method returns, [wf] ones among them. *)
Definition categorize_prospects (self : ProspectFinder) (df : option DataFrame)
  : DataFrame :=
  let df := default (prospects self) df in
  let df := setitem "prospect_type" (VStr "Unknown") df in
  if has_column df "name" then
    let name_lower := fillna (VStr "") (str_lower (getitem df "name")) in
    let dealer_mask := str_contains (join "|" dealer_keywords) false name_lower in
    let df := loc_set dealer_mask "prospect_type" (VStr "Auto Dealer") df in
    let buyer_mask := str_contains (join "|" buyer_keywords) false name_lower in
    let df := loc_set buyer_mask "prospect_type" (VStr "Vehicle Buyer") df in
    let shop_mask := str_contains (join "|" shop_keywords) false name_lower in
    let df := loc_set shop_mask "prospect_type" (VStr "Body Shop") df in
    df
  else df.

(** ** Export *)

(** [os.path.join(a, b)] *)
Definition path_join (a b : string) : string :=
  if startswith "/" b then b
  else if bool_decide (a = "") || startswith "/" (String.rev a) then a ++ b
  else a ++ "/" ++ b.

(** A file written by an export: the writer called, the path, the frame. *)
Inductive FileWrite : Type :=
  | to_csv (path : string) (df : DataFrame)
  | to_excel (path : string) (df : DataFrame)
  | to_json (path : string) (df : DataFrame).

(** [export_prospects(filename, format)].  [now] is the clock reading
    formatted by [strftime('%Y%m%d_%H%M%S')].  The writers are taken to
    succeed; the method itself raises nothing. *)
Definition export_prospects (now : string) (self : ProspectFinder)
    (filename : option string) (format : string)
  : outcome (option string) * list FileWrite * list LogRecord :=
  if df_empty (prospects self) then
    (Returns None, [], [(WARNING, "No prospects to export")])
  else
    let filename := default ("vehicle_buyer_prospects_" ++ now) filename in
    let filepath := path_join (output_directory self) filename in
    let '(written, logged) :=
      if bool_decide (format = "csv") then
        ([to_csv (filepath ++ ".csv") (prospects self)],
         [(INFO, "Exported to " ++ filepath ++ ".csv")])
      else if bool_decide (format = "excel") then
        ([to_excel (filepath ++ ".xlsx") (prospects self)],
         [(INFO, "Exported to " ++ filepath ++ ".xlsx")])
      else if bool_decide (format = "json") then
        ([to_json (filepath ++ ".json") (prospects self)],
         [(INFO, "Exported to " ++ filepath ++ ".json")])
      else ([], []) in
    (Returns (Some filepath), written, logged).

(** ** Report *)

#[global] Instance value_countable : Countable value.
Proof.
  refine (inj_countable'
            (fun v => match v with
                      | VStr s => inl s
                      | VInt z => inr (inl z)
                      | VFloat z => inr (inr z)
                      end)
            (fun x => match x with
                      | inl s => VStr s
                      | inr (inl z) => VInt z
                      | inr (inr z) => VFloat z
                      end) _).
  intros []; reflexivity.
Defined.

(** A value stored in the report dict. *)
Inductive rvalue : Type :=
  | RInt (n : nat)
  | RStr (s : string)
  | RDict (d : gmap value nat).

#[global] Instance rvalue_eq_dec : EqDecision rvalue.
Proof. solve_decision. Defined.

(** [series.value_counts().to_dict()]: each value that occurs, with the number
    of times it occurs; missing cells are not counted. *)
Definition value_counts (s : Series) : gmap value nat :=
  foldr (fun (c : option value) (d : gmap value nat) =>
           match c with
           | Some v => <[v := S (default O (d !! v))]> d
           | None => d
           end) ∅ s.

(** [generate_report()]; [now] is [datetime.now().isoformat()]. *)
Definition generate_report (now : string) (self : ProspectFinder)
  : gmap string rvalue :=
  let report : gmap string rvalue :=
    {[ "total_prospects" := RInt (len (prospects self)); "timestamp" := RStr now ]} in
  if negb (df_empty (prospects self)) then
    let report :=
      if has_column (prospects self) "source" then
        <["by_source" := RDict (value_counts (getitem (prospects self) "source"))]> report
      else report in
    let report :=
      if has_column (prospects self) "prospect_type" then
        <["by_type" := RDict (value_counts (getitem (prospects self) "prospect_type"))]> report
      else report in
    let report :=
      <["with_phone" :=
          RInt (if has_column (prospects self) "phone"
                then sum_true (notna (getitem (prospects self) "phone")) else O)]> report in
    let report :=
      <["with_address" :=
          RInt (if has_column (prospects self) "address"
                then sum_true (notna (getitem (prospects self) "address")) else O)]> report in
    report
  else report.

(** ** The behaviour the code is compared with *)

(** The score the specification describes: independent contributions of the
    record's own fields. *)
Definition contribution (present : bool) (points : Z) : Z :=
  if present then points else 0.

Definition source_has_DMV (r : Row) : bool :=
  match r !! "source" with
  | Some (VStr s) => find "DMV" s
  | _ => false
  end.

Definition spec_score (r : Row) : Z :=
  contribution (bool_decide (is_Some (r !! "phone"))) 10
  + contribution (bool_decide (is_Some (r !! "website"))) 5
  + contribution (bool_decide (is_Some (r !! "address"))) 5
  + contribution (source_has_DMV r) 20.

(** The score the code computes, column checks included. *)
Definition gated_score (df : DataFrame) (r : Row) : Z :=
  contribution (has_column df "phone" && bool_decide (is_Some (r !! "phone"))) 10
  + contribution (has_column df "website" && bool_decide (is_Some (r !! "website"))) 5
  + contribution (has_column df "address" && bool_decide (is_Some (r !! "address"))) 5
  + contribution (has_column df "source" && source_has_DMV r) 20.

(** The label the specification describes: start from "Unknown" and let each
    rule, in order, overwrite the label when one of its keywords occurs in the
    case-folded name. *)
Definition spec_rules : list (string * list string) :=
  [("Auto Dealer", ["auto"; "car"; "dealer"; "motors"; "automotive"]);
   ("Vehicle Buyer", ["buyer"; "cash for cars"; "we buy"; "wholesale"]);
   ("Body Shop", ["body shop"; "collision"; "repair"])].

Definition spec_label (name : option value) : string :=
  let folded := match name with Some (VStr s) => lower s | _ => "" end in
  foldl (fun label (rule : string * list string) =>
           if existsb (fun kw => find kw folded) rule.2 then rule.1 else label)
        "Unknown" spec_rules.

(** The case-folded name the rules look at. *)
Definition folded_name (r : Row) : string :=
  match r !! "name" with Some (VStr s) => lower s | _ => "" end.

(** The label the code computes, column check included. *)
Definition gated_label (df : DataFrame) (r : Row) : string :=
  if has_column df "name" then spec_label (r !! "name") else "Unknown".

(** Records are ordered by score, highest first. *)
Definition descending (l : list Row) : Prop :=
  StronglySorted (fun r1 r2 : Row => score_of r2 <= score_of r1) l.

(** Records of equal score stand in the same order in [after] as in
    [before]. *)
Definition ties_keep_order (before after : list Row) : Prop :=
  forall s : Z,
    filter (fun r : Row => score_of r = s) after
    = filter (fun r : Row => score_of r = s) before.

(** [P] holds of the entry of [l] at position [i]. *)
Definition holds_at {A : Type} (P : A -> Prop) (l : list A) (i : nat) : Prop :=
  match l !! i with Some x => P x | None => False end.

#[global] Instance holds_at_dec {A : Type} (P : A -> Prop) `{!forall x, Decision (P x)}
    (l : list A) (i : nat) : Decision (holds_at P l i).
Proof. unfold holds_at. destruct (l !! i); apply _. Defined.

(** The number of cells of a series holding [v]. *)
Definition count_value (v : value) (s : Series) : nat :=
  length (filter (fun c : option value => c = Some v) s).

(** The number of records with a value in [col]. *)
Definition count_present (col : string) (df : DataFrame) : nat :=
  length (filter (fun r : Row => is_Some (r !! col)) (rows df)).

(** An export that ends in an exception. *)
Definition fails_clearly {A : Type} (res : outcome A * list FileWrite * list LogRecord)
  : Prop :=
  exists e, res.1.1 = Raises e.

(** The two merge entry points. *)
Inductive entry_point : Type := YellowPages | DMV.

Definition merge (e : entry_point) : ProspectFinder -> DataFrame -> ProspectFinder * list LogRecord :=
  match e with
  | YellowPages => add_yellowpages_data
  | DMV => add_dmv_data
  end.

(** [r'] is the record [r] with some of its integers turned float64. *)
Definition upcast_of (r r' : Row) : Prop :=
  forall c : string,
    r' !! c = r !! c
    ∨ exists z, r !! c = Some (VInt z) ∧ r' !! c = Some (VFloat (float64_of_int z)).

Definition holds_integer (v : value) : Prop :=
  match v with VInt _ => True | _ => False end.

#[global] Instance holds_integer_dec (v : value) : Decision (holds_integer v).
Proof. destruct v; simpl; apply _. Defined.

(** No record of the frame holds an integer. *)
Definition no_integers (df : DataFrame) : Prop :=
  Forall (fun r : Row => map_Forall (fun (_ : string) (v : value) => ¬ holds_integer v) r)
         (rows df).

#[global] Instance no_integers_dec (df : DataFrame) : Decision (no_integers df).
Proof. unfold no_integers. apply _. Defined.

(** Concatenated with [other], the int64 columns of [df] stay int64. *)
Definition keeps_integers (df other : DataFrame) : Prop :=
  forall c : string, int_column df c = true -> forces_float other c = false.

(** ** What the quicksort proof talks about *)

(** Position [i] lies in [pl..pr]. *)
Definition within (pl pr i : nat) : Prop := (pl <= i <= pr)%nat.

(** [t'] holds the entries of [t], moved around inside [pl..pr] only. *)
Definition rearranged (pl pr : nat) (t t' : list nat) : Prop :=
  length t' = length t
  ∧ (forall i, ¬ within pl pr i -> t' !!! i = t !!! i)
  ∧ (forall i, within pl pr i -> exists i0, within pl pr i0 ∧ t' !!! i = t !!! i0)
  ∧ t' ≡ₚ t.

(** The keys read through [t] are in ascending order on [pl..pr]. *)
Definition sorted_on (v : list Z) (pl pr : nat) (t : list nat) : Prop :=
  forall a b, (pl <= a)%nat -> (a < b)%nat -> (b <= pr)%nat ->
              key_at v t a <= key_at v t b.

(** The key at heap position [k]. *)
Definition hkey (v : list Z) (base : nat) (t : list nat) (k : nat) : Z :=
  v !!! heap_get base t k.

(** [c] is a child of heap position [p]. *)
Definition child (p c : nat) : Prop := (c = p + p ∨ c = p + p + 1)%nat.

(** Every parent from [l] on dominates its children among the first [n]. *)
Definition heap_from (v : list Z) (base l n : nat) (t : list nat) : Prop :=
  forall p c, (l <= p)%nat -> child p c -> (c <= n)%nat ->
              hkey v base t c <= hkey v base t p.

(** A range of positions still to be sorted. *)
Abbreviation range := (nat * nat)%type.

Definition disjoint_ranges (r s : range) : Prop := (r.2 < s.1 ∨ s.2 < r.1)%nat.

Fixpoint pairwise_disjoint (rs : list range) : Prop :=
  match rs with
  | [] => True
  | r :: rs' => Forall (disjoint_ranges r) rs' ∧ pairwise_disjoint rs'
  end.

(** Positions in different pending ranges, or in none, are already in
    order. *)
Definition sorted_but (v : list Z) (rs : list range) (t : list nat) : Prop :=
  forall i j, (i < j)%nat -> (j < length t)%nat ->
    (exists r, r ∈ rs ∧ within r.1 r.2 i ∧ within r.1 r.2 j)
    ∨ key_at v t i <= key_at v t j.

(** The number of positions in pending ranges. *)
Definition pending (rs : list range) : nat :=
  foldr (fun (r : range) acc => (r.2 - r.1 + 1 + acc)%nat) 0%nat rs.

Definition stack_ranges (stack : list (nat * nat * Z)) : list range :=
  (fun x : nat * nat * Z => (x.1.1, x.1.2)) <$> stack.

Definition at_head (a : where_) : nat :=
  match a with AtHead => 1%nat | Partitioning => 0%nat end.

Definition valid_range (n : nat) (r : range) : Prop := (r.1 <= r.2 < n)%nat.

(** What holds between two steps of the driver. *)
Definition run_inv (v : list Z) (n : nat) (rs : list range) (t : list nat) : Prop :=
  t ≡ₚ seq 0 n ∧ Forall (valid_range n) rs ∧ pairwise_disjoint rs ∧ sorted_but v rs t.

(** What the driver delivers. *)
Definition run_post (v : list Z) (n : nat) (t : list nat) : Prop :=
  t ≡ₚ seq 0 n
  ∧ forall i j, (i < j)%nat -> (j < n)%nat -> key_at v t i <= key_at v t j.

(** ** Sample data *)

(** A listing as the directory scraper builds it: every field present, text
    possibly empty. *)
Definition listing (name phone : string) : Row :=
  {[ "name" := VStr name; "phone" := VStr phone; "address" := VStr "";
     "website" := VStr ""; "category" := VStr ""; "source" := VStr "YellowPages" ]}.

Definition listing_columns : list string :=
  ["name"; "phone"; "address"; "website"; "category"; "source"].

(** The batch [MockDMVIntegration.query_vehicle_registrations] returns. *)
Definition mock_dmv_batch (location : string) : DataFrame :=
  {| columns := ["owner_name"; "vehicle_type"; "registration_date"; "location"; "source"];
     rows := [ {[ "owner_name" := VStr "Sample Business 1"; "vehicle_type" := VStr "Commercial";
                  "registration_date" := VStr "2024-01-15"; "location" := VStr location;
                  "source" := VStr "MOCK_DMV" ]};
               {[ "owner_name" := VStr "Sample Business 2"; "vehicle_type" := VStr "Commercial";
                  "registration_date" := VStr "2024-02-20"; "location" := VStr location;
                  "source" := VStr "MOCK_DMV" ]} ] |}.

Definition small_batch : DataFrame :=
  {| columns := listing_columns;
     rows := [ listing "ABC Auto Body Shop" "904-555-0101";
               listing "We Buy Junk" "904-555-0102";
               listing "ABC Auto Body Shop" "904-555-0101" ] |}.

(** Eighteen listings, as one search can return. *)
Definition eighteen_listings : DataFrame :=
  {| columns := listing_columns;
     rows := (fun n : nat => listing ("Dealer " ++ str_of_nat n) ("904-555-01" ++ str_of_nat (10 + n)))
             <$> seq 0 18 |}.


(** One record with a phone and an address, no website, from the mock
    registration source. *)
Definition registered_lead : DataFrame :=
  {| columns := ["name"; "phone"; "address"; "website"; "source"];
     rows := [ {[ "name" := VStr "Sample Business 1"; "phone" := VStr "904-555-0199";
                  "address" := VStr "1 Main St"; "source" := VStr "MOCK_DMV" ]} ] |}.

Definition small_store : ProspectFinder :=
  (add_dmv_data (add_yellowpages_data (init "./output") small_batch).1
                (mock_dmv_batch "Jacksonville,FL")).1.

Definition mixed_store : ProspectFinder :=
  (add_dmv_data (add_yellowpages_data (init "./output") small_batch).1 registered_lead).1.

(** Three records: two directory listings, one of them without a phone, and
    one registration record with a phone. *)
Definition three_records : DataFrame :=
  {| columns := ["name"; "phone"; "source"];
     rows := [ {[ "name" := VStr "Ace Motors"; "phone" := VStr "904-555-0111";
                  "source" := VStr "YellowPages" ]};
               {[ "name" := VStr "Bay Collision"; "source" := VStr "YellowPages" ]};
               {[ "name" := VStr "Sample Business 1"; "phone" := VStr "904-555-0199";
                  "source" := VStr "MOCK_DMV" ]} ] |}.

Definition three_record_store : ProspectFinder :=
  (add_yellowpages_data (init "./output") three_records).1.

Definition dmv_only_store : ProspectFinder :=
  (add_dmv_data (init "./output") (mock_dmv_batch "Jacksonville,FL")).1.

Definition eighteen_store : ProspectFinder :=
  (add_yellowpages_data (init "./output") eighteen_listings).1.

(** * The collaborators and the driver *)

(** Log records of the scraper, the registration client and [main], whose
    loggers also report errors. *)
Inductive severity : Type := LOG_INFO | LOG_WARNING | LOG_ERROR.

#[global] Instance severity_eq_dec : EqDecision severity.
Proof. solve_decision. Defined.

Abbreviation Logged := (severity * string)%type.

(** ** The directory scraper ([yellowpages_scraper.py]) *)

(** What the parser finds in one result block: for each element looked up,
    [None] when it is absent and its stripped text otherwise; for the website
    link, its [href] attribute when it has one. *)
Record Listing : Type := {
  business_name : option string;
  phones : option string;
  street_address : option string;
  track_visit_website : option (option string)
}.

(** [_parse_listing]: every field starts as the empty text and is overwritten
    by what was found; a business without a name is dropped. *)
Definition parse_listing (listing : Listing) : option Row :=
  let name := default "" (business_name listing) in
  let phone := default "" (phones listing) in
  let address := default "" (street_address listing) in
  let website :=
    match track_visit_website listing with
    | Some href => default "" href
    | None => ""
    end in
  let business : Row :=
    {[ "name" := VStr name; "phone" := VStr phone; "address" := VStr address;
       "website" := VStr website; "category" := VStr "";
       "source" := VStr "YellowPages" ]} in
  if bool_decide (name = "") then None else Some business.

(** What a search request comes back with: the result blocks of the page, or
    a [requests.RequestException]. *)
Inductive response : Type :=
  | Page (results : list Listing)
  | RequestException (msg : string).

(** [search_location(category, location)]; [web] answers the request.  The
    pause after a successful request is left out. *)
Definition search_location (web : string -> string -> response)
    (category location : string) : list Row * list Logged :=
  let searching :=
    (LOG_INFO, "Searching Yellow Pages: " ++ category ++ " in " ++ location) in
  match web category location with
  | Page listings =>
      let businesses := omap parse_listing listings in
      (businesses,
       [searching;
        (LOG_INFO, "Found " ++ str_of_nat (length businesses) ++ " businesses")])
  | RequestException msg =>
      ([], [searching; (LOG_ERROR, "Error fetching Yellow Pages data: " ++ msg)])
  end.

(** [pd.DataFrame(all_businesses)] for the dicts [_parse_listing] builds, which
    all carry the same six keys in the same order; no dicts, no columns. *)
Definition DataFrame_of_businesses (businesses : list Row) : DataFrame :=
  {| columns := match businesses with [] => [] | _ :: _ => listing_columns end;
     rows := businesses |}.

(** The two nested loops of [search_multiple_locations]. *)
Definition search_all (web : string -> string -> response)
    (categories locations : list string) : list (list Row * list Logged) :=
  location ← locations; category ← categories; [search_location web category location].

(** [search_multiple_locations(categories, locations)] *)
Definition search_multiple_locations (web : string -> string -> response)
    (categories locations : list string) : outcome DataFrame * list Logged :=
  let searches := search_all web categories locations in
  let all_businesses := searches ≫= fst in
  let df := DataFrame_of_businesses all_businesses in
  let df :=
    if negb (df_empty df) && has_column df "phone" then drop_duplicates ["phone"] df
    else Returns df in
  (df, searches ≫= snd).

(** ** The registration client ([dmv_integration.py], [config.py]) *)

(** Python truth of an optional text: [None] and the empty text are false. *)
Definition truthy (s : option string) : bool :=
  match s with
  | Some s => negb (bool_decide (s = ""))
  | None => false
  end.

(** The client; [session_headers] are the headers its constructor adds to
    those of the session. *)
Record DMVIntegration : Type := {
  api_key : string;
  endpoint : string;
  user_id : string;
  session_headers : list (string * string)
}.

Inductive constructed (A : Type) : Type :=
  | Constructed (a : A)
  | ValueError (msg : string).

Arguments Constructed {A} a.
Arguments ValueError {A} msg.

(** [DMVIntegration.__init__] *)
Definition DMVIntegration_init (api_key endpoint user_id : option string)
  : constructed DMVIntegration :=
  if negb (truthy api_key && truthy endpoint && truthy user_id) then
    ValueError ("DMV API credentials required. This module requires "
                ++ "authorized access to DMV data. See module docstring for details.")
  else
    Constructed
      {| api_key := default "" api_key;
         endpoint := default "" endpoint;
         user_id := default "" user_id;
         session_headers :=
           [("Authorization", "Bearer " ++ default "" api_key);
            ("User-ID", default "" user_id)] |}.

(** The settings [Config] reads from the environment. *)
Record Config : Type := {
  DMV_API_KEY : option string;
  DMV_API_ENDPOINT : option string;
  DMV_AUTHORIZED_USER_ID : option string;
  OUTPUT_FORMAT : string;
  OUTPUT_DIRECTORY : string
}.

(** [Config.validate_dmv_credentials] *)
Definition validate_dmv_credentials (cfg : Config) : bool :=
  if negb (truthy (DMV_API_KEY cfg)) || negb (truthy (DMV_API_ENDPOINT cfg)) then false
  else true.

(** [MockDMVIntegration.find_recent_buyers]: the look-back period is not
    used. *)
Definition mock_find_recent_buyers (location : string) (days : Z) : DataFrame :=
  mock_dmv_batch location.

(** ** The driver ([main.py]) *)

(** How [main] leaves the set-up of the real registration client: by
    [sys.exit], with a client, or with an exception it logs and survives. *)
Inductive dmv_setup_result : Type :=
  | SysExit (code : Z)
  | ClientReady (dmv : DMVIntegration)
  | IntegrationError (msg : string).

Definition dmv_setup (cfg : Config) : dmv_setup_result :=
  if negb (validate_dmv_credentials cfg) then SysExit 1
  else
    match DMVIntegration_init (DMV_API_KEY cfg) (DMV_API_ENDPOINT cfg)
                              (DMV_AUTHORIZED_USER_ID cfg) with
    | Constructed dmv => ClientReady dmv
    | ValueError msg => IntegrationError msg
    end.

(** Phase 1: search the directory and merge what comes back; an exception is
    logged and the finder left as it was. *)
Definition collect_yellowpages (web : string -> string -> response)
    (categories locations : list string) (finder : ProspectFinder) : ProspectFinder :=
  match (search_multiple_locations web categories locations).1 with
  | Returns yp_data => (add_yellowpages_data finder yp_data).1
  | Raises _ => finder
  end.

(** Phase 2 with [--mock-dmv]: one query per location, each merged. *)
Definition collect_mock_dmv (locations : list string) (finder : ProspectFinder)
  : ProspectFinder :=
  foldl (fun finder location =>
           (add_dmv_data finder (mock_find_recent_buyers location 90)).1)
        finder locations.

(** Phase 3: classify, score, report. *)
Definition process_prospects (argsort : list Z -> list nat) (now : string)
    (finder : ProspectFinder) : ProspectFinder * gmap string rvalue :=
  let finder := set_prospects finder (categorize_prospects finder None) in
  let finder := set_prospects finder (score_prospects argsort finder None).1 in
  (finder, generate_report now finder).

(** [s.split(sep)] for a one-character separator. *)
Fixpoint split_aux (sep : ascii) (cur : string) (s : string) : list string :=
  match s with
  | EmptyString => [cur]
  | String c s' =>
      if bool_decide (c = sep) then cur :: split_aux sep "" s'
      else split_aux sep (cur ++ String c "") s'
  end.

Definition split (sep : ascii) (s : string) : list string := split_aux sep "" s.


(** ** More sample data *)

(** The record of [registered_lead]. *)
Definition lead_record : Row :=
  {[ "name" := VStr "Sample Business 1"; "phone" := VStr "904-555-0199";
     "address" := VStr "1 Main St"; "source" := VStr "MOCK_DMV" ]}.

(** ** The registration client's queries ([dmv_integration.py]) *)

(** What the registration service answers: the frame [pd.DataFrame] builds
    from the records of the answer, or a [requests.RequestException]. *)
Inductive dmv_response : Type :=
  | Records (df : DataFrame)
  | DMVRequestException (msg : string).

(** [str(z)] for an integer inside an f-string. *)
Definition str_of_Z (z : Z) : string := NilEmpty.string_of_int (Z.to_int z).

(** [query_vehicle_registrations(location, filters)]; [api] answers the
    request.  The exception is logged and raised again. *)
Definition query_vehicle_registrations
    (api : string -> list (string * string) -> dmv_response)
    (location : string) (filters : option (list (string * string)))
  : (DataFrame + string) * list Logged :=
  let warned :=
    (LOG_WARNING, "⚠️  DMV data access requires proper authorization. "
                  ++ "Ensure you have valid credentials and permissible use.") in
  match api location (default [] filters) with
  | Records df => (inl df, [warned])
  | DMVRequestException msg =>
      (inr msg, [warned; (LOG_ERROR, "DMV API error: " ++ msg)])
  end.

(** [find_recent_buyers(location, days)] *)
Definition find_recent_buyers
    (api : string -> list (string * string) -> dmv_response)
    (location : string) (days : Z) : (DataFrame + string) * list Logged :=
  let filters :=
    [("purchase_date_start", "-" ++ str_of_Z days ++ "d");
     ("type", "new_registration")] in
  let '(res, logged) := query_vehicle_registrations api location (Some filters) in
  (res, (LOG_INFO, "Querying recent vehicle purchases in " ++ location) :: logged).

(** The body of the query loop of phase 2 with the real client: a query that
    fails is logged by [main] and the next location is tried.  [acc] holds the
    finder and what [main] itself has logged. *)
Definition query_location (api : string -> list (string * string) -> dmv_response)
    (acc : ProspectFinder * list Logged) (location : string)
  : ProspectFinder * list Logged :=
  match (find_recent_buyers api location 90).1 with
  | inl dmv_data =>
      let found :=
        (LOG_INFO, "Found " ++ str_of_nat (len dmv_data)
                   ++ " DMV records for " ++ location) in
      ((add_dmv_data acc.1 dmv_data).1, (acc.2 ++ [found])%list)
  | inr e =>
      let failed :=
        (LOG_ERROR, "Error querying DMV for " ++ location ++ ": " ++ e) in
      (acc.1, (acc.2 ++ [failed])%list)
  end.

(** Phase 2 with the real client: one query per location. *)
Definition collect_dmv (api : string -> list (string * string) -> dmv_response)
    (locations : list string) (finder : ProspectFinder)
  : ProspectFinder * list Logged :=
  foldl (query_location api) (finder, []) locations.

(** ** The closing display ([main.py]) *)




(** ** From processing to the closing display ([main.py]) *)




(** ** What the further properties talk about *)

(** The records a breakdown accounts for. *)
Definition counts_total (d : gmap value nat) : nat :=
  map_fold (fun (_ : value) (n acc : nat) => (n + acc)%nat) O d.

(** The four labels a record can carry. *)
Definition prospect_types : list string :=
  ["Unknown"; "Auto Dealer"; "Vehicle Buyer"; "Body Shop"].

(** The records the processing phase leaves in the store, before they are
    put in order. *)
Definition processed_record (store : DataFrame) (r : Row) : Row :=
  <["score" := VInt (gated_score store r)]>
    (<["prospect_type" := VStr (gated_label store r)]> r).

(** The path and the frame of a written file. *)
Definition path_of (w : FileWrite) : string :=
  match w with to_csv p _ | to_excel p _ | to_json p _ => p end.

Definition frame_of (w : FileWrite) : DataFrame :=
  match w with to_csv _ df | to_excel _ df | to_json _ df => df end.

(** A record as the directory parser builds it: the six fields, all text, the
    name not empty, the category always empty. *)
Definition is_directory_record (r : Row) : Prop :=
  exists name phone address website : string,
    name ≠ ""
    ∧ r = {[ "name" := VStr name; "phone" := VStr phone; "address" := VStr address;
             "website" := VStr website; "category" := VStr "";
             "source" := VStr "YellowPages" ]}.

(** Every record of the frame has the score [z] under the frame's columns. *)
Definition all_score (z : Z) (df : DataFrame) : Prop :=
  Forall (fun r : Row => gated_score df r = z) (rows df).



(** A directory that answers the search for "auto dealers" with four result
    blocks, two of them without a phone and one without a name, and fails on
    every other search. *)
Definition sample_web (category location : string) : response :=
  if bool_decide (category = "auto dealers") then
    Page [ {| business_name := Some "Coastal Motors"; phones := Some "904-555-0110";
              street_address := Some "12 Bay St"; track_visit_website := None |};
           {| business_name := Some "First Coast Wholesale"; phones := None;
              street_address := None; track_visit_website := Some None |};
           {| business_name := Some "River City Collision"; phones := None;
              street_address := Some "8 Dock Rd";
              track_visit_website := Some (Some "https://example.com") |};
           {| business_name := None; phones := Some "904-555-0111";
              street_address := None; track_visit_website := None |} ]
  else RequestException "timeout".

(** Settings with a key and an endpoint and no user identifier. *)
Definition sample_config : Config :=
  {| DMV_API_KEY := Some "k-123";
     DMV_API_ENDPOINT := Some "https://dmv.example/api";
     DMV_AUTHORIZED_USER_ID := None;
     OUTPUT_FORMAT := "csv";
     OUTPUT_DIRECTORY := "./output" |}.

(** A registration service that knows one location and fails on the others. *)
Definition sample_api (location : string) (filters : list (string * string))
  : dmv_response :=
  if bool_decide (location = "Jacksonville,FL") then Records registered_lead
  else DMVRequestException "503 Server Error".

(** * Properties *)

Example re_search_alternatives :
  re_search "auto|car|dealer" "my car" = true.
Proof. reflexivity. Qed.

Example lower_example : lower "ABC Auto Body Shop" = "abc auto body shop".
Proof. reflexivity. Qed.

Example aquicksort_small : aquicksort [3; 1; 2] = [1; 2; 0]%nat.
Proof. vm_compute. reflexivity. Qed.

Example aquicksort_equal_keys :
  aquicksort (replicate 18 20)
  = [0; 15; 14; 13; 12; 11; 10; 9; 8; 7; 6; 5; 4; 3; 2; 1; 16; 17]%nat.
Proof. vm_compute. reflexivity. Qed.

(** ** Merging *)

Lemma merge_nonempty (e : entry_point) (self : ProspectFinder) (df : DataFrame) :
  df_empty df = false ->
  prospects (merge e self df).1 = concat (prospects self) df.
Proof.
  intros Hne. destruct e; simpl; unfold add_yellowpages_data, add_dmv_data;
    rewrite Hne; reflexivity.
Qed.

Lemma merge_empty (e : entry_point) (self : ProspectFinder) (df : DataFrame) :
  df_empty df = true -> (merge e self df).1 = self.
Proof.
  intros He. destruct e; simpl; unfold add_yellowpages_data, add_dmv_data;
    rewrite He; reflexivity.
Qed.

Lemma upcast_of_refl (r : Row) : upcast_of r r.
Proof. intros c. left. reflexivity. Qed.

Lemma upcast_of_trans (r1 r2 r3 : Row) :
  upcast_of r1 r2 -> upcast_of r2 r3 -> upcast_of r1 r3.
Proof.
  intros H12 H23 c. destruct (H23 c) as [-> | (z & H2 & H3)].
  - exact (H12 c).
  - destruct (H12 c) as [Heq | (z' & _ & Hf)].
    + right. exists z. rewrite <- Heq. split; assumption.
    + rewrite Hf in H2. discriminate.
Qed.

Lemma upcast_of_list_trans (l1 l2 l3 : list Row) :
  Forall2 upcast_of l1 l2 -> Forall2 upcast_of l2 l3 -> Forall2 upcast_of l1 l3.
Proof.
  intros H12. revert l3. induction H12 as [| r1 r2 l1 l2 Hr _ IH]; intros l3 H23.
  - inversion H23. constructor.
  - inversion H23 as [| r2' r3 l2' l3' Hr' Hl']; subst. constructor.
    + exact (upcast_of_trans _ _ _ Hr Hr').
    + exact (IH _ Hl').
Qed.

Lemma upcast_of_is_Some (r r' : Row) (c : string) :
  upcast_of r r' -> is_Some (r' !! c) <-> is_Some (r !! c).
Proof.
  intros H. destruct (H c) as [-> | (z & -> & ->)]; [tauto |].
  split; intros _; eexists; reflexivity.
Qed.

Lemma upcast_of_text (r r' : Row) (c : string) (s : string) :
  upcast_of r r' -> r' !! c = Some (VStr s) <-> r !! c = Some (VStr s).
Proof.
  intros H. destruct (H c) as [-> | (z & -> & ->)]; [tauto |].
  split; discriminate.
Qed.

Lemma upcast_row_of (f : string -> bool) (r : Row) :
  upcast_of r (map_imap (fun (col : string) (v : value) =>
                           Some (if f col then to_float v else v)) r).
Proof.
  intros c. rewrite map_lookup_imap.
  destruct (r !! c) as [v |]; [| left; reflexivity]. simpl.
  destruct (f c); [| left; reflexivity].
  destruct v as [s | z | z]; [left; reflexivity | | left; reflexivity].
  right. exists z. split; reflexivity.
Qed.

Lemma upcast_row_id (f : string -> bool) (r : Row) :
  (forall c v, r !! c = Some v -> f c = false ∨ ¬ holds_integer v) ->
  map_imap (fun (col : string) (v : value) =>
              Some (if f col then to_float v else v)) r = r.
Proof.
  intros H. apply map_eq. intros c. rewrite map_lookup_imap.
  destruct (r !! c) as [v |] eqn:Hr; [| reflexivity]. simpl.
  destruct (H c v Hr) as [-> | Hv]; [reflexivity |].
  destruct (f c); [| reflexivity].
  destruct v; [reflexivity | exfalso; apply Hv; exact I | reflexivity].
Qed.

Lemma upcast_length (df other : DataFrame) :
  length (upcast df other) = length (rows df).
Proof. unfold upcast. apply length_fmap. Qed.

Lemma upcast_Forall2 (df other : DataFrame) :
  Forall2 upcast_of (rows df) (upcast df other).
Proof.
  unfold upcast. apply Forall2_fmap_r, Forall_Forall2_diag, Forall_forall.
  intros r _. apply upcast_row_of.
Qed.

Lemma forallb_elem_of {A : Type} (f : A -> bool) (l : list A) (x : A) :
  forallb f l = true -> x ∈ l -> f x = true.
Proof.
  induction l as [| y l IH]; intros H Hx; [inversion Hx |].
  simpl in H. apply andb_true_iff in H as [Hy Hl].
  apply elem_of_cons in Hx as [-> | Hx]; [exact Hy | exact (IH Hl Hx)].
Qed.

(** An int64 column has an integer in every record of the frame. *)
Lemma int_column_lookup (df : DataFrame) (c : string) (r : Row) :
  int_column df c = true -> r ∈ rows df -> exists z, r !! c = Some (VInt z).
Proof.
  unfold int_column, getitem. intros H Hr. apply andb_true_iff in H as [_ H].
  assert (Hin : r !! c ∈ (fun r : Row => r !! c) <$> rows df).
  { apply list_elem_of_fmap. exists r. split; [reflexivity | exact Hr]. }
  pose proof (forallb_elem_of _ _ _ H Hin) as Hc. simpl in Hc.
  destruct (r !! c) as [[s | z | z] |]; try discriminate Hc.
  exists z. reflexivity.
Qed.

Lemma upcast_keeps (df other : DataFrame) :
  keeps_integers df other -> upcast df other = rows df.
Proof.
  intros Hk. unfold upcast.
  transitivity (id <$> rows df); [| apply list_fmap_id].
  apply list_fmap_ext. intros i r _. apply upcast_row_id.
  intros c v _. destruct (int_column df c) eqn:Hint; [| left; reflexivity].
  left. rewrite (Hk c Hint). reflexivity.
Qed.

Lemma no_integers_keeps (df other : DataFrame) :
  no_integers df -> keeps_integers df other.
Proof.
  intros Hno c Hint. exfalso.
  destruct (rows df) as [| r l] eqn:Hrows.
  - unfold int_column in Hint. rewrite Hrows in Hint. discriminate.
  - assert (Hr : r ∈ rows df) by (rewrite Hrows; left).
    destruct (int_column_lookup df c r Hint Hr) as [z Hz].
    unfold no_integers in Hno. rewrite Forall_forall in Hno.
    exact (Hno r Hr c (VInt z) Hz I).
Qed.


Lemma concat_rows_keeps (a b : DataFrame) :
  keeps_integers a b -> keeps_integers b a ->
  rows (concat a b) = (rows a ++ rows b)%list.
Proof.
  intros Ha Hb. unfold concat; simpl.
  rewrite (upcast_keeps a b Ha), (upcast_keeps b a Hb). reflexivity.
Qed.

Lemma concat_Forall2 (a b : DataFrame) :
  Forall2 upcast_of (rows a ++ rows b) (rows (concat a b)).
Proof. unfold concat; simpl. apply Forall2_app; apply upcast_Forall2. Qed.


Lemma no_integers_concat (a b : DataFrame) :
  no_integers a -> no_integers b -> no_integers (concat a b).
Proof.
  intros Ha Hb. unfold no_integers.
  rewrite (concat_rows_keeps a b) by (apply no_integers_keeps; assumption).
  apply Forall_app. split; assumption.
Qed.

Lemma wf_upcast (cols : list string) (df other : DataFrame) :
  Forall (fun r : Row => map_Forall (wf_cell cols) r) (rows df) ->
  Forall (fun r : Row => map_Forall (wf_cell cols) r) (upcast df other).
Proof.
  intros Hwf. pose proof (upcast_Forall2 df other) as H2.
  induction H2 as [| r r' l l' Hr _ IH]; [constructor |].
  apply Forall_cons in Hwf as [Hwr Hwl]. constructor; [| exact (IH Hwl)].
  intros c v' Hv'. destruct (Hr c) as [Heq | (z & Hz & Hf)].
  - apply (Hwr c v'). rewrite <- Heq. exact Hv'.
  - destruct (Hwr c (VInt z) Hz) as [Hc Ht]. split; [exact Hc |].
    intros Hin. destruct (Ht Hin).
Qed.

Lemma wf_concat (a b : DataFrame) : wf a -> wf b -> wf (concat a b).
Proof.
  unfold wf. intros Ha Hb.
  change (rows (concat a b)) with (upcast a b ++ upcast b a)%list.
  apply Forall_app. split; apply wf_upcast.
  - eapply Forall_impl; [exact Ha |]. intros r Hr c v Hcv.
    destruct (Hr c v Hcv) as [Hc Ht]. split; [| exact Ht].
    unfold concat; simpl. apply elem_of_app. left. exact Hc.
  - eapply Forall_impl; [exact Hb |]. intros r Hr c v Hcv.
    destruct (Hr c v Hcv) as [Hc Ht]. split; [| exact Ht].
    unfold concat; simpl.
    apply elem_of_app. destruct (decide (c ∈ columns a)) as [Hin | Hout].
    + left; exact Hin.
    + right. apply list_elem_of_filter. split; [exact Hout | exact Hc].
Qed.




(** C10: on every finder and every batch the two merge entry points leave the
    same finder behind (same records, same order, same columns); they log at
    the same level and differ only in the message text. *)
Theorem merge_entry_points_agree (self : ProspectFinder) (df : DataFrame) :
  (add_yellowpages_data self df).1 = (add_dmv_data self df).1
  ∧ fst <$> (add_yellowpages_data self df).2 = fst <$> (add_dmv_data self df).2
  ∧ (add_yellowpages_data self df).2 ≠ (add_dmv_data self df).2.
Proof.
  unfold add_yellowpages_data, add_dmv_data.
  destruct (df_empty df); simpl; repeat split; try discriminate.
  intros Heq. injection Heq as Heq.
  apply (inj (String.app _)) in Heq. apply (inj (String.app _)) in Heq.
  discriminate.
Qed.

(** ** Export *)

(** C8: on an empty store [export_prospects] returns no path, writes no file
    and logs one warning, whatever the file name and format. *)
Theorem export_empty_store_is_noop
    (now : string) (self : ProspectFinder) (filename : option string) (format : string) :
  df_empty (prospects self) = true ->
  export_prospects now self filename format
  = (Returns None, [], [(WARNING, "No prospects to export")]).
Proof. intros He. unfold export_prospects. rewrite He. reflexivity. Qed.

Lemma export_empty_store_is_noop_witness :
  df_empty (prospects (init "./output")) = true
  ∧ export_prospects "20240115_093000" (init "./output") None "csv"
    = (Returns None, [], [(WARNING, "No prospects to export")]).
Proof.
  split; [reflexivity |].
  exact (export_empty_store_is_noop "20240115_093000" (init "./output") None "csv" eq_refl).
Defined.

(** C4, as stated, fails: on a store that holds records, the format "xml" makes
    [export_prospects] return the path it resolved, with no file written, no
    record logged and no exception. *)
Lemma export_unknown_format_does_not_fail :
  df_empty (prospects small_store) = false
  ∧ export_prospects "20240115_093000" small_store None "xml"
    = (Returns (Some "./output/vehicle_buyer_prospects_20240115_093000"), [], [])
  ∧ ¬ fails_clearly (export_prospects "20240115_093000" small_store None "xml").
Proof.
  split; [reflexivity |]. split; [vm_compute; reflexivity |].
  intros [e He]. vm_compute in He. discriminate.
Qed.

(** C4, amended: on a store that holds records, a format other than "csv",
    "excel" and "json" makes [export_prospects] write no file and log nothing;
    it raises nothing and returns the resolved path, as it does for the
    recognised formats. *)
Theorem export_unknown_format_is_silent
    (now : string) (self : ProspectFinder) (filename : option string) (format : string) :
  df_empty (prospects self) = false ->
  format ∉ ["csv"; "excel"; "json"] ->
  export_prospects now self filename format
  = (Returns (Some (path_join (output_directory self)
                              (default ("vehicle_buyer_prospects_" ++ now) filename))),
     [], []).
Proof.
  intros Hne Hfmt. unfold export_prospects. rewrite Hne.
  assert (Hcsv : format ≠ "csv") by (intros ->; apply Hfmt; set_solver).
  assert (Hxls : format ≠ "excel") by (intros ->; apply Hfmt; set_solver).
  assert (Hjson : format ≠ "json") by (intros ->; apply Hfmt; set_solver).
  rewrite !bool_decide_eq_false_2 by assumption. reflexivity.
Qed.

Lemma export_unknown_format_is_silent_witness :
  df_empty (prospects small_store) = false
  ∧ ("xml" ∉ ["csv"; "excel"; "json"])
  ∧ export_prospects "20240115_093000" small_store (Some "leads") "xml"
    = (Returns (Some (path_join "./output" "leads")), [], []).
Proof.
  split; [reflexivity |]. split; [compute_done |].
  apply (export_unknown_format_is_silent "20240115_093000" small_store (Some "leads") "xml").
  - reflexivity.
  - compute_done.
Defined.

(** ** Scoring *)

Lemma zip_with_fmap_both {A B C D : Type} (F : B -> C -> D) (m : A -> B) (g : A -> C)
    (l : list A) :
  zip_with F (m <$> l) (g <$> l) = (fun x => F (m x) (g x)) <$> l.
Proof. induction l as [| x l IH]; csimpl; [reflexivity | f_equal; exact IH]. Qed.

(** One scoring rule applied to a frame whose score column already holds
    [f r] for each input record [r]. *)
Lemma loc_iadd_scored (f : Row -> Z) (l : list Row) (df : DataFrame)
    (col : string) (t : option value -> bool) (k : Z) :
  col ≠ "score" ->
  rows df = (fun r : Row => <["score" := VInt (f r)]> r) <$> l ->
  rows (loc_iadd (t <$> getitem df col) "score" k df)
  = (fun r : Row => <["score" := VInt (f r + contribution (t (r !! col)) k)]> r) <$> l.
Proof.
  intros Hcol Hrows. unfold loc_iadd, getitem; simpl. rewrite Hrows.
  rewrite <- !list_fmap_compose. rewrite zip_with_fmap_both.
  apply list_fmap_ext. intros i r _. simpl.
  rewrite lookup_insert_ne by congruence.
  destruct (t (r !! col)); simpl.
  - rewrite alter_insert_eq. reflexivity.
  - rewrite Z.add_0_r. reflexivity.
Qed.

Lemma has_column_setitem (df : DataFrame) (col c : string) (v : value) :
  c ≠ col -> has_column (setitem col v df) c = has_column df c.
Proof.
  intros Hne. unfold setitem. destruct (has_column df col); [reflexivity |].
  unfold has_column; simpl. apply bool_decide_ext. rewrite elem_of_app, list_elem_of_singleton. tauto.
Qed.

Lemma has_column_columns (d d' : DataFrame) (c : string) :
  columns d = columns d' -> has_column d c = has_column d' c.
Proof. unfold has_column. intros ->. reflexivity. Qed.

Lemma re_search_DMV (s : string) : re_search "DMV" s = find "DMV" s.
Proof. unfold re_search; simpl. apply orb_false_r. Qed.

Lemma assign_scores_rows (df : DataFrame) :
  rows (assign_scores df)
  = (fun r : Row => <["score" := VInt (gated_score df r)]> r) <$> rows df.
Proof.
  unfold assign_scores.
  set (d0 := setitem "score" (VInt 0) df).
  assert (H0 : rows d0 = (fun r : Row => <["score" := VInt 0]> r) <$> rows df)
    by reflexivity.
  assert (Hc0 : forall c, c ≠ "score" -> has_column d0 c = has_column df c)
    by (intros c Hc; apply has_column_setitem; exact Hc).
  clearbody d0.
  set (f1 := fun r : Row =>
     0 + contribution (has_column df "phone" && bool_decide (is_Some (r !! "phone"))) 10).
  set (d1 := if has_column d0 "phone" then _ else d0).
  assert (H1 : rows d1 = (fun r : Row => <["score" := VInt (f1 r)]> r) <$> rows df
               ∧ columns d1 = columns d0).
  { subst d1 f1. rewrite Hc0 by discriminate.
    destruct (has_column df "phone"); simpl.
    - split; [| reflexivity].
      apply (loc_iadd_scored (fun _ => 0) (rows df) d0 "phone"
               (fun c => bool_decide (is_Some c)) 10); [discriminate | exact H0].
    - split; [| reflexivity]. rewrite H0. reflexivity. }
  destruct H1 as [H1 Hc1]. clearbody d1.
  set (f2 := fun r : Row =>
     f1 r + contribution (has_column df "website" && bool_decide (is_Some (r !! "website"))) 5).
  set (d2 := if has_column d1 "website" then _ else d1).
  assert (H2 : rows d2 = (fun r : Row => <["score" := VInt (f2 r)]> r) <$> rows df
               ∧ columns d2 = columns d0).
  { subst d2 f2. rewrite (has_column_columns d1 d0 "website" Hc1), Hc0 by discriminate.
    destruct (has_column df "website"); simpl.
    - split; [| exact Hc1].
      apply (loc_iadd_scored f1 (rows df) d1 "website"
               (fun c => bool_decide (is_Some c)) 5); [discriminate | exact H1].
    - split; [| exact Hc1]. rewrite H1. apply list_fmap_ext. intros i r _.
      rewrite Z.add_0_r. reflexivity. }
  destruct H2 as [H2 Hc2]. clearbody d2.
  set (f3 := fun r : Row =>
     f2 r + contribution (has_column df "address" && bool_decide (is_Some (r !! "address"))) 5).
  set (d3 := if has_column d2 "address" then _ else d2).
  assert (H3 : rows d3 = (fun r : Row => <["score" := VInt (f3 r)]> r) <$> rows df
               ∧ columns d3 = columns d0).
  { subst d3 f3. rewrite (has_column_columns d2 d0 "address" Hc2), Hc0 by discriminate.
    destruct (has_column df "address"); simpl.
    - split; [| exact Hc2].
      apply (loc_iadd_scored f2 (rows df) d2 "address"
               (fun c => bool_decide (is_Some c)) 5); [discriminate | exact H2].
    - split; [| exact Hc2]. rewrite H2. apply list_fmap_ext. intros i r _.
      rewrite Z.add_0_r. reflexivity. }
  destruct H3 as [H3 Hc3]. clearbody d3.
  rewrite (has_column_columns d3 d0 "source" Hc3), Hc0 by discriminate.
  destruct (has_column df "source") eqn:Hsrc.
  - unfold str_contains.
    rewrite (loc_iadd_scored f3 (rows df) d3 "source"
               (fun c => match c with Some (VStr t) => re_search "DMV" t | _ => false end) 20);
      [| discriminate | exact H3].
    apply list_fmap_ext. intros i r _. unfold gated_score, f3, f2, f1.
    rewrite Hsrc. simpl. unfold source_has_DMV.
    destruct (r !! "source") as [[s | z | z] |]; simpl;
      rewrite ?re_search_DMV; reflexivity.
  - rewrite H3. apply list_fmap_ext. intros i r _. unfold gated_score, f3, f2, f1.
    rewrite Hsrc. simpl. rewrite Z.add_0_r. reflexivity.
Qed.

Lemma wf_lookup (df : DataFrame) (r : Row) (c : string) :
  wf df -> r ∈ rows df -> is_Some (r !! c) -> has_column df c = true.
Proof.
  intros Hwf Hr [v Hv]. unfold wf in Hwf. rewrite Forall_forall in Hwf.
  apply bool_decide_eq_true_2. exact (proj1 (Hwf r Hr c v Hv)).
Qed.

Lemma gated_score_wf (df : DataFrame) (r : Row) :
  wf df -> r ∈ rows df -> gated_score df r = spec_score r.
Proof.
  intros Hwf Hr. unfold gated_score, spec_score.
  assert (Hp : forall c, has_column df c && bool_decide (is_Some (r !! c))
                         = bool_decide (is_Some (r !! c))).
  { intros c. destruct (bool_decide (is_Some (r !! c))) eqn:Hc;
      [| apply andb_false_r].
    apply bool_decide_eq_true_1 in Hc. rewrite (wf_lookup df r c Hwf Hr Hc).
    reflexivity. }
  rewrite !Hp. do 2 f_equal.
  destruct (source_has_DMV r) eqn:Hs; [| rewrite andb_false_r; reflexivity].
  rewrite (wf_lookup df r "source" Hwf Hr); [reflexivity |].
  unfold source_has_DMV in Hs. destruct (r !! "source"); [eauto | discriminate].
Qed.

Lemma spec_score_bounds (r : Row) : 0 <= spec_score r <= 40.
Proof.
  unfold spec_score, contribution.
  repeat match goal with |- context [if ?b then _ else _] => destruct b end; lia.
Qed.

Lemma spec_score_insert_score (r : Row) (v : value) :
  spec_score (<["score" := v]> r) = spec_score r.
Proof.
  unfold spec_score, source_has_DMV.
  rewrite !lookup_insert_ne by discriminate. reflexivity.
Qed.

Lemma score_of_insert (r : Row) (z : Z) : score_of (<["score" := VInt z]> r) = z.
Proof. unfold score_of. rewrite lookup_insert_eq. reflexivity. Qed.

Lemma elem_of_take_at {A : Type} (a : list A) (p : list nat) (x : A) :
  x ∈ take_at a p -> x ∈ a.
Proof.
  unfold take_at. rewrite list_elem_of_omap. intros (i & _ & Hi).
  apply list_elem_of_lookup. exists i. exact Hi.
Qed.

Lemma score_prospects_rows (argsort : list Z -> list nat) (self : ProspectFinder)
    (df : option DataFrame) :
  let scored := assign_scores (default (prospects self) df) in
  rows (score_prospects argsort self df).1
  = take_at (rows scored)
            (reverse (take_at (reverse (seq 0 (length (rows scored))))
                              (argsort (reverse (score_of <$> rows scored))))).
Proof.
  simpl. unfold sort_values, nargsort; simpl. f_equal. f_equal.
  unfold int_values, getitem. rewrite <- list_fmap_compose.
  rewrite !length_fmap. reflexivity.
Qed.

Lemma assign_scores_columns (df : DataFrame) :
  columns (assign_scores df) = columns (setitem "score" (VInt 0) df).
Proof.
  unfold assign_scores.
  repeat match goal with
         | |- context [if has_column ?d ?c then _ else _] =>
             destruct (has_column d c); simpl
         end; reflexivity.
Qed.

Lemma elem_of_columns_setitem (df : DataFrame) (col c : string) (v : value) :
  c ∈ columns (setitem col v df) <-> c ∈ columns df ∨ c = col.
Proof.
  unfold setitem; simpl. destruct (has_column df col) eqn:Hc.
  - apply bool_decide_eq_true_1 in Hc. split; [auto |]. intros [H | ->]; assumption.
  - rewrite elem_of_app, list_elem_of_singleton. reflexivity.
Qed.

(** Inserting a cell under a column the frame has keeps a record inside the
    frame's columns. *)
Lemma wf_insert_rows (df df' : DataFrame) (col : string) (f : Row -> value) :
  wf df ->
  col ∉ text_columns ->
  rows df' = (fun r : Row => <[col := f r]> r) <$> rows df ->
  (forall c, c ∈ columns df' <-> c ∈ columns df ∨ c = col) ->
  wf df'.
Proof.
  unfold wf. intros Hwf Hcol -> Hcols. apply Forall_fmap.
  eapply Forall_impl; [exact Hwf |]. intros r Hr. simpl.
  apply map_Forall_insert_2.
  - split; [apply Hcols; right; reflexivity | intros Ht; contradiction].
  - intros c v Hcv. destruct (Hr c v Hcv) as [Hc Ht]. split; [| exact Ht].
    apply Hcols. left. exact Hc.
Qed.

Lemma wf_assign_scores (df : DataFrame) : wf df -> wf (assign_scores df).
Proof.
  intros Hwf.
  apply (wf_insert_rows df _ "score" (fun r => VInt (gated_score df r)) Hwf).
  - compute_done.
  - apply assign_scores_rows.
  - intros c. rewrite assign_scores_columns. apply elem_of_columns_setitem.
Qed.

(** ** Sorting *)

Section take_at.
Context {A : Type}.
Implicit Types (l : list A) (p : list nat).

Lemma take_at_seq_app l0 l : take_at (l0 ++ l) (seq (length l0) (length l)) = l.
Proof.
  revert l0. induction l as [| x l IH]; intros l0; [reflexivity |].
  unfold take_at in *. simpl. rewrite list_lookup_middle by reflexivity.
  f_equal. specialize (IH (l0 ++ [x])%list).
  rewrite length_app, <- app_assoc in IH. simpl in IH.
  rewrite Nat.add_1_r in IH. exact IH.
Qed.

Lemma take_at_seq l : take_at l (seq 0 (length l)) = l.
Proof. exact (take_at_seq_app [] l). Qed.

Lemma take_at_Permutation l p : p ≡ₚ seq 0 (length l) -> take_at l p ≡ₚ l.
Proof.
  intros Hp. unfold take_at. rewrite Hp. fold (take_at l (seq 0 (length l))).
  rewrite take_at_seq. reflexivity.
Qed.

Lemma take_at_reverse l p : take_at l (reverse p) = reverse (take_at l p).
Proof.
  unfold take_at. induction p as [| i p IH]; [reflexivity |].
  rewrite reverse_cons, omap_app, IH. simpl.
  destruct (l !! i); simpl.
  - rewrite reverse_cons. reflexivity.
  - rewrite app_nil_r. reflexivity.
Qed.

Lemma take_at_reverse_l l p :
  Forall (fun i => (i < length l)%nat) p ->
  take_at l ((fun i => (length l - 1 - i)%nat) <$> p) = take_at (reverse l) p.
Proof.
  unfold take_at. induction 1 as [| i p Hi _ IH]; [reflexivity |].
  csimpl. rewrite IH, (reverse_lookup l i Hi).
  replace (length l - S i)%nat with (length l - 1 - i)%nat by lia. reflexivity.
Qed.

Lemma filter_take_at (P : A -> Prop) `{!forall x, Decision (P x)} l p :
  filter P (take_at l p)
  = take_at l (filter (holds_at P l) p).
Proof.
  unfold take_at. induction p as [| i p IH]; [reflexivity |].
  rewrite filter_cons. simpl.
  destruct (decide (holds_at P l i)) as [Hi | Hi]; unfold holds_at in Hi;
    simpl; destruct (l !! i) as [x |] eqn:Hx; try contradiction.
  - rewrite filter_cons_True by exact Hi. f_equal. exact IH.
  - rewrite filter_cons_False by exact Hi. exact IH.
  - exact IH.
Qed.
End take_at.

Lemma fmap_take_at {A B : Type} (f : A -> B) (l : list A) (p : list nat) :
  f <$> take_at l p = take_at (f <$> l) p.
Proof.
  unfold take_at. rewrite list_fmap_omap. apply list_omap_ext.
  induction p as [| i p IH]; constructor; [| exact IH].
  rewrite list_lookup_fmap. reflexivity.
Qed.

Lemma take_at_mirror (n : nat) (p : list nat) :
  Forall (fun i => (i < n)%nat) p ->
  take_at (reverse (seq 0 n)) p = (fun i => (n - 1 - i)%nat) <$> p.
Proof.
  unfold take_at. induction 1 as [| i p Hi _ IH]; [reflexivity |].
  csimpl. rewrite IH, reverse_lookup by (rewrite length_seq; exact Hi).
  rewrite length_seq. rewrite lookup_seq_lt by lia. simpl. f_equal. lia.
Qed.

Section sorted_lists.
Context {A : Type} (R : relation A).

Lemma StronglySorted_reverse (l : list A) :
  StronglySorted R l -> StronglySorted (flip R) (reverse l).
Proof.
  induction 1 as [| x l _ IH Hx]; [constructor |].
  rewrite reverse_cons. apply StronglySorted_app_2.
  - intros y x' Hy Hx'. apply list_elem_of_singleton in Hx' as ->.
    rewrite elem_of_reverse in Hy. rewrite Forall_forall in Hx. exact (Hx y Hy).
  - exact IH.
  - repeat constructor.
Qed.

Lemma StronglySorted_fmap_inv {B : Type} (f : B -> A) (l : list B) :
  StronglySorted R (f <$> l) -> StronglySorted (fun x y => R (f x) (f y)) l.
Proof.
  induction l as [| x l IH]; [constructor |].
  csimpl. rewrite !StronglySorted_cons, Forall_fmap. intros [Hx Hl].
  split; [exact Hx | exact (IH Hl)].
Qed.

Lemma StronglySorted_impl (R' : relation A) (l : list A) :
  (forall x y, R x y -> R' x y) -> StronglySorted R l -> StronglySorted R' l.
Proof.
  intros HR. induction 1 as [| x l _ IH Hx]; constructor; [exact IH |].
  eapply Forall_impl; [exact Hx | apply HR].
Qed.

Lemma StronglySorted_and_Forall (P : A -> Prop) (l : list A) :
  StronglySorted R l -> Forall P l ->
  StronglySorted (fun x y => P x ∧ P y ∧ R x y) l.
Proof.
  induction 1 as [| x l _ IH Hx]; [constructor |].
  rewrite Forall_cons. intros [Px Pl]. constructor; [exact (IH Pl) |].
  rewrite Forall_forall in *. intros y Hy. auto.
Qed.

Lemma StronglySorted_filter_guard (Q : A -> Prop) `{!forall x, Decision (Q x)}
    (l : list A) :
  StronglySorted (fun x y => Q x -> Q y -> R x y) l ->
  StronglySorted R (filter Q l).
Proof.
  induction 1 as [| x l _ IH Hx]; [constructor |].
  rewrite filter_cons. destruct (decide (Q x)) as [Qx |]; [| exact IH].
  constructor; [exact IH |].
  rewrite Forall_forall in *. intros y Hy.
  apply list_elem_of_filter in Hy as [Qy Hy]. exact (Hx y Hy Qx Qy).
Qed.
End sorted_lists.

Lemma StronglySorted_lt_seq (j n : nat) : StronglySorted lt (seq j n).
Proof.
  revert j. induction n as [| n IH]; intros j; simpl; constructor; [apply IH |].
  apply Forall_forall. intros i Hi. apply elem_of_seq in Hi. lia.
Qed.

(** The heart of [sort_values] on scored records [l]: [p] is what argsort
    returned for the reversed score column. *)
Section descending_sort.
Variables (l : list Row) (p : list nat).
Let keys : list Z := score_of <$> l.
Let mirror : nat -> nat := fun i => (length l - 1 - i)%nat.
Let out : list Row := take_at l (reverse (take_at (reverse (seq 0 (length l))) p)).

Hypothesis Hok : argsort_ok (reverse keys) p.

Local Lemma keys_length : length (reverse keys) = length l.
Proof. unfold keys. rewrite length_reverse, length_fmap. reflexivity. Qed.

Local Lemma p_in_range : Forall (fun i => (i < length l)%nat) p.
Proof.
  destruct Hok as [Hperm _]. rewrite keys_length in Hperm.
  apply Forall_forall. intros i Hi. rewrite Hperm in Hi.
  apply elem_of_seq in Hi. lia.
Qed.

Local Lemma out_eq : out = take_at l (reverse (mirror <$> p)).
Proof. unfold out, mirror. rewrite (take_at_mirror _ _ p_in_range). reflexivity. Qed.

Local Lemma mirror_seq : mirror <$> seq 0 (length l) = reverse (seq 0 (length l)).
Proof.
  transitivity (take_at (reverse (seq 0 (length l))) (seq 0 (length l))).
  - symmetry. apply take_at_mirror.
    apply Forall_forall. intros i Hi. apply elem_of_seq in Hi. lia.
  - pose proof (take_at_seq (reverse (seq 0 (length l)))) as H.
    rewrite length_reverse, length_seq in H. exact H.
Qed.

Local Lemma indexer_Permutation : reverse (mirror <$> p) ≡ₚ seq 0 (length l).
Proof.
  destruct Hok as [Hperm _]. rewrite keys_length in Hperm.
  rewrite reverse_Permutation, Hperm, mirror_seq. apply reverse_Permutation.
Qed.

Lemma sorted_Permutation : out ≡ₚ l.
Proof. rewrite out_eq. apply take_at_Permutation, indexer_Permutation. Qed.

Lemma sorted_descending : descending out.
Proof.
  unfold descending. rewrite out_eq.
  apply (StronglySorted_fmap_inv (flip Z.le) score_of).
  rewrite fmap_take_at, take_at_reverse. apply StronglySorted_reverse.
  fold keys. unfold mirror. rewrite <- (length_fmap score_of l). fold keys.
  rewrite take_at_reverse_l.
  - destruct Hok as [_ Hsorted]. exact Hsorted.
  - unfold keys. rewrite length_fmap. exact p_in_range.
Qed.

Local Lemma reverse_keys_lookup (i : nat) :
  (i < length l)%nat -> reverse keys !! i = score_of <$> (l !! mirror i).
Proof.
  intros Hi. unfold keys, mirror. simpl.
  rewrite reverse_lookup by (rewrite length_fmap; exact Hi).
  rewrite length_fmap, list_lookup_fmap. do 2 f_equal. lia.
Qed.

Lemma sorted_ties_keep_order :
  argsort_stable (reverse keys) p -> ties_keep_order l out.
Proof.
  intros Hstable s. rewrite out_eq.
  transitivity (filter (fun r : Row => score_of r = s) (take_at l (seq 0 (length l))));
    [| rewrite take_at_seq; reflexivity].
  rewrite !filter_take_at. f_equal.
  set (Q := holds_at (fun r : Row => score_of r = s) l).
  apply (StronglySorted_unique_strong lt).
  - intros; lia.
  - apply StronglySorted_filter_guard.
    apply (StronglySorted_reverse (fun j i : nat => Q i -> Q j -> (i < j)%nat)).
    apply (StronglySorted_fmap mirror
             (fun i j : nat =>
                (i < length l)%nat ∧ (j < length l)%nat
                ∧ (reverse keys !! i = reverse keys !! j -> (i < j)%nat))).
    + intros i j (Hi & Hj & Hij) Qj Qi.
      assert (Hkey : forall k, (k < length l)%nat -> Q (mirror k) ->
                               reverse keys !! k = Some s).
      { intros k Hk Qk. rewrite (reverse_keys_lookup k Hk).
        unfold Q, holds_at in Qk. destruct (l !! mirror k); [| contradiction].
        simpl. f_equal. exact Qk. }
      assert (i < j)%nat
        by (apply Hij; rewrite (Hkey i Hi Qi), (Hkey j Hj Qj); reflexivity).
      unfold mirror. simpl. lia.
    + apply StronglySorted_and_Forall; [exact Hstable | exact p_in_range].
  - apply StronglySorted_filter_guard.
    apply (StronglySorted_impl lt); [auto | apply StronglySorted_lt_seq].
  - rewrite indexer_Permutation. reflexivity.
Qed.
End descending_sort.

(** ** The portable quicksort sorts *)

Lemma insert_head_Permutation (t : list nat) (j : nat) (a y : nat) :
  t !! j = Some y -> y :: <[j := a]> t ≡ₚ a :: t.
Proof.
  revert j. induction t as [| b t IH]; intros j Hj; [discriminate |].
  destruct j as [| j]; simpl in *.
  - injection Hj as ->. apply perm_swap.
  - rewrite (perm_swap b y). rewrite (IH j Hj). apply perm_swap.
Qed.

Lemma insert_insert_Permutation (t : list nat) (i j x y : nat) :
  t !! i = Some x -> t !! j = Some y -> <[j := x]> (<[i := y]> t) ≡ₚ t.
Proof.
  revert i j. induction t as [| a t IH]; intros i j Hi Hj; [discriminate |].
  destruct i as [| i], j as [| j]; simpl in *.
  - injection Hi as ->. injection Hj as ->. reflexivity.
  - injection Hi as ->. apply insert_head_Permutation. exact Hj.
  - injection Hj as ->. symmetry. rewrite <- (insert_head_Permutation t i y x Hi) at 1.
    reflexivity.
  - f_equiv. apply IH; assumption.
Qed.

Lemma swap_length (i j : nat) (t : list nat) : length (swap i j t) = length t.
Proof. unfold swap. rewrite !length_insert. reflexivity. Qed.

Lemma swap_Permutation (i j : nat) (t : list nat) :
  (i < length t)%nat -> (j < length t)%nat -> swap i j t ≡ₚ t.
Proof.
  intros Hi Hj. unfold swap. apply insert_insert_Permutation.
  - apply list_lookup_lookup_total_lt. exact Hi.
  - apply list_lookup_lookup_total_lt. exact Hj.
Qed.

Lemma swap_lookup (i j k : nat) (t : list nat) :
  (i < length t)%nat -> (j < length t)%nat ->
  swap i j t !!! k
  = if decide (k = j) then t !!! i else if decide (k = i) then t !!! j else t !!! k.
Proof.
  intros Hi Hj. unfold swap.
  destruct (decide (k = j)) as [-> | Hkj].
  - apply list_lookup_total_insert_eq. rewrite length_insert. exact Hj.
  - rewrite list_lookup_total_insert_ne by congruence.
    destruct (decide (k = i)) as [-> | Hki].
    + apply list_lookup_total_insert_eq. exact Hi.
    + apply list_lookup_total_insert_ne. congruence.
Qed.

Lemma rearranged_refl pl pr t : rearranged pl pr t t.
Proof. repeat split; eauto. Qed.

Lemma rearranged_trans pl pr t1 t2 t3 :
  rearranged pl pr t1 t2 -> rearranged pl pr t2 t3 -> rearranged pl pr t1 t3.
Proof.
  intros (L1 & O1 & I1 & P1) (L2 & O2 & I2 & P2). repeat split.
  - congruence.
  - intros i Hi. rewrite O2, O1 by exact Hi. reflexivity.
  - intros i Hi. destruct (I2 i Hi) as (i1 & Hi1 & E1).
    destruct (I1 i1 Hi1) as (i0 & Hi0 & E0). exists i0. split; [exact Hi0 | congruence].
  - etransitivity; eassumption.
Qed.

Lemma rearranged_weaken pl pr pl' pr' t t' :
  (pl' <= pl)%nat -> (pr <= pr')%nat ->
  rearranged pl pr t t' -> rearranged pl' pr' t t'.
Proof.
  intros Hl Hr (L & O & I & P). repeat split; [exact L | | | exact P].
  - intros i Hi. apply O. unfold within in *. lia.
  - intros i Hi. destruct (decide (within pl pr i)) as [Hin | Hout].
    + destruct (I i Hin) as (i0 & Hi0 & E). exists i0. split; [unfold within in *; lia | exact E].
    + exists i. split; [exact Hi | apply O; exact Hout].
Qed.

Lemma rearranged_swap pl pr i j t :
  within pl pr i -> within pl pr j -> (i < length t)%nat -> (j < length t)%nat ->
  rearranged pl pr t (swap i j t).
Proof.
  intros Hi Hj Li Lj. repeat split.
  - apply swap_length.
  - intros k Hk. rewrite swap_lookup by assumption.
    rewrite !decide_False; [reflexivity | |]; intros ->; contradiction.
  - intros k Hk. rewrite swap_lookup by assumption.
    destruct (decide (k = j)); [exists i; auto |].
    destruct (decide (k = i)); [exists j; auto |]. exists k; auto.
  - apply swap_Permutation; assumption.
Qed.

Section partition_correct.
Variable v : list Z.

Lemma key_at_swap (i j k : nat) (t : list nat) :
  (i < length t)%nat -> (j < length t)%nat ->
  key_at v (swap i j t) k
  = if decide (k = j) then key_at v t i else if decide (k = i) then key_at v t j else key_at v t k.
Proof.
  intros Hi Hj. unfold key_at. rewrite swap_lookup by assumption.
  destruct (decide (k = j)); [reflexivity |]. destruct (decide (k = i)); reflexivity.
Qed.

Lemma scan_up_spec (fuel : nat) (t : list nat) (vp : Z) (pi s : nat) :
  (pi < s)%nat -> (s - pi <= fuel)%nat -> vp <= key_at v t s ->
  let p := scan_up fuel v t vp pi in
  (pi < p <= s)%nat ∧ vp <= key_at v t p ∧ forall i, (pi < i < p)%nat -> key_at v t i < vp.
Proof.
  revert pi. induction fuel as [| fuel IH]; intros pi Hlt Hfuel Hs; [lia |].
  simpl. destruct (key_at v t (S pi) <? vp) eqn:Hk.
  - apply Z.ltb_lt in Hk.
    assert (S pi < s)%nat by (destruct (decide (S pi = s)) as [<- |]; lia).
    destruct (IH (S pi)) as (Hp & Hkp & Hbelow); [lia | lia | exact Hs |].
    split; [lia |]. split; [exact Hkp |].
    intros i Hi. destruct (decide (i = S pi)) as [-> |]; [exact Hk | apply Hbelow; lia].
  - apply Z.ltb_ge in Hk. split; [lia |]. split; [exact Hk |]. intros i Hi. lia.
Qed.

Lemma scan_down_spec (fuel : nat) (t : list nat) (vp : Z) (pj s : nat) :
  (s < pj)%nat -> (pj - s <= fuel)%nat -> key_at v t s <= vp ->
  let p := scan_down fuel v t vp pj in
  (s <= p < pj)%nat ∧ key_at v t p <= vp ∧ forall i, (p < i < pj)%nat -> vp < key_at v t i.
Proof.
  revert pj. induction fuel as [| fuel IH]; intros pj Hlt Hfuel Hs; [lia |].
  simpl. destruct (vp <? key_at v t (Nat.pred pj)) eqn:Hk.
  - apply Z.ltb_lt in Hk.
    assert (s < Nat.pred pj)%nat
      by (destruct (decide (Nat.pred pj = s)) as [<- |]; lia).
    destruct (IH (Nat.pred pj)) as (Hp & Hkp & Habove); [lia | lia | exact Hs |].
    split; [lia |]. split; [exact Hkp |].
    intros i Hi. destruct (decide (i = Nat.pred pj)) as [-> |];
      [exact Hk | apply Habove; lia].
  - apply Z.ltb_ge in Hk. split; [lia |]. split; [exact Hk |]. intros i Hi. lia.
Qed.

Lemma partition_loop_spec (pl pr : nat) (vp : Z) (fuel : nat) :
  forall (pi pj : nat) (t : list nat),
    (pl <= pi)%nat -> (pi < pj)%nat -> (pj < pr)%nat -> (pr < length t)%nat ->
    (pj - pi <= fuel)%nat ->
    (forall i, (pl <= i <= pi)%nat -> key_at v t i <= vp) ->
    (forall i, (pj <= i <= pr)%nat -> vp <= key_at v t i) ->
    let res := partition_loop fuel v vp pi pj t in
    rearranged pl pr t res.2
    ∧ (pl < res.1 < pr)%nat
    ∧ (forall i, (pl <= i < res.1)%nat -> key_at v res.2 i <= vp)
    ∧ vp <= key_at v res.2 res.1
    ∧ (forall i, (res.1 < i <= pr)%nat -> vp <= key_at v res.2 i)
    ∧ (forall i, (pj <= i)%nat -> res.2 !!! i = t !!! i).
Proof.
  induction fuel as [| fuel IH]; intros pi pj t Hpl Hij Hpr Hlen Hfuel Hlow Hhigh;
    [lia |].
  simpl.
  destruct (scan_up_spec (length t) t vp pi pj Hij ltac:(lia) (Hhigh pj ltac:(lia)))
    as (Hp1 & Hk1 & Hb1).
  set (p1 := scan_up (length t) v t vp pi) in *.
  destruct (scan_down_spec (length t) t vp pj pi Hij ltac:(lia) (Hlow pi ltac:(lia)))
    as (Hp2 & Hk2 & Hb2).
  set (p2 := scan_down (length t) v t vp pj) in *.
  destruct (p2 <=? p1)%nat eqn:Hcmp; simpl.
  - apply Nat.leb_le in Hcmp. split; [apply rearranged_refl |].
    split; [lia |]. split.
    { intros i Hi. destruct (decide (i <= pi)%nat);
        [apply Hlow; lia | apply Z.lt_le_incl, Hb1; lia]. }
    split; [exact Hk1 |]. split; [| reflexivity].
    intros i Hi. destruct (decide (pj <= i)%nat);
      [apply Hhigh; lia | apply Z.lt_le_incl, Hb2; lia].
  - apply Nat.leb_gt in Hcmp.
    assert (L1 : (p1 < length t)%nat) by lia.
    assert (L2 : (p2 < length t)%nat) by lia.
    destruct (IH p1 p2 (swap p1 p2 t)) as (Hre & Hres & Hlo & Hmid & Hhi & Hfix).
    + lia.
    + exact Hcmp.
    + lia.
    + rewrite swap_length. exact Hlen.
    + lia.
    + intros i Hi. rewrite key_at_swap by assumption.
      destruct (decide (i = p2)); [lia |].
      destruct (decide (i = p1)); [exact Hk2 |].
      destruct (decide (i <= pi)%nat); [apply Hlow; lia | apply Z.lt_le_incl, Hb1; lia].
    + intros i Hi. rewrite key_at_swap by assumption.
      destruct (decide (i = p2)); [exact Hk1 |].
      destruct (decide (i = p1)); [lia |].
      destruct (decide (pj <= i)%nat); [apply Hhigh; lia | apply Z.lt_le_incl, Hb2; lia].
    + split.
      { eapply rearranged_trans; [| exact Hre].
        apply rearranged_swap; unfold within; lia. }
      split; [lia |]. split; [exact Hlo |]. split; [exact Hmid |].
      split; [exact Hhi |].
      intros i Hi. rewrite Hfix by lia. rewrite swap_lookup by assumption.
      rewrite !decide_False by lia. reflexivity.
Qed.

Lemma swap_if_less_spec (pl pr a b : nat) (t : list nat) :
  within pl pr a -> within pl pr b -> (a < length t)%nat -> (b < length t)%nat ->
  a ≠ b ->
  let t' := swap_if_less v a b t in
  rearranged pl pr t t'
  ∧ key_at v t' a = Z.max (key_at v t a) (key_at v t b)
  ∧ key_at v t' b = Z.min (key_at v t a) (key_at v t b)
  ∧ forall k, k ≠ a -> k ≠ b -> key_at v t' k = key_at v t k.
Proof.
  intros Ha Hb La Lb Hab. unfold swap_if_less.
  destruct (key_at v t a <? key_at v t b) eqn:Hk.
  - apply Z.ltb_lt in Hk. split; [apply rearranged_swap; assumption |].
    rewrite !key_at_swap by assumption.
    rewrite (decide_False (P := a = b)) by exact Hab.
    rewrite !decide_True by reflexivity.
    split; [lia |]. split; [lia |]. intros k Hka Hkb.
    rewrite key_at_swap by assumption. rewrite !decide_False by assumption. reflexivity.
  - apply Z.ltb_ge in Hk. split; [apply rearranged_refl |].
    split; [lia |]. split; [lia |]. reflexivity.
Qed.

Lemma partition_spec (pl pr : nat) (t : list nat) :
  (SMALL_QUICKSORT < pr - pl)%nat -> (pr < length t)%nat ->
  let res := partition v pl pr t in
  rearranged pl pr t res.2
  ∧ (pl < res.1 < pr)%nat
  ∧ (forall i, (pl <= i < res.1)%nat -> key_at v res.2 i <= key_at v res.2 res.1)
  ∧ (forall i, (res.1 < i <= pr)%nat -> key_at v res.2 res.1 <= key_at v res.2 i).
Proof.
  unfold SMALL_QUICKSORT. intros Hsize Hlen. unfold partition.
  set (pm := (pl + Nat.shiftr (pr - pl) 1)%nat).
  assert (Hpm : (pl + 8 <= pm ∧ pm + 8 <= pr)%nat).
  { subst pm. rewrite Nat.shiftr_div_pow2. change (2 ^ 1)%nat with 2%nat.
    pose proof (Nat.div_mod_eq (pr - pl) 2) as Hd.
    pose proof (Nat.mod_upper_bound (pr - pl) 2 ltac:(lia)) as Hm. lia. }
  clearbody pm.
  destruct (swap_if_less_spec pl pr pm pl t) as (R1 & A1 & B1 & O1);
    [unfold within; lia | unfold within; lia | lia | lia | lia |].
  set (t1 := swap_if_less v pm pl t) in *.
  assert (Len1 : length t1 = length t) by apply R1.
  destruct (swap_if_less_spec pl pr pr pm t1) as (R2 & A2 & B2 & O2);
    [unfold within; lia | unfold within; lia | lia | lia | lia |].
  set (t2 := swap_if_less v pr pm t1) in *.
  assert (Len2 : length t2 = length t1) by apply R2.
  destruct (swap_if_less_spec pl pr pm pl t2) as (R3 & A3 & B3 & O3);
    [unfold within; lia | unfold within; lia | lia | lia | lia |].
  set (t3 := swap_if_less v pm pl t2) in *.
  assert (Len3 : length t3 = length t2) by apply R3.
  pose proof (O2 pl ltac:(lia) ltac:(lia)) as Epl2.
  pose proof (O3 pr ltac:(lia) ltac:(lia)) as Epr3.
  set (vp := key_at v t3 pm).
  assert (Hl3 : key_at v t3 pl <= vp) by (subst vp; lia).
  assert (Hr3 : vp <= key_at v t3 pr) by (subst vp; lia).
  set (t4 := swap pm (pr - 1) t3).
  assert (Len4 : length t4 = length t3) by apply swap_length.
  assert (K4 : forall k, key_at v t4 k = if decide (k = (pr - 1)%nat) then vp
                                   else if decide (k = pm) then key_at v t3 (pr - 1)
                                        else key_at v t3 k).
  { intros k. subst t4. rewrite key_at_swap by lia. reflexivity. }
  pose proof (partition_loop_spec pl pr vp (length t4) pl (pr - 1) t4) as Hloop.
  destruct Hloop as (Rl & Hres & Hlo & Hmid & Hhi & Hfix); try lia.
  { intros i Hi. replace i with pl by lia. rewrite K4.
    rewrite !decide_False by lia. exact Hl3. }
  { intros i Hi. rewrite K4. destruct (decide (i = (pr - 1)%nat)); [lia |].
    rewrite decide_False by lia. replace i with pr by lia. exact Hr3. }
  destruct (partition_loop (length t4) v vp pl (pr - 1) t4) as [p t5] eqn:Hl.
  simpl in *.
  assert (Len5 : length t5 = length t4) by apply Rl.
  assert (Kpiv : key_at v t5 (pr - 1) = vp).
  { unfold key_at. rewrite Hfix by lia. fold (key_at v t4 (pr - 1)). rewrite K4.
    rewrite decide_True by reflexivity. reflexivity. }
  split.
  { eapply rearranged_trans; [exact R1 |].
    eapply rearranged_trans; [exact R2 |].
    eapply rearranged_trans; [exact R3 |].
    eapply rearranged_trans;
      [apply (rearranged_swap pl pr pm (pr - 1) t3); unfold within; lia |].
    eapply rearranged_trans; [exact Rl |].
    apply (rearranged_swap pl pr p (pr - 1) t5); unfold within; lia. }
  split; [lia |].
  assert (Kp : key_at v (swap p (pr - 1) t5) p = vp).
  { rewrite key_at_swap by lia. destruct (decide (p = (pr - 1)%nat)) as [-> |].
    - exact Kpiv.
    - rewrite decide_True by reflexivity. exact Kpiv. }
  rewrite Kp. split.
  - intros i Hi. rewrite key_at_swap by lia. rewrite !decide_False by lia.
    apply Hlo. lia.
  - intros i Hi. rewrite key_at_swap by lia.
    destruct (decide (i = (pr - 1)%nat)); [exact Hmid |].
    rewrite decide_False by lia. apply Hhi. lia.
Qed.
End partition_correct.

Section insertion_correct.
Variable v : list Z.

Lemma key_at_insert (t : list nat) (j k x : nat) :
  (j < length t)%nat ->
  key_at v (<[j := x]> t) k = if decide (k = j) then v !!! x else key_at v t k.
Proof.
  intros Hj. unfold key_at. destruct (decide (k = j)) as [-> |].
  - rewrite list_lookup_total_insert_eq by exact Hj. reflexivity.
  - rewrite list_lookup_total_insert_ne by congruence. reflexivity.
Qed.

Lemma insert_back_spec (pl pi vi : nat) (t0 : list nat) (fuel : nat) :
  forall (pj : nat) (t : list nat),
    (pl <= pj <= pi)%nat -> (pi < length t)%nat -> (pj - pl <= fuel)%nat ->
    rearranged pl pi t0 (<[pj := vi]> t) ->
    (forall a b, (pl <= a)%nat -> (a < b)%nat -> (b <= pi)%nat -> a ≠ pj -> b ≠ pj ->
                 key_at v t a <= key_at v t b) ->
    (forall b, (pj < b <= pi)%nat -> v !!! vi < key_at v t b) ->
    let t' := insert_back fuel v pl (v !!! vi) vi pj t in
    rearranged pl pi t0 t' ∧ sorted_on v pl pi t'.
Proof.
  induction fuel as [| fuel IH]; intros pj t Hpj Hlen Hfuel Hre Hsorted Hgt; simpl.
  - assert (pj = pl) as -> by lia. split; [exact Hre |].
    intros a b Ha Hab Hb. rewrite !key_at_insert by lia.
    destruct (decide (a = pl)) as [-> |]; destruct (decide (b = pl)) as [-> |];
      try lia.
    + apply Z.lt_le_incl, Hgt. lia.
    + apply Hsorted; lia.
  - destruct ((pl <? pj)%nat && (v !!! vi <? key_at v t (pj - 1))) eqn:Hc.
    + apply andb_true_iff in Hc as [Hc1 Hc2].
      apply Nat.ltb_lt in Hc1. apply Z.ltb_lt in Hc2.
      apply IH.
      * lia.
      * rewrite length_insert. exact Hlen.
      * lia.
      * assert (Heq : <[(pj - 1)%nat := vi]> (<[pj := t !!! (pj - 1)%nat]> t)
                      = swap pj (pj - 1) (<[pj := vi]> t)).
        { unfold swap.
          rewrite list_lookup_total_insert_eq by lia.
          rewrite list_lookup_total_insert_ne by lia.
          rewrite list_insert_insert_eq. reflexivity. }
        rewrite Heq. eapply rearranged_trans; [exact Hre |].
        apply rearranged_swap; unfold within; rewrite ?length_insert; lia.
      * intros a b Ha Hab Hb Hna Hnb. rewrite !key_at_insert by lia.
        destruct (decide (a = pj)) as [-> |]; destruct (decide (b = pj)) as [-> |];
          try lia.
        -- fold (key_at v t (pj - 1)). apply Hsorted; lia.
        -- fold (key_at v t (pj - 1)). apply Hsorted; lia.
        -- apply Hsorted; lia.
      * intros b Hb. rewrite key_at_insert by lia.
        destruct (decide (b = pj)) as [-> |]; [exact Hc2 | apply Hgt; lia].
    + split; [exact Hre |].
      assert (Hstop : pj = pl ∨ key_at v t (pj - 1) <= v !!! vi).
      { apply andb_false_iff in Hc as [Hc | Hc].
        - apply Nat.ltb_ge in Hc. left. lia.
        - apply Z.ltb_ge in Hc. right. exact Hc. }
      intros a b Ha Hab Hb. rewrite !key_at_insert by lia.
      destruct (decide (a = pj)) as [-> |]; destruct (decide (b = pj)) as [-> |];
        try lia.
      * apply Z.lt_le_incl, Hgt. lia.
      * destruct Hstop as [-> | Hstop]; [lia |].
        destruct (decide (a = (pj - 1)%nat)) as [-> |]; [exact Hstop |].
        etransitivity; [| exact Hstop]. apply Hsorted; lia.
      * apply Hsorted; lia.
Qed.

Lemma insertion_sort_from_spec (pl pr : nat) (t0 : list nat) (todo : nat) :
  forall (pi : nat) (t : list nat),
    (pl < pi)%nat -> (pi + todo = pr + 1)%nat -> (pr < length t)%nat ->
    rearranged pl pr t0 t -> sorted_on v pl (pi - 1) t ->
    let t' := insertion_sort_from todo v pl pi t in
    rearranged pl pr t0 t' ∧ sorted_on v pl pr t'.
Proof.
  induction todo as [| todo IH]; intros pi t Hpi Htodo Hlen Hre Hsorted; simpl.
  - split; [exact Hre |]. replace pr with (pi - 1)%nat by lia. exact Hsorted.
  - destruct (insert_back_spec pl pi (t !!! pi) t pi pi t) as [Hre' Hs'].
    + lia.
    + lia.
    + lia.
    + rewrite list_insert_id; [apply rearranged_refl |].
      apply list_lookup_lookup_total_lt. lia.
    + intros a b Ha Hab Hb Hna Hnb. apply Hsorted; lia.
    + intros b Hb. lia.
    + apply IH.
      * lia.
      * lia.
      * destruct Hre' as [-> _]. exact Hlen.
      * eapply rearranged_trans; [exact Hre |].
        eapply rearranged_weaken; [| | exact Hre']; lia.
      * replace (S pi - 1)%nat with pi by lia. exact Hs'.
Qed.

Lemma insertion_sort_spec (pl pr : nat) (t : list nat) :
  (pl <= pr)%nat -> (pr < length t)%nat ->
  let t' := insertion_sort v pl pr t in
  rearranged pl pr t t' ∧ sorted_on v pl pr t'.
Proof.
  intros Hpl Hlen. unfold insertion_sort.
  apply insertion_sort_from_spec.
  - lia.
  - lia.
  - exact Hlen.
  - apply rearranged_refl.
  - intros a b Ha Hab Hb. lia.
Qed.
End insertion_correct.

Section sift_correct.
Variable v : list Z.
Variable base : nat.

Lemma hkey_heap_set (t : list nat) (i k x : nat) :
  (1 <= i)%nat -> (1 <= k)%nat -> (base + i <= length t)%nat ->
  hkey v base (heap_set base i x t) k = if decide (k = i) then v !!! x else hkey v base t k.
Proof.
  intros Hi Hk Hlen. unfold hkey, heap_get, heap_set.
  destruct (decide (k = i)) as [-> |].
  - rewrite list_lookup_total_insert_eq by lia. reflexivity.
  - rewrite list_lookup_total_insert_ne by lia. reflexivity.
Qed.

Lemma heap_set_length (t : list nat) (i x : nat) :
  length (heap_set base i x t) = length t.
Proof. unfold heap_set. apply length_insert. Qed.

Lemma sift_spec (n l tmp : nat) (t0 : list nat) (fuel : nat) :
  forall (i : nat) (t : list nat),
    (1 <= l <= i)%nat -> (i <= n)%nat -> (base + n <= length t)%nat ->
    (n + 1 - 2 * i <= fuel)%nat ->
    rearranged base (base + n - 1) t0 (heap_set base i tmp t) ->
    (forall p c, (l <= p)%nat -> child p c -> (c <= n)%nat -> p ≠ i -> c ≠ i ->
                 hkey v base t c <= hkey v base t p) ->
    (forall p, (l <= p)%nat -> child p i ->
               v !!! tmp <= hkey v base t p
               ∧ forall c, child i c -> (c <= n)%nat -> hkey v base t c <= hkey v base t p) ->
    let t' := sift fuel v base n tmp i (i + i) t in
    rearranged base (base + n - 1) t0 t' ∧ heap_from v base l n t'.
Proof.
  induction fuel as [| fuel IH]; intros i t Hl Hi Hlen Hfuel Hre Hheap Hup.
  - simpl. split; [exact Hre |]. intros p c Hp Hc Hcn. unfold child in Hc.
    rewrite !hkey_heap_set by lia.
    destruct (decide (c = i)) as [-> |].
    + rewrite decide_False by lia. apply Hup; [lia | exact Hc].
    + destruct (decide (p = i)) as [-> |]; [lia | apply Hheap; assumption].
  - cbn [sift]. destruct (i + i <=? n)%nat eqn:Hj.
    + apply Nat.leb_le in Hj.
      set (j' := if (i + i <? n)%nat
                    && (v !!! heap_get base t (i + i) <? v !!! heap_get base t (i + i + 1))
                 then (i + i + 1)%nat else (i + i)%nat).
      assert (Hj' : child i j' ∧ (j' <= n)%nat
                    ∧ (forall c, child i c -> (c <= n)%nat -> hkey v base t c <= hkey v base t j')).
      { subst j'. unfold child. destruct ((i + i <? n)%nat && _) eqn:Hc.
        - apply andb_true_iff in Hc as [Hc1 Hc2].
          apply Nat.ltb_lt in Hc1. apply Z.ltb_lt in Hc2.
          split; [lia |]. split; [lia |]. intros c [-> | ->] Hc; unfold hkey; lia.
        - split; [lia |]. split; [lia |]. intros c [-> | ->] Hcn; [lia |].
          apply andb_false_iff in Hc as [Hc | Hc].
          + apply Nat.ltb_ge in Hc. lia.
          + apply Z.ltb_ge in Hc. unfold hkey. lia. }
      clearbody j'. destruct Hj' as (Hjv & Hjn & Hbig).
      fold (hkey v base t j'). destruct (v !!! tmp <? hkey v base t j') eqn:Hlt.
      * apply Z.ltb_lt in Hlt. unfold child in Hjv. apply IH.
        -- lia.
        -- exact Hjn.
        -- rewrite heap_set_length. exact Hlen.
        -- lia.
        -- assert (Heq : heap_set base j' tmp (heap_set base i (heap_get base t j') t)
                         = swap (base + i - 1) (base + j' - 1) (heap_set base i tmp t)).
           { unfold swap, heap_set, heap_get.
             rewrite list_lookup_total_insert_eq by lia.
             rewrite list_lookup_total_insert_ne by lia.
             rewrite list_insert_insert_eq. reflexivity. }
           rewrite Heq. eapply rearranged_trans; [exact Hre |].
           apply rearranged_swap; unfold within; rewrite ?heap_set_length; lia.
        -- intros p c Hp Hc Hcn Hne1 Hne2. pose proof Hc as Hc'. unfold child in Hc'.
           rewrite !hkey_heap_set by lia.
           destruct (decide (c = i)) as [-> |].
           ++ rewrite decide_False by lia.
              apply (proj2 (Hup p Hp Hc)); [unfold child; lia | lia].
           ++ destruct (decide (p = i)) as [-> |].
              ** apply Hbig; assumption.
              ** apply Hheap; assumption.
        -- intros p Hp Hc. assert (p = i) as -> by (unfold child in Hc; lia).
           rewrite !hkey_heap_set by lia.
           rewrite decide_True by reflexivity. split; [unfold hkey in *; lia |].
           intros c Hc' Hcn. pose proof Hc' as Hc''. unfold child in Hc''.
           rewrite hkey_heap_set by lia. rewrite decide_False by lia. fold (hkey v base t j').
           apply Hheap; [lia | exact Hc' | exact Hcn | lia | lia].
      * apply Z.ltb_ge in Hlt. split; [exact Hre |]. intros p c Hp Hc Hcn.
        pose proof Hc as Hc'. unfold child in Hc'.
        rewrite !hkey_heap_set by lia.
        destruct (decide (c = i)) as [-> |].
        -- rewrite decide_False by lia. apply Hup; assumption.
        -- destruct (decide (p = i)) as [-> |].
           ++ etransitivity; [apply Hbig; assumption | exact Hlt].
           ++ apply Hheap; assumption.
    + apply Nat.leb_gt in Hj. split; [exact Hre |]. intros p c Hp Hc Hcn.
      pose proof Hc as Hc'. unfold child in Hc'.
      rewrite !hkey_heap_set by lia.
      destruct (decide (c = i)) as [-> |].
      * rewrite decide_False by lia. apply Hup; assumption.
      * destruct (decide (p = i)) as [-> |]; [lia | apply Hheap; assumption].
Qed.
End sift_correct.

Section heapsort_correct.
Variable v : list Z.
Variable base : nat.

Lemma heap_set_id (t : list nat) (k : nat) :
  (1 <= k)%nat -> (base + k <= length t)%nat ->
  heap_set base k (heap_get base t k) t = t.
Proof.
  intros Hk Hlen. unfold heap_set, heap_get. apply list_insert_id.
  apply list_lookup_lookup_total_lt. lia.
Qed.

Lemma heapify_spec (n : nat) (t0 : list nat) (l : nat) :
  forall t : list nat,
    (l <= n)%nat -> (base + n <= length t)%nat ->
    rearranged base (base + n - 1) t0 t ->
    heap_from v base (S l) n t ->
    let t' := heapify l v base n t in
    rearranged base (base + n - 1) t0 t' ∧ heap_from v base 1 n t'.
Proof.
  induction l as [| l IH]; intros t Hl Hlen Hre Hheap; cbn [heapify];
    [split; assumption |].
  destruct (sift_spec v base n (S l) (heap_get base t (S l)) t n (S l) t)
    as [Hre' Hheap'].
  - lia.
  - exact Hl.
  - exact Hlen.
  - lia.
  - rewrite heap_set_id by lia. apply rearranged_refl.
  - intros p c Hp Hc Hcn Hne1 Hne2. apply Hheap; [lia | exact Hc | exact Hcn].
  - intros p Hp Hc. unfold child in Hc. lia.
  - apply IH.
    + lia.
    + destruct Hre' as [-> _]. exact Hlen.
    + eapply rearranged_trans; eassumption.
    + exact Hheap'.
Qed.

Lemma heap_root_max (m : nat) (t : list nat) :
  heap_from v base 1 m t -> forall k, (1 <= k <= m)%nat -> hkey v base t k <= hkey v base t 1.
Proof.
  intros Hheap k. induction k as [k IH] using lt_wf_ind. intros Hk.
  destruct (decide (k = 1%nat)) as [-> |]; [reflexivity |].
  pose proof (Nat.div_mod_eq k 2) as Hd.
  pose proof (Nat.mod_upper_bound k 2 ltac:(lia)) as Hm.
  etransitivity; [apply (Hheap (k / 2)%nat k) | apply IH]; unfold child; lia.
Qed.

Lemma hkey_outside (pl pr : nat) (t t' : list nat) (k : nat) :
  rearranged pl pr t t' -> ¬ within pl pr (base + k - 1) -> hkey v base t' k = hkey v base t k.
Proof.
  intros (_ & Hout & _) Hk. unfold hkey, heap_get. rewrite Hout by exact Hk.
  reflexivity.
Qed.

Lemma hkey_inside (m : nat) (t t' : list nat) (k : nat) :
  rearranged base (base + m - 1) t t' -> (1 <= k <= m)%nat ->
  exists k0, (1 <= k0 <= m)%nat ∧ hkey v base t' k = hkey v base t k0.
Proof.
  intros (_ & _ & Hin & _) Hk.
  destruct (Hin (base + k - 1)%nat) as (i0 & Hi0 & E); [unfold within; lia |].
  unfold within in Hi0. exists (i0 + 1 - base)%nat. split; [lia |].
  unfold hkey, heap_get. rewrite E. do 2 f_equal. lia.
Qed.

Lemma heap_extract_spec (n : nat) (t0 : list nat) (m : nat) :
  forall t : list nat,
    (m <= n)%nat -> (base + n <= length t)%nat ->
    rearranged base (base + n - 1) t0 t ->
    heap_from v base 1 m t ->
    (forall a b, (m < a)%nat -> (a < b)%nat -> (b <= n)%nat -> hkey v base t a <= hkey v base t b) ->
    (forall k b, (1 <= k <= m)%nat -> (m < b <= n)%nat -> hkey v base t k <= hkey v base t b) ->
    let t' := heap_extract m v base t in
    rearranged base (base + n - 1) t0 t'
    ∧ forall a b, (1 <= a)%nat -> (a < b)%nat -> (b <= n)%nat -> hkey v base t' a <= hkey v base t' b.
Proof.
  induction m as [| m IH]; intros t Hm Hlen Hre Hheap Hsuffix Hcross.
  - simpl. split; [exact Hre |]. intros a b Ha Hab Hb. apply Hsuffix; lia.
  - cbn [heap_extract]. destruct (1 <? S m)%nat eqn:Hone.
    + apply Nat.ltb_lt in Hone.
      set (tmp := heap_get base t (S m)).
      set (t1 := heap_set base (S m) (heap_get base t 1) t).
      set (F := heap_set base 1 tmp t1).
      assert (HF : F = swap (base + S m - 1) (base + 1 - 1) t).
      { subst F t1 tmp. unfold swap, heap_set, heap_get. reflexivity. }
      assert (LF : length F = length t) by (rewrite HF; apply swap_length).
      assert (KF : forall k, (1 <= k)%nat ->
                  hkey v base F k = if decide (k = 1%nat) then hkey v base t (S m)
                           else if decide (k = S m) then hkey v base t 1 else hkey v base t k).
      { intros k Hk. unfold hkey, heap_get. rewrite HF, swap_lookup by lia.
        repeat case_decide; try lia; try reflexivity; do 2 f_equal; lia. }
      assert (L1 : length t1 = length t) by apply heap_set_length.
      destruct (sift_spec v base m 1 tmp F (S m) 1 t1) as [Hre2 Hheap2].
      * lia.
      * lia.
      * lia.
      * lia.
      * apply rearranged_refl.
      * intros p c Hp Hc Hcn Hne1 Hne2. pose proof Hc as Hc'. unfold child in Hc'.
        subst t1. rewrite !hkey_heap_set by lia. rewrite !decide_False by lia.
        apply Hheap; [lia | exact Hc | lia].
      * intros p Hp Hc. unfold child in Hc. lia.
      * change (1 + 1)%nat with 2%nat in *.
        set (t2 := sift (S m) v base m tmp 1 2 t1) in *.
        assert (L2 : length t2 = length t) by (destruct Hre2 as [-> _]; exact LF).
        assert (Hbeyond : forall k, (m < k)%nat -> hkey v base t2 k = hkey v base F k).
        { intros k Hk. apply (hkey_outside base (base + m - 1)); [exact Hre2 |].
          unfold within. lia. }
        apply IH.
        -- lia.
        -- lia.
        -- eapply rearranged_trans; [exact Hre |].
           eapply rearranged_trans;
             [| eapply rearranged_weaken; [| | exact Hre2]; lia].
           rewrite HF. apply rearranged_swap; unfold within; lia.
        -- exact Hheap2.
        -- intros a b Ha Hab Hb. rewrite !Hbeyond, !KF by lia.
           rewrite !(decide_False (P := _ = 1%nat)) by lia.
           rewrite (decide_False (P := b = S m)) by lia.
           destruct (decide (a = S m)) as [-> |].
           ++ apply Hcross; lia.
           ++ apply Hsuffix; lia.
        -- intros k b Hk Hb.
           destruct (hkey_inside m F t2 k Hre2 Hk) as (k0 & Hk0 & E).
           rewrite E, Hbeyond, !KF by lia.
           rewrite (decide_False (P := b = 1%nat)) by lia.
           rewrite (decide_False (P := k0 = S m)) by lia.
           assert (Hsrc : exists k1, (1 <= k1 <= S m)%nat
                     ∧ (if decide (k0 = 1%nat) then hkey v base t (S m) else hkey v base t k0) = hkey v base t k1).
           { destruct (decide (k0 = 1%nat)); [exists (S m) | exists k0];
               (split; [lia | reflexivity]). }
           destruct Hsrc as (k1 & Hk1 & ->).
           destruct (decide (b = S m)) as [-> |].
           ++ apply heap_root_max with (m := S m); [exact Hheap | lia].
           ++ apply Hcross; lia.
    + apply Nat.ltb_ge in Hone. assert (m = 0%nat) as -> by lia.
      split; [exact Hre |]. intros a b Ha Hab Hb.
      destruct (decide (a = 1%nat)) as [-> |]; [apply Hcross | apply Hsuffix]; lia.
Qed.

Lemma aheapsort_spec (n : nat) (t : list nat) :
  (1 <= n)%nat -> (base + n <= length t)%nat ->
  let t' := aheapsort v base n t in
  rearranged base (base + n - 1) t t' ∧ sorted_on v base (base + n - 1) t'.
Proof.
  intros Hn Hlen. unfold aheapsort.
  assert (Hhalf : (Nat.shiftr n 1 <= n ∧ n < 2 * Nat.shiftr n 1 + 2)%nat).
  { rewrite Nat.shiftr_div_pow2. change (2 ^ 1)%nat with 2%nat.
    pose proof (Nat.div_mod_eq n 2) as Hd.
    pose proof (Nat.mod_upper_bound n 2 ltac:(lia)) as Hm. lia. }
  destruct (heapify_spec n t (Nat.shiftr n 1) t) as [Hre1 Hheap1].
  - lia.
  - exact Hlen.
  - apply rearranged_refl.
  - intros p c Hp Hc Hcn. unfold child in Hc. lia.
  - set (t1 := heapify (Nat.shiftr n 1) v base n t) in *.
    destruct (heap_extract_spec n t n t1) as [Hre2 Hsorted].
    + lia.
    + destruct Hre1 as [-> _]. exact Hlen.
    + exact Hre1.
    + exact Hheap1.
    + intros a b Ha Hab Hb. lia.
    + intros k b Hk Hb. lia.
    + split; [exact Hre2 |]. intros a b Ha Hab Hb.
      specialize (Hsorted (a + 1 - base)%nat (b + 1 - base)%nat
                    ltac:(lia) ltac:(lia) ltac:(lia)).
      unfold hkey, heap_get in Hsorted.
      replace (base + (a + 1 - base) - 1)%nat with a in Hsorted by lia.
      replace (base + (b + 1 - base) - 1)%nat with b in Hsorted by lia.
      exact Hsorted.
Qed.
End heapsort_correct.

Section pending_ranges.
Variable v : list Z.

Lemma sorted_but_transfer (R : range) (rest : list range) (t t' : list nat) :
  (R.2 < length t)%nat ->
  Forall (disjoint_ranges R) rest ->
  sorted_but v (R :: rest) t ->
  rearranged R.1 R.2 t t' ->
  forall i j, (i < j)%nat -> (j < length t')%nat ->
    ¬ (within R.1 R.2 i ∧ within R.1 R.2 j) ->
    (exists r, r ∈ rest ∧ within r.1 r.2 i ∧ within r.1 r.2 j) ∨ key_at v t' i <= key_at v t' j.
Proof.
  intros HR Hdis Hsorted (Hlen & Hout & Hin & _) i j Hij Hj Hnot.
  rewrite Hlen in Hj. rewrite Forall_forall in Hdis.
  assert (Hsrc : forall k, exists k0,
            key_at v t' k = key_at v t k0
            ∧ ((within R.1 R.2 k ∧ within R.1 R.2 k0) ∨ (¬ within R.1 R.2 k ∧ k0 = k))).
  { intros k. destruct (decide (within R.1 R.2 k)) as [Hk | Hk].
    - destruct (Hin k Hk) as (k0 & Hk0 & E). exists k0. unfold key_at. rewrite E.
      split; [reflexivity | left; split; assumption].
    - exists k. unfold key_at. rewrite Hout by exact Hk.
      split; [reflexivity | right; split; [assumption | reflexivity]]. }
  destruct (Hsrc i) as (i0 & -> & Hi0), (Hsrc j) as (j0 & -> & Hj0).
  unfold within in *.
  assert (Hlt : (i0 < j0)%nat ∧ (j0 < length t)%nat) by lia.
  destruct (Hsorted i0 j0 (proj1 Hlt) (proj2 Hlt)) as [(r & Hr & Hri & Hrj) | Hle];
    [| right; exact Hle].
  unfold within in Hri, Hrj.
  apply elem_of_cons in Hr as [-> | Hr]; [lia |].
  specialize (Hdis r Hr). unfold disjoint_ranges in Hdis. unfold within.
  left. exists r. split; [exact Hr |]. lia.
Qed.

Lemma sorted_but_finish (R : range) (rest : list range) (t t' : list nat) :
  (R.2 < length t)%nat ->
  Forall (disjoint_ranges R) rest ->
  sorted_but v (R :: rest) t ->
  rearranged R.1 R.2 t t' ->
  sorted_on v R.1 R.2 t' ->
  sorted_but v rest t'.
Proof.
  intros HR Hdis Hsorted Hre Hs i j Hij Hj.
  destruct (decide (within R.1 R.2 i ∧ within R.1 R.2 j)) as [[Hi Hj'] | Hnot].
  - right. unfold within in *. apply Hs; lia.
  - eapply sorted_but_transfer; eassumption.
Qed.

Lemma sorted_but_split (pl pr p : nat) (rest : list range) (t t' : list nat) :
  (pr < length t)%nat ->
  Forall (disjoint_ranges (pl, pr)) rest ->
  sorted_but v ((pl, pr) :: rest) t ->
  rearranged pl pr t t' ->
  (pl < p < pr)%nat ->
  (forall i, (pl <= i < p)%nat -> key_at v t' i <= key_at v t' p) ->
  (forall i, (p < i <= pr)%nat -> key_at v t' p <= key_at v t' i) ->
  forall a b : range,
    (a = (pl, (p - 1)%nat) ∧ b = (S p, pr)) ∨ (a = (S p, pr) ∧ b = (pl, (p - 1)%nat)) ->
    sorted_but v (a :: b :: rest) t'.
Proof.
  intros HR Hdis Hsorted Hre Hp Hlo Hhi a b Hab i j Hij Hj.
  destruct (decide (within pl pr i ∧ within pl pr j)) as [[Hi Hj'] | Hnot].
  - unfold within in Hi, Hj'.
    destruct (decide (j < p)%nat) as [Hjp | Hjp].
    { left. exists (pl, (p - 1)%nat). simpl. unfold within.
      split; [| lia]. destruct Hab as [[-> ->] | [-> ->]];
        [left | right; left]. }
    destruct (decide (p < i)%nat) as [Hip | Hip].
    { left. exists (S p, pr). simpl. unfold within.
      split; [| lia]. destruct Hab as [[-> ->] | [-> ->]];
        [right; left | left]. }
    right.
    destruct (decide (i = p)) as [-> |]; [apply Hhi; lia |].
    destruct (decide (j = p)) as [-> |]; [apply Hlo; lia |].
    etransitivity; [apply Hlo | apply Hhi]; lia.
  - destruct (sorted_but_transfer (pl, pr) rest t t' HR Hdis Hsorted Hre i j Hij Hj Hnot)
      as [(r & Hr & Hw) | Hle]; [| right; exact Hle].
    left. exists r. split; [| exact Hw]. right. right. exact Hr.
Qed.
End pending_ranges.

Section driver_correct.
Variable v : list Z.
Variable n : nat.

Lemma run_inv_length rs t : run_inv v n rs t -> length t = n.
Proof. intros [Hp _]. rewrite Hp. apply length_seq. Qed.

Lemma run_inv_done t : run_inv v n [] t -> run_post v n t.
Proof.
  intros Hinv. pose proof (run_inv_length _ _ Hinv) as Hlen.
  destruct Hinv as (Hp & _ & _ & Hs). split; [exact Hp |].
  intros i j Hij Hj. destruct (Hs i j Hij ltac:(lia)) as [(r & Hr & _) | Hle];
    [inversion Hr | exact Hle].
Qed.

Lemma run_inv_finish pl pr rest t t' :
  run_inv v n ((pl, pr) :: rest) t ->
  rearranged pl pr t t' -> sorted_on v pl pr t' ->
  run_inv v n rest t'.
Proof.
  intros Hinv Hre Hs. pose proof (run_inv_length _ _ Hinv) as Hlen.
  destruct Hinv as (Hp & Hv & Hd & Hsb).
  apply Forall_cons in Hv as [Hv1 Hv]. destruct Hd as [Hd1 Hd].
  unfold valid_range in Hv1; simpl in Hv1.
  split; [| split; [exact Hv | split; [exact Hd |]]].
  - destruct Hre as (_ & _ & _ & Hperm). rewrite Hperm. exact Hp.
  - apply (sorted_but_finish v (pl, pr) rest t t'); simpl; [lia | assumption..].
Qed.

Lemma run_inv_split pl pr p rest t t' (a b : range) :
  run_inv v n ((pl, pr) :: rest) t ->
  rearranged pl pr t t' ->
  (pl < p < pr)%nat ->
  (forall i, (pl <= i < p)%nat -> key_at v t' i <= key_at v t' p) ->
  (forall i, (p < i <= pr)%nat -> key_at v t' p <= key_at v t' i) ->
  (a = (pl, (p - 1)%nat) ∧ b = (S p, pr)) ∨ (a = (S p, pr) ∧ b = (pl, (p - 1)%nat)) ->
  run_inv v n (a :: b :: rest) t'
  ∧ (pending (a :: b :: rest) + 1 = pending ((pl, pr) :: rest))%nat.
Proof.
  intros Hinv Hre Hp Hlo Hhi Hab. pose proof (run_inv_length _ _ Hinv) as Hlen.
  destruct Hinv as (Hperm & Hv & Hd & Hsb).
  apply Forall_cons in Hv as [Hv1 Hv]. destruct Hd as [Hd1 Hd].
  unfold valid_range in Hv1; simpl in Hv1.
  assert (Hsub : forall c : range, (pl <= c.1)%nat -> (c.2 <= pr)%nat ->
                                   Forall (disjoint_ranges c) rest).
  { intros c Hc1 Hc2. eapply Forall_impl; [exact Hd1 |].
    intros r Hr. unfold disjoint_ranges in *. simpl in Hr. lia. }
  split.
  - split; [| split; [| split]].
    + destruct Hre as (_ & _ & _ & Hperm'). rewrite Hperm'. exact Hperm.
    + destruct Hab as [[-> ->] | [-> ->]];
        repeat (apply Forall_cons; split); try exact Hv;
        unfold valid_range; simpl; lia.
    + destruct Hab as [[-> ->] | [-> ->]]; simpl;
        (split; [apply Forall_cons; split;
                   [unfold disjoint_ranges; simpl; lia | apply Hsub; simpl; lia]
                | split; [apply Hsub; simpl; lia | exact Hd]]).
    + apply (sorted_but_split v pl pr p rest t t'); try assumption. lia.
  - destruct Hab as [[-> ->] | [-> ->]]; simpl; lia.
Qed.

Lemma aquicksort_run_spec (fuel : nat) :
  forall (a : where_) (pl pr : nat) (cdepth : Z) (stack : list (nat * nat * Z))
         (t : list nat),
    let rs := (pl, pr) :: stack_ranges stack in
    run_inv v n rs t ->
    (2 * pending rs + length rs + at_head a <= fuel)%nat ->
    run_post v n (aquicksort_run fuel v a pl pr cdepth stack t).
Proof.
  induction fuel as [| fuel IH]; intros a pl pr cdepth stack t rs Hinv Hfuel.
  { subst rs. simpl in Hfuel. lia. }
  pose proof (run_inv_length _ _ Hinv) as Hlen.
  assert (Hvalid : (pl <= pr < n)%nat).
  { destruct Hinv as (_ & Hv & _). apply Forall_cons in Hv as [Hv _]. exact Hv. }
  assert (Hpop : forall t1,
            rearranged pl pr t t1 -> sorted_on v pl pr t1 ->
            run_post v n
              match stack with
              | [] => t1
              | (pl0, pr0, cdepth0) :: stack0 =>
                  aquicksort_run fuel v AtHead pl0 pr0 cdepth0 stack0 t1
              end).
  { intros t1 Hre Hs.
    pose proof (run_inv_finish pl pr (stack_ranges stack) t t1 Hinv Hre Hs) as Hinv1.
    destruct stack as [| [[pl0 pr0] cd0] stack0]; [apply run_inv_done; exact Hinv1 |].
    apply IH; [exact Hinv1 |]. subst rs. simpl in *. lia. }
  cbn [aquicksort_run]. destruct a.
  - destruct (cdepth <? 0).
    + destruct (aheapsort_spec v pl (pr - pl + 1) t) as [Hre Hs]; [lia | lia |].
      replace (pl + (pr - pl + 1) - 1)%nat with pr in * by lia.
      apply Hpop; assumption.
    + apply IH; [exact Hinv |]. subst rs. simpl in *. lia.
  - destruct (SMALL_QUICKSORT <? pr - pl)%nat eqn:Hsize.
    + apply Nat.ltb_lt in Hsize.
      destruct (partition_spec v pl pr t Hsize ltac:(lia)) as (Hre & Hp & Hlo & Hhi).
      destruct (partition v pl pr t) as [p t'] eqn:Hpart. simpl in Hre, Hp, Hlo, Hhi.
      destruct (p - pl <? pr - p)%nat.
      * destruct (run_inv_split pl pr p (stack_ranges stack) t t'
                    (pl, (p - 1)%nat) (S p, pr) Hinv Hre Hp Hlo Hhi) as [Hinv' Hpend];
          [left; split; reflexivity |].
        apply (IH Partitioning pl (p - 1)%nat (cdepth - 1)
                 ((S p, pr, cdepth - 1) :: stack) t'); [exact Hinv' |].
        subst rs. simpl in *. lia.
      * destruct (run_inv_split pl pr p (stack_ranges stack) t t'
                    (S p, pr) (pl, (p - 1)%nat) Hinv Hre Hp Hlo Hhi) as [Hinv' Hpend];
          [right; split; reflexivity |].
        apply (IH Partitioning (S p) pr (cdepth - 1)
                 ((pl, (p - 1)%nat, cdepth - 1) :: stack) t'); [exact Hinv' |].
        subst rs. simpl in *. lia.
    + destruct (insertion_sort_spec v pl pr t) as [Hre Hs]; [lia | lia |].
      apply Hpop; assumption.
Qed.
End driver_correct.

Lemma take_at_total (a : list Z) (p : list nat) :
  Forall (fun i => (i < length a)%nat) p ->
  take_at a p = (fun i => a !!! i) <$> p.
Proof.
  unfold take_at. induction 1 as [| i p Hi _ IH]; [reflexivity |].
  csimpl. rewrite IH, (list_lookup_lookup_total_lt a i Hi). reflexivity.
Qed.

Lemma StronglySorted_lookup_total (l : list Z) :
  (forall i j, (i < j)%nat -> (j < length l)%nat -> l !!! i <= l !!! j) ->
  StronglySorted Z.le l.
Proof.
  induction l as [| x l IH]; intros H; constructor.
  - apply IH. intros i j Hij Hj. apply (H (S i) (S j)); simpl; lia.
  - apply Forall_forall. intros y Hy. apply list_elem_of_lookup in Hy as [k Hk].
    pose proof (lookup_lt_Some _ _ _ Hk) as Hlt.
    specialize (H 0%nat (S k) ltac:(lia) ltac:(simpl; lia)). simpl in H.
    rewrite (list_lookup_total_correct _ _ _ Hk) in H. exact H.
Qed.

Lemma key_at_fmap (v : list Z) (t : list nat) (i : nat) :
  (i < length t)%nat -> ((fun x => v !!! x) <$> t) !!! i = key_at v t i.
Proof.
  intros Hi. apply list_lookup_total_correct.
  rewrite list_lookup_fmap, (list_lookup_lookup_total_lt t i Hi). reflexivity.
Qed.

(** numpy's portable quicksort argsort meets the argsort contract on every
    array. *)
Lemma aquicksort_ok (v : list Z) : argsort_ok v (aquicksort v).
Proof.
  destruct v as [| x v']; [split; [reflexivity | constructor] |].
  set (v := x :: v'). set (n := length v).
  assert (Hn : (1 <= n)%nat) by (subst n v; simpl; lia).
  assert (Hrun : forall m, m = n ->
            run_post v m (aquicksort_run (4 * m + 4) v AtHead 0 (m - 1)
                            (Z.of_nat (npy_get_msb m) * 2) [] (seq 0 m))).
  { intros m Hm. apply (aquicksort_run_spec v m).
    - split; [reflexivity |]. change (stack_ranges []) with (@nil range).
      split; [| split].
      + apply Forall_cons. split; [unfold valid_range; cbn [fst snd]; lia | constructor].
      + split; constructor.
      + intros i j Hij Hj. rewrite length_seq in Hj. left. exists (0%nat, (m - 1)%nat).
        split; [left |]. unfold within; cbn [fst snd]. lia.
    - change (stack_ranges []) with (@nil range). cbn [pending foldr length at_head fst snd].
      lia. }
  assert (Hpost : run_post v n (aquicksort v)) by exact (Hrun n eq_refl).
  clear Hrun.
  destruct Hpost as [Hperm Hsorted]. split; [exact Hperm |].
  assert (Hrange : Forall (fun i => (i < length v)%nat) (aquicksort v)).
  { apply Forall_forall. intros i Hi. rewrite Hperm in Hi. apply elem_of_seq in Hi.
    fold n. lia. }
  rewrite take_at_total by exact Hrange. apply StronglySorted_lookup_total.
  intros i j Hij Hj. rewrite length_fmap, Hperm, length_seq in Hj.
  assert (Hlen : length (aquicksort v) = n) by (rewrite Hperm; apply length_seq).
  rewrite !key_at_fmap by lia. apply Hsorted; assumption.
Qed.

(** ** What scoring returns *)

Lemma assign_scores_rows_wf (df : DataFrame) :
  wf df ->
  rows (assign_scores df)
  = (fun r : Row => <["score" := VInt (spec_score r)]> r) <$> rows df.
Proof.
  intros Hwf. rewrite assign_scores_rows. apply list_fmap_ext. intros i r Hi.
  rewrite gated_score_wf; [reflexivity | exact Hwf |].
  apply list_elem_of_lookup. exists i. exact Hi.
Qed.

(** C1: on a well-formed frame, [score_prospects] returns the records it was
    given, rearranged, each with a score cell holding the sum of the four
    independent contributions of its own fields (+10 phone present, +5 website
    present, +5 address present, +20 source containing "DMV"); this holds with
    numpy's quicksort and with any argsort that sorts the score column of the
    call.  The frame scored in place holds the same scored records in their
    earlier positions.  No returned record scores more than 40, and a record
    with a phone, no website, an address and source "MOCK_DMV" comes back with
    the score 35. *)
Theorem score_is_sum_of_contributions
    (argsort : list Z -> list nat) (self : ProspectFinder) (df : option DataFrame) :
  let input := default (prospects self) df in
  let scored := fun r : Row => <["score" := VInt (spec_score r)]> r in
  let keys := reverse (score_of <$> rows (assign_scores input)) in
  wf input ->
  rows (score_prospects aquicksort self df).1 ≡ₚ scored <$> rows input
  ∧ (argsort_ok keys (argsort keys) ->
     rows (score_prospects argsort self df).1 ≡ₚ scored <$> rows input)
  ∧ (forall (i : nat) (r : Row),
        rows input !! i = Some r ->
        rows (assign_scores input) !! i = Some (scored r))
  ∧ Forall (fun r' : Row =>
              score_of r' = spec_score r' ∧ score_of r' <= 40
              ∧ exists r, r ∈ rows input ∧ r' = scored r)
           (rows (score_prospects argsort self df).1)
  ∧ (forall r : Row,
        r ∈ rows input ->
        is_Some (r !! "phone") -> r !! "website" = None ->
        is_Some (r !! "address") -> r !! "source" = Some (VStr "MOCK_DMV") ->
        spec_score r = 35
        ∧ <["score" := VInt 35]> r ∈ rows (score_prospects aquicksort self df).1)
  ∧ (forall (i : nat) (r : Row),
        rows input !! i = Some r ->
        is_Some (r !! "phone") -> r !! "website" = None ->
        is_Some (r !! "address") -> r !! "source" = Some (VStr "MOCK_DMV") ->
        score_of <$> (rows (assign_scores input) !! i) = Some 35).
Proof.
  intros input scored keys Hwf.
  assert (Hrows : rows (assign_scores input) = scored <$> rows input)
    by exact (assign_scores_rows_wf input Hwf).
  assert (Hrow : forall (i : nat) (r : Row),
             rows input !! i = Some r ->
             rows (assign_scores input) !! i = Some (scored r)).
  { intros i r Hi. rewrite Hrows, list_lookup_fmap, Hi. reflexivity. }
  assert (H35 : forall r : Row,
             is_Some (r !! "phone") -> r !! "website" = None ->
             is_Some (r !! "address") -> r !! "source" = Some (VStr "MOCK_DMV") ->
             spec_score r = 35).
  { intros r Hphone Hweb Haddr Hsrc. unfold spec_score, source_has_DMV.
    rewrite (bool_decide_eq_true_2 _ Hphone), (bool_decide_eq_true_2 _ Haddr).
    rewrite Hweb, Hsrc.
    rewrite bool_decide_eq_false_2 by (intros [? ?]; discriminate).
    reflexivity. }
  assert (Hperm : forall sorter : list Z -> list nat,
             argsort_ok keys (sorter keys) ->
             rows (score_prospects sorter self df).1 ≡ₚ scored <$> rows input).
  { intros sorter Hok. rewrite score_prospects_rows. fold input. fold keys.
    rewrite <- Hrows.
    exact (sorted_Permutation (rows (assign_scores input)) (sorter keys) Hok). }
  split; [exact (Hperm aquicksort (aquicksort_ok keys)) |].
  split; [exact (Hperm argsort) |].
  split; [exact Hrow |]. split; [| split].
  - rewrite score_prospects_rows. fold input. apply Forall_forall. intros r' Hr'.
    apply elem_of_take_at in Hr'. apply list_elem_of_lookup in Hr' as [i Hi].
    destruct (rows input !! i) as [r |] eqn:Hr.
    + rewrite (Hrow i r Hr) in Hi. injection Hi as <-. unfold scored.
      rewrite score_of_insert, spec_score_insert_score.
      split; [reflexivity |]. split; [apply spec_score_bounds |].
      exists r. split; [| reflexivity]. apply list_elem_of_lookup. exists i. exact Hr.
    + rewrite Hrows, list_lookup_fmap, Hr in Hi. discriminate.
  - intros r Hr Hphone Hweb Haddr Hsrc.
    pose proof (H35 r Hphone Hweb Haddr Hsrc) as Hs. split; [exact Hs |].
    rewrite (Hperm aquicksort (aquicksort_ok keys)).
    apply list_elem_of_fmap. exists r. split; [| exact Hr].
    unfold scored. rewrite Hs. reflexivity.
  - intros i r Hi Hphone Hweb Haddr Hsrc. rewrite (Hrow i r Hi). simpl.
    unfold scored. rewrite score_of_insert. f_equal.
    exact (H35 r Hphone Hweb Haddr Hsrc).
Qed.

Lemma score_is_sum_of_contributions_witness :
  let lead : Row :=
    {[ "name" := VStr "Sample Business 1"; "phone" := VStr "904-555-0199";
       "address" := VStr "1 Main St"; "source" := VStr "MOCK_DMV" ]} in
  wf registered_lead
  ∧ <["score" := VInt 35]> lead
    ∈ rows (score_prospects aquicksort (init "./output") (Some registered_lead)).1.
Proof.
  intros lead.
  assert (Hwf : wf registered_lead) by compute_done.
  assert (Hin : lead ∈ rows registered_lead) by left.
  split; [exact Hwf |].
  refine (proj2 (proj1 (proj2 (proj2 (proj2 (proj2
            (score_is_sum_of_contributions aquicksort (init "./output")
               (Some registered_lead) Hwf))))) lead Hin _ _ _ _)).
  - compute_done.
  - reflexivity.
  - compute_done.
  - reflexivity.
Defined.

(** C3, as stated, fails: with the portable quicksort, eighteen listings of
    equal score come back in descending order but not in the order they had;
    the third record returned is the seventeenth of the input. *)
Lemma equal_scores_are_reordered :
  let scored := assign_scores (prospects eighteen_store) in
  let keys := reverse (score_of <$> rows scored) in
  let out := rows (score_prospects aquicksort eighteen_store None).1 in
  argsort_ok keys (aquicksort keys)
  ∧ score_of <$> out = replicate 18 20
  ∧ (fun r : Row => r !! "name") <$> take 3 out
    = [Some (VStr "Dealer 0"); Some (VStr "Dealer 1"); Some (VStr "Dealer 16")]
  ∧ (fun r : Row => r !! "name") <$> take 3 (rows scored)
    = [Some (VStr "Dealer 0"); Some (VStr "Dealer 1"); Some (VStr "Dealer 2")]
  ∧ ¬ (descending out ∧ ties_keep_order (rows scored) out).
Proof.
  split; [compute_done |]. split; [vm_compute; reflexivity |].
  split; [vm_compute; reflexivity |]. split; [vm_compute; reflexivity |].
  intros [_ Hties]. specialize (Hties 20).
  apply (f_equal (fmap (fun r : Row => r !! "name"))) in Hties.
  vm_compute in Hties. discriminate.
Qed.

(** C3, amended: the records [score_prospects] returns are the scored records
    rearranged with the highest score first; this holds with numpy's portable
    quicksort and with any argsort that sorts the score column of the call.
    Records of equal score keep their earlier order when that argsort is
    stable on the call, which the default quicksort kind does not promise. *)
Theorem sort_is_descending
    (argsort : list Z -> list nat) (self : ProspectFinder) (df : option DataFrame) :
  let scored := assign_scores (default (prospects self) df) in
  let keys := reverse (score_of <$> rows scored) in
  let ranked := rows (score_prospects aquicksort self df).1 in
  let out := rows (score_prospects argsort self df).1 in
  (ranked ≡ₚ rows scored ∧ descending ranked)
  ∧ (argsort_ok keys (argsort keys) ->
     out ≡ₚ rows scored
     ∧ descending out
     ∧ (argsort_stable keys (argsort keys) -> ties_keep_order (rows scored) out)).
Proof.
  intros scored keys ranked out. subst ranked out.
  rewrite !score_prospects_rows. fold scored. fold keys. split.
  - pose proof (aquicksort_ok keys) as Hok.
    split; [exact (sorted_Permutation (rows scored) (aquicksort keys) Hok) |].
    exact (sorted_descending (rows scored) (aquicksort keys) Hok).
  - intros Hok.
    split; [exact (sorted_Permutation (rows scored) (argsort keys) Hok) |].
    split; [exact (sorted_descending (rows scored) (argsort keys) Hok) |].
    exact (sorted_ties_keep_order (rows scored) (argsort keys) Hok).
Qed.

Lemma sort_is_descending_witness :
  let scored := assign_scores (prospects mixed_store) in
  let keys := reverse (score_of <$> rows scored) in
  argsort_ok keys (aquicksort keys)
  ∧ descending (rows (score_prospects aquicksort mixed_store None).1).
Proof.
  split; [compute_done |].
  refine (proj1 (proj2 (proj2 (sort_is_descending aquicksort mixed_store None) _))).
  compute_done.
Defined.

Example mixed_store_ranking :
  score_of <$> rows (score_prospects aquicksort mixed_store None).1 = [35; 20; 20; 20].
Proof. vm_compute. reflexivity. Qed.

(** ** Classification *)

Lemma loc_set_labelled (f : Row -> string) (t : Row -> bool) (l : list Row)
    (df : DataFrame) (v : string) :
  rows df = (fun r : Row => <["prospect_type" := VStr (f r)]> r) <$> l ->
  rows (loc_set (t <$> l) "prospect_type" (VStr v) df)
  = (fun r : Row => <["prospect_type" := VStr (if t r then v else f r)]> r) <$> l.
Proof.
  intros Hrows. unfold loc_set; simpl. rewrite Hrows, zip_with_fmap_both.
  apply list_fmap_ext. intros i r _. simpl.
  destruct (t r); [apply insert_insert_eq | reflexivity].
Qed.

Lemma name_lower_eq (df : DataFrame) (l : list Row) :
  rows df = (fun r : Row => <["prospect_type" := VStr "Unknown"]> r) <$> l ->
  fillna (VStr "") (str_lower (getitem df "name"))
  = (fun r : Row => Some (VStr (folded_name r))) <$> l.
Proof.
  intros Hrows. unfold fillna, str_lower, getitem. rewrite Hrows.
  rewrite <- !list_fmap_compose. apply list_fmap_ext. intros i r _. simpl.
  rewrite lookup_insert_ne by discriminate. unfold folded_name.
  destruct (r !! "name") as [[s | z | z] |]; reflexivity.
Qed.

Lemma categorize_prospects_rows (self : ProspectFinder) (df : option DataFrame) :
  let input := default (prospects self) df in
  rows (categorize_prospects self df)
  = (fun r : Row => <["prospect_type" := VStr (gated_label input r)]> r) <$> rows input.
Proof.
  intros input. unfold categorize_prospects. fold input.
  set (d0 := setitem "prospect_type" (VStr "Unknown") input).
  assert (H0 : rows d0 = (fun r : Row => <["prospect_type" := VStr "Unknown"]> r)
                         <$> rows input) by reflexivity.
  assert (Hc : has_column d0 "name" = has_column input "name")
    by (apply has_column_setitem; discriminate).
  clearbody d0. rewrite Hc. unfold gated_label.
  destruct (has_column input "name"); [| exact H0].
  rewrite (name_lower_eq d0 (rows input) H0).
  unfold str_contains. rewrite <- !list_fmap_compose.
  erewrite loc_set_labelled; [| erewrite loc_set_labelled;
                                 [| erewrite loc_set_labelled; [| exact H0]];
                                 reflexivity]; simpl.
  apply list_fmap_ext. intros i r _. simpl. unfold spec_label.
  fold (folded_name r). reflexivity.
Qed.

Lemma categorize_prospects_columns (self : ProspectFinder) (df : option DataFrame) :
  columns (categorize_prospects self df)
  = columns (setitem "prospect_type" (VStr "Unknown") (default (prospects self) df)).
Proof.
  unfold categorize_prospects.
  destruct (has_column _ "name"); reflexivity.
Qed.

Lemma gated_label_wf (df : DataFrame) (r : Row) :
  wf df -> r ∈ rows df -> gated_label df r = spec_label (r !! "name").
Proof.
  intros Hwf Hr. unfold gated_label.
  destruct (has_column df "name") eqn:Hc; [reflexivity |].
  destruct (r !! "name") as [v |] eqn:Hn; [| reflexivity].
  rewrite (wf_lookup df r "name" Hwf Hr) in Hc; [discriminate |].
  rewrite Hn. eauto.
Qed.

(** C2: on a well-formed frame, [categorize_prospects] gives each record the
    label obtained by starting from "Unknown" and letting the Auto Dealer,
    Vehicle Buyer and Body Shop keyword rules, in that order, overwrite it
    whenever one of their keywords occurs in the lower-cased name; so names
    that differ only in letter case get the same label, "ABC Auto Body Shop"
    ends as "Body Shop", and a missing or empty name stays "Unknown". *)
Theorem categorize_last_match_wins (self : ProspectFinder) (df : option DataFrame) :
  let input := default (prospects self) df in
  let label_at := fun i : nat =>
    rows (categorize_prospects self df) !! i ≫= (fun r : Row => r !! "prospect_type") in
  wf input ->
  (forall (i : nat) (r : Row),
      rows input !! i = Some r ->
      rows (categorize_prospects self df) !! i
      = Some (<["prospect_type" := VStr (spec_label (r !! "name"))]> r))
  ∧ (forall (i j : nat) (r1 r2 : Row) (s1 s2 : string),
        rows input !! i = Some r1 -> rows input !! j = Some r2 ->
        r1 !! "name" = Some (VStr s1) -> r2 !! "name" = Some (VStr s2) ->
        lower s1 = lower s2 -> label_at i = label_at j)
  ∧ (forall (i : nat) (r : Row),
        rows input !! i = Some r ->
        r !! "name" = Some (VStr "ABC Auto Body Shop") ->
        label_at i = Some (VStr "Body Shop"))
  ∧ (forall (i : nat) (r : Row),
        rows input !! i = Some r ->
        r !! "name" = None ∨ r !! "name" = Some (VStr "") ->
        label_at i = Some (VStr "Unknown")).
Proof.
  intros input label_at Hwf.
  assert (Hrow : forall (i : nat) (r : Row),
             rows input !! i = Some r ->
             rows (categorize_prospects self df) !! i
             = Some (<["prospect_type" := VStr (spec_label (r !! "name"))]> r)).
  { intros i r Hi. rewrite categorize_prospects_rows, list_lookup_fmap. fold input.
    rewrite Hi. simpl. rewrite gated_label_wf; [reflexivity | exact Hwf |].
    apply list_elem_of_lookup. exists i. exact Hi. }
  assert (Hlabel : forall (i : nat) (r : Row),
             rows input !! i = Some r ->
             label_at i = Some (VStr (spec_label (r !! "name")))).
  { intros i r Hi. unfold label_at. rewrite (Hrow i r Hi). simpl.
    apply lookup_insert_eq. }
  split; [exact Hrow |]. split; [| split].
  - intros i j r1 r2 s1 s2 Hi Hj H1 H2 Hlow.
    rewrite (Hlabel i r1 Hi), (Hlabel j r2 Hj), H1, H2.
    unfold spec_label. rewrite Hlow. reflexivity.
  - intros i r Hi Hname. rewrite (Hlabel i r Hi), Hname. reflexivity.
  - intros i r Hi [Hname | Hname]; rewrite (Hlabel i r Hi), Hname; reflexivity.
Qed.

Lemma categorize_last_match_wins_witness :
  wf (prospects small_store)
  ∧ rows (categorize_prospects small_store None) !! 0%nat
      ≫= (fun r : Row => r !! "prospect_type")
    = Some (VStr "Body Shop").
Proof.
  split; [compute_done |].
  refine (proj1 (proj2 (proj2 (categorize_last_match_wins small_store None _)))
            0%nat (listing "ABC Auto Body Shop" "904-555-0101") _ _).
  - compute_done.
  - reflexivity.
  - compute_done.
Defined.

Lemma DataFrame_eq (a b : DataFrame) :
  columns a = columns b -> rows a = rows b -> a = b.
Proof. destruct a, b; simpl; intros -> ->; reflexivity. Qed.

(** C9: classifying a frame that has already been classified changes nothing:
    the second run returns the very frame the first run returned, so every
    record keeps the prospect_type the first run gave it; it makes no
    difference whether the classified frame is passed in or stored in the
    finder first. *)
Theorem categorize_idempotent (self self' : ProspectFinder) (df : option DataFrame) :
  let once := categorize_prospects self df in
  let twice := categorize_prospects self' (Some once) in
  twice = once
  ∧ getitem twice "prospect_type" = getitem once "prospect_type"
  ∧ categorize_prospects (set_prospects self once) None = twice.
Proof.
  intros once twice.
  assert (Heq : twice = once);
    [| split; [exact Heq | split; [rewrite Heq; reflexivity | reflexivity]]].
  assert (Hpt : has_column once "prospect_type" = true).
  { unfold has_column, once. rewrite categorize_prospects_columns.
    apply bool_decide_eq_true_2. unfold setitem; simpl.
    destruct (has_column _ "prospect_type") eqn:Hc.
    - apply bool_decide_eq_true_1 in Hc. exact Hc.
    - apply elem_of_app. right. apply list_elem_of_singleton. reflexivity. }
  assert (Hname : has_column once "name"
                  = has_column (default (prospects self) df) "name").
  { unfold once. erewrite has_column_columns;
      [| apply categorize_prospects_columns].
    apply has_column_setitem. discriminate. }
  apply DataFrame_eq.
  - unfold twice. rewrite categorize_prospects_columns. simpl.
    unfold setitem; simpl. rewrite Hpt. reflexivity.
  - unfold twice. rewrite categorize_prospects_rows. simpl.
    unfold once at 2 3. rewrite categorize_prospects_rows.
    rewrite <- list_fmap_compose. apply list_fmap_ext. intros i r _. simpl.
    unfold gated_label at 1. rewrite Hname. unfold gated_label.
    rewrite lookup_insert_ne by discriminate. apply insert_insert_eq.
Qed.

(** The invariant holds of a fresh finder and is kept by merging, scoring and
    classifying. *)
Lemma wf_pipeline (argsort : list Z -> list nat) (e : entry_point)
    (self : ProspectFinder) (batch : DataFrame) (df : option DataFrame) :
  wf (prospects (init (output_directory self)))
  ∧ (wf (prospects self) -> wf batch -> wf (prospects (merge e self batch).1))
  ∧ (wf (default (prospects self) df) -> wf (score_prospects argsort self df).1)
  ∧ (wf (default (prospects self) df) -> wf (categorize_prospects self df)).
Proof.
  split; [constructor |]. split; [| split].
  - intros Hs Hb. destruct (df_empty batch) eqn:He.
    + rewrite merge_empty by exact He. exact Hs.
    + rewrite merge_nonempty by exact He. apply wf_concat; assumption.
  - intros Hwf. apply wf_assign_scores in Hwf. unfold wf in *.
    rewrite score_prospects_rows. simpl. rewrite Forall_forall in *.
    intros r Hr. apply elem_of_take_at in Hr. exact (Hwf r Hr).
  - intros Hwf.
    apply (wf_insert_rows _ _ "prospect_type"
             (fun r => VStr (gated_label (default (prospects self) df) r)) Hwf).
    + compute_done.
    + apply categorize_prospects_rows.
    + intros c. rewrite categorize_prospects_columns.
      apply elem_of_columns_setitem.
Qed.

(** ** Filtering *)

(** C6 fails on the code for a store without a name or phone column: with
    only the mock registration batch merged, asking for deduplication raises
    [KeyError] instead of returning records. *)
Theorem filter_dedup_needs_name_and_phone :
  df_empty (prospects dmv_only_store) = false
  ∧ filter_prospects dmv_only_store (Some {[ "min_records" := VInt 1 ]})
    = (Raises (KeyError ["name"; "phone"]), []).
Proof. split; vm_compute; reflexivity. Qed.

Lemma keep_first_sublist (subset : list string) (seen : list (list (option value)))
    (l : list Row) :
  keep_first subset seen l `sublist_of` l.
Proof.
  revert seen. induction l as [| r l IH]; intros seen; simpl; [constructor |].
  destruct (bool_decide _); [apply sublist_cons | apply sublist_skip]; apply IH.
Qed.

Lemma keep_first_keys (subset : list string) (seen : list (list (option value)))
    (l : list Row) :
  NoDup (subset_key subset <$> keep_first subset seen l)
  ∧ forall k, k ∈ subset_key subset <$> keep_first subset seen l
              <-> k ∈ subset_key subset <$> l ∧ k ∉ seen.
Proof.
  revert seen. induction l as [| r l IH]; intros seen; simpl.
  - split; [constructor |]. intros k. rewrite elem_of_nil. tauto.
  - destruct (bool_decide (subset_key subset r ∈ seen)) eqn:Hseen.
    + apply bool_decide_eq_true_1 in Hseen. destruct (IH seen) as [Hnd Hk].
      split; [exact Hnd |]. intros k. rewrite Hk. csimpl. rewrite elem_of_cons.
      split; [tauto |]. intros [[-> | Hin] Hout]; [contradiction | tauto].
    + apply bool_decide_eq_false_1 in Hseen.
      destruct (IH (subset_key subset r :: seen)) as [Hnd Hk]. csimpl. split.
      * constructor; [| exact Hnd]. rewrite Hk, elem_of_cons. tauto.
      * intros k. rewrite !elem_of_cons, Hk, elem_of_cons.
        destruct (decide (k = subset_key subset r)) as [-> | Hne]; tauto.
Qed.

(** The first record carrying a key is the one that survives. *)
Lemma keep_first_first (subset : list string) (seen : list (list (option value)))
    (l1 l2 : list Row) (r : Row) :
  subset_key subset r ∉ seen ->
  subset_key subset r ∉ subset_key subset <$> l1 ->
  r ∈ keep_first subset seen (l1 ++ r :: l2).
Proof.
  revert seen. induction l1 as [| x l1 IH]; intros seen Hseen Hl1; simpl.
  - rewrite bool_decide_eq_false_2 by exact Hseen. apply elem_of_cons. left.
    reflexivity.
  - csimpl in Hl1. rewrite not_elem_of_cons in Hl1. destruct Hl1 as [Hx Hl1].
    destruct (bool_decide (subset_key subset x ∈ seen)).
    + apply IH; assumption.
    + apply elem_of_cons. right. apply IH; [| exact Hl1].
      rewrite not_elem_of_cons. split; [exact Hx | exact Hseen].
Qed.

(** What [filter_prospects] does where C6 holds: without criteria the frame
    comes back as it is; with deduplication on a store that has no records or
    has both key columns, the survivors are a subsequence of the store with
    one record, the first, for each (name, phone) pair. *)
Lemma filter_prospects_on_keyed_store (self : ProspectFinder)
    (criteria : gmap string value) :
  filter_prospects self None = (Returns (prospects self), [])
  ∧ (is_Some (criteria !! "min_records") ->
     rows (prospects self) = []
     ∨ (has_column (prospects self) "name" = true
        ∧ has_column (prospects self) "phone" = true) ->
     exists out,
       (filter_prospects self (Some criteria)).1 = Returns out
       ∧ columns out = columns (prospects self)
       ∧ rows out `sublist_of` rows (prospects self)
       ∧ (len out <= len (prospects self))%nat
       ∧ NoDup (subset_key ["name"; "phone"] <$> rows out)
       ∧ (forall r, r ∈ rows (prospects self) ->
                    subset_key ["name"; "phone"] r
                    ∈ subset_key ["name"; "phone"] <$> rows out)
       ∧ (forall l1 r l2, rows (prospects self) = (l1 ++ r :: l2)%list ->
                          subset_key ["name"; "phone"] r
                          ∉ subset_key ["name"; "phone"] <$> l1 ->
                          r ∈ rows out)).
Proof.
  split; [reflexivity |]. intros Hmin Hcols.
  unfold filter_prospects. rewrite bool_decide_eq_true_2 by exact Hmin.
  unfold drop_duplicates.
  destruct (rows (prospects self)) as [| r0 l0] eqn:Hrows.
  - unfold df_empty. rewrite Hrows.
    rewrite (bool_decide_eq_true_2 ([] = [])) by reflexivity.
    rewrite orb_true_r. exists (prospects self). simpl. rewrite Hrows.
    split; [reflexivity |]. split; [reflexivity |]. split; [constructor |].
    split; [unfold len; rewrite Hrows; simpl; lia |]. split; [constructor |].
    split; [intros r Hr; inversion Hr |].
    intros l1 r l2 Heq. destruct l1; discriminate.
  - destruct Hcols as [Hcols | [Hname Hphone]]; [discriminate |].
    unfold has_column in Hname, Hphone.
    apply bool_decide_eq_true_1 in Hname, Hphone.
    assert (Hne : df_empty (prospects self) = false).
    { unfold df_empty. rewrite Hrows. apply orb_false_iff.
      split; apply bool_decide_eq_false_2; [| discriminate].
      intros Hnil. rewrite Hnil in Hname. inversion Hname. }
    rewrite Hne, <- Hrows. rewrite !filter_cons, filter_nil.
    rewrite !decide_False by (intros Hn; apply Hn; assumption).
    eexists. simpl. split; [reflexivity |]. split; [reflexivity |].
    pose proof (keep_first_keys ["name"; "phone"] [] (rows (prospects self)))
      as [Hnd Hk].
    split; [apply keep_first_sublist |].
    split; [apply sublist_length, keep_first_sublist |].
    split; [exact Hnd |]. split.
    + intros r Hr. apply Hk. split; [| apply not_elem_of_nil].
      apply list_elem_of_fmap. exists r. split; [reflexivity | exact Hr].
    + intros l1 r l2 Heq Hfirst. rewrite Heq.
      apply keep_first_first; [apply not_elem_of_nil | exact Hfirst].
Qed.

(** ** Report *)

Lemma count_value_cons (v : value) (c : option value) (s : Series) :
  count_value v (c :: s)
  = ((if decide (c = Some v) then 1 else 0) + count_value v s)%nat.
Proof.
  unfold count_value. rewrite filter_cons.
  destruct (decide (c = Some v)); reflexivity.
Qed.

(** [value_counts] binds exactly the values that occur, each to the number of
    cells holding it. *)
Lemma value_counts_lookup (s : Series) (v : value) :
  value_counts s !! v
  = if decide (count_value v s = 0%nat) then None else Some (count_value v s).
Proof.
  induction s as [| c s IH]; [reflexivity |].
  rewrite count_value_cons. simpl. destruct c as [w |].
  - destruct (decide (w = v)) as [-> | Hne].
    + rewrite lookup_insert_eq, IH. rewrite (decide_True _ _ eq_refl).
      rewrite (decide_False (P := (1 + count_value v s = 0)%nat)) by lia.
      destruct (decide (count_value v s = 0%nat)) as [Hz | _];
        [rewrite Hz |]; reflexivity.
    + rewrite lookup_insert_ne by exact Hne.
      rewrite (decide_False (P := Some w = Some v))
        by (intros [= Heq]; exact (Hne Heq)).
      exact IH.
  - rewrite (decide_False (P := None = Some v)) by discriminate. exact IH.
Qed.

Lemma count_value_Permutation (v : value) (s s' : Series) :
  s ≡ₚ s' -> count_value v s = count_value v s'.
Proof. intros Hp. unfold count_value. rewrite Hp. reflexivity. Qed.

Lemma value_counts_Permutation (s s' : Series) :
  s ≡ₚ s' -> value_counts s = value_counts s'.
Proof.
  intros Hp. apply map_eq. intros v.
  rewrite !value_counts_lookup, (count_value_Permutation v s s' Hp). reflexivity.
Qed.

Lemma sum_true_notna (df : DataFrame) (col : string) :
  sum_true (notna (getitem df col)) = count_present col df.
Proof.
  unfold sum_true, notna, getitem, count_present.
  induction (rows df) as [| r l IH]; [reflexivity |].
  csimpl. rewrite !filter_cons.
  destruct (decide (is_Some (r !! col))) as [Hs | Hn].
  - rewrite bool_decide_eq_true_2 by exact Hs. simpl. f_equal. exact IH.
  - rewrite bool_decide_eq_false_2 by exact Hn. simpl. exact IH.
Qed.

(** C7, as stated, fails on an empty store: a fresh finder has no phone
    column, yet its report carries no [with_phone] entry rather than 0; and a
    store classified while empty has a prospect_type column, yet its report
    carries no [by_type] entry. *)
Lemma empty_store_report_has_no_breakdown :
  let fresh := init "./output" in
  let classified := set_prospects fresh (categorize_prospects fresh None) in
  has_column (prospects fresh) "phone" = false
  ∧ generate_report "2024-01-15T09:30:00" fresh !! "with_phone" = None
  ∧ generate_report "2024-01-15T09:30:00" fresh !! "with_phone" ≠ Some (RInt 0)
  ∧ has_column (prospects classified) "prospect_type" = true
  ∧ generate_report "2024-01-15T09:30:00" classified !! "by_type" = None.
Proof. repeat split; try (vm_compute; reflexivity). vm_compute. discriminate. Qed.

(** C7, amended: [generate_report] always gives [total_prospects] as the
    record count and the timestamp of the call.  For a store that is not
    empty it also gives [by_source] and [by_type], each present exactly when
    its column is and then mapping every value that occurs to the number of
    records carrying it, and [with_phone] and [with_address] as the number of
    records with that field, or 0 when the column is absent.  For an empty
    store the report holds the count and the timestamp only.  A store built
    from three records, two from "YellowPages" and one from "MOCK_DMV", two
    of them with a phone, reports 3, {"YellowPages": 2, "MOCK_DMV": 1} and
    2. *)
Theorem report_contents (now : string) (self : ProspectFinder) :
  let store := prospects self in
  let report := generate_report now self in
  let breakdown := fun col : string =>
    if has_column store col then Some (RDict (value_counts (getitem store col)))
    else None in
  let completeness := fun col : string =>
    Some (RInt (if has_column store col then count_present col store else O)) in
  report !! "total_prospects" = Some (RInt (len store))
  ∧ report !! "timestamp" = Some (RStr now)
  ∧ (df_empty store = false ->
     report !! "by_source" = breakdown "source"
     ∧ report !! "by_type" = breakdown "prospect_type"
     ∧ report !! "with_phone" = completeness "phone"
     ∧ report !! "with_address" = completeness "address")
  ∧ (forall (col : string) (v : value),
        value_counts (getitem store col) !! v
        = if decide (count_value v (getitem store col) = O) then None
          else Some (count_value v (getitem store col)))
  ∧ (df_empty store = true ->
     report = {[ "total_prospects" := RInt (len store); "timestamp" := RStr now ]})
  ∧ (len store = 3%nat ->
     has_column store "source" = true -> has_column store "phone" = true ->
     getitem store "source"
       ≡ₚ [Some (VStr "YellowPages"); Some (VStr "YellowPages"); Some (VStr "MOCK_DMV")] ->
     count_present "phone" store = 2%nat ->
     report !! "total_prospects" = Some (RInt 3)
     ∧ report !! "by_source"
       = Some (RDict {[ VStr "YellowPages" := 2%nat; VStr "MOCK_DMV" := 1%nat ]})
     ∧ report !! "with_phone" = Some (RInt 2)).
Proof.
  intros store report breakdown completeness.
  assert (Hfull : df_empty store = false ->
            report !! "by_source" = breakdown "source"
            ∧ report !! "by_type" = breakdown "prospect_type"
            ∧ report !! "with_phone" = completeness "phone"
            ∧ report !! "with_address" = completeness "address").
  { intros Hne. unfold report, generate_report, breakdown, completeness.
    fold store. rewrite Hne. simpl. rewrite !sum_true_notna.
    destruct (has_column store "source"), (has_column store "prospect_type");
      repeat split; simplify_map_eq; reflexivity. }
  assert (Htotal : report !! "total_prospects" = Some (RInt (len store))).
  { unfold report, generate_report. fold store.
    destruct (df_empty store); simpl;
      destruct (has_column store "source"), (has_column store "prospect_type");
      simplify_map_eq; reflexivity. }
  split; [exact Htotal |]. split.
  { unfold report, generate_report. fold store.
    destruct (df_empty store); simpl;
      destruct (has_column store "source"), (has_column store "prospect_type");
      simplify_map_eq; reflexivity. }
  split; [exact Hfull |]. split; [intros col v; apply value_counts_lookup |].
  split.
  { intros He. unfold report, generate_report. fold store. rewrite He. reflexivity. }
  intros Hlen Hsrc Hphone Hperm Hcount.
  assert (Hne : df_empty store = false).
  { unfold df_empty. apply orb_false_iff. split; apply bool_decide_eq_false_2.
    - intros Hnil. unfold has_column in Hsrc. rewrite Hnil in Hsrc. discriminate.
    - intros Hnil. unfold len in Hlen. rewrite Hnil in Hlen. discriminate. }
  destruct (Hfull Hne) as (Hby & _ & Hwith & _).
  rewrite Htotal, Hby, Hwith. unfold breakdown, completeness.
  rewrite Hsrc, Hphone, Hlen, Hcount, (value_counts_Permutation _ _ Hperm).
  repeat split; reflexivity.
Qed.

Lemma report_contents_witness :
  df_empty (prospects three_record_store) = false
  ∧ generate_report "2024-01-15T09:30:00" three_record_store !! "by_source"
    = Some (RDict {[ VStr "YellowPages" := 2%nat; VStr "MOCK_DMV" := 1%nat ]})
  ∧ generate_report "2024-01-15T09:30:00" three_record_store !! "with_phone"
    = Some (RInt 2).
Proof.
  split; [reflexivity |].
  refine (proj2 (proj2 (proj2 (proj2 (proj2 (proj2
            (report_contents "2024-01-15T09:30:00" three_record_store)))))
            _ _ _ _ _)).
  - reflexivity.
  - reflexivity.
  - reflexivity.
  - vm_compute. reflexivity.
  - reflexivity.
Defined.

(** * Further properties *)

(** ** Deduplication *)

Lemma keep_first_id (subset : list string) (seen : list (list (option value)))
    (l : list Row) :
  NoDup (subset_key subset <$> l) ->
  (forall r, r ∈ l -> subset_key subset r ∉ seen) ->
  keep_first subset seen l = l.
Proof.
  revert seen. induction l as [| r l IH]; intros seen Hnd Hseen; [reflexivity |].
  csimpl in Hnd. apply NoDup_cons in Hnd as [Hr Hnd]. simpl.
  rewrite bool_decide_eq_false_2 by (apply Hseen; left).
  f_equal. apply IH; [exact Hnd |].
  intros r' Hr'. rewrite not_elem_of_cons. split.
  - intros Heq. apply Hr. rewrite <- Heq. apply list_elem_of_fmap.
    exists r'. split; [reflexivity | exact Hr'].
  - apply Hseen. right. exact Hr'.
Qed.

(** X1: on a store that has both key columns, asking [filter_prospects] for
    deduplication returns the store's columns and a subsequence of its
    records in which every (name, phone) pair of the store occurs exactly
    once, carried by the first record that had it; so at most one survivor
    lacks both a name and a phone. *)
Theorem filter_dedup_keeps_first (self : ProspectFinder) (criteria : gmap string value) :
  is_Some (criteria !! "min_records") ->
  has_column (prospects self) "name" = true ->
  has_column (prospects self) "phone" = true ->
  exists out,
    (filter_prospects self (Some criteria)).1 = Returns out
    ∧ columns out = columns (prospects self)
    ∧ rows out `sublist_of` rows (prospects self)
    ∧ NoDup (subset_key ["name"; "phone"] <$> rows out)
    ∧ (forall r, r ∈ rows (prospects self) ->
                 subset_key ["name"; "phone"] r
                 ∈ subset_key ["name"; "phone"] <$> rows out)
    ∧ (forall l1 r l2, rows (prospects self) = (l1 ++ r :: l2)%list ->
                       subset_key ["name"; "phone"] r
                       ∉ subset_key ["name"; "phone"] <$> l1 ->
                       r ∈ rows out)
    ∧ (forall i j r1 r2, rows out !! i = Some r1 -> rows out !! j = Some r2 ->
                         r1 !! "name" = None -> r1 !! "phone" = None ->
                         r2 !! "name" = None -> r2 !! "phone" = None -> i = j).
Proof.
  intros Hmin Hname Hphone.
  destruct (proj2 (filter_prospects_on_keyed_store self criteria) Hmin
              (or_intror (conj Hname Hphone)))
    as (out & Hout & Hcols & Hsub & _ & Hnd & Hall & Hfirst).
  exists out. repeat (split; [assumption |]).
  intros i j r1 r2 Hi Hj Hn1 Hp1 Hn2 Hp2.
  apply (NoDup_lookup _ i j (subset_key ["name"; "phone"] r1) Hnd).
  - rewrite list_lookup_fmap, Hi. reflexivity.
  - rewrite list_lookup_fmap, Hj. unfold subset_key. simpl.
    rewrite Hn1, Hp1, Hn2, Hp2. reflexivity.
Qed.

Lemma filter_dedup_keeps_first_witness :
  is_Some (({[ "min_records" := VInt 1 ]} : gmap string value) !! "min_records")
  ∧ exists out,
      (filter_prospects small_store (Some {[ "min_records" := VInt 1 ]})).1 = Returns out
      ∧ length (rows out) = 3%nat.
Proof.
  split; [compute_done |].
  destruct (filter_dedup_keeps_first small_store {[ "min_records" := VInt 1 ]})
    as (out & Hout & _); [compute_done | reflexivity | reflexivity |].
  exists out. split; [exact Hout |].
  vm_compute in Hout. injection Hout as <-. reflexivity.
Defined.

(** X2: deduplication is idempotent: filtering a finder whose store is an
    already filtered frame returns that frame again. *)
Theorem filter_dedup_idempotent (self : ProspectFinder) (criteria : gmap string value)
    (out : DataFrame) :
  is_Some (criteria !! "min_records") ->
  (filter_prospects self (Some criteria)).1 = Returns out ->
  (filter_prospects (set_prospects self out) (Some criteria)).1 = Returns out.
Proof.
  intros Hmin Hout. unfold filter_prospects in *.
  rewrite bool_decide_eq_true_2 in * by exact Hmin. simpl.
  destruct (drop_duplicates ["name"; "phone"] (prospects self)) as [d | e] eqn:Hd;
    simpl in Hout; [injection Hout as -> | discriminate].
  assert (Hd' : drop_duplicates ["name"; "phone"] out = Returns out);
    [| rewrite Hd'; reflexivity].
  unfold drop_duplicates in *.
  destruct (df_empty (prospects self)) eqn:He.
  - injection Hd as <-. rewrite He. reflexivity.
  - destruct (filter (fun c => c ∉ columns (prospects self)) ["name"; "phone"])
      as [| c cs] eqn:Hmiss; [| discriminate].
    injection Hd as <-.
    match goal with |- (if ?b then _ else _) = _ => destruct b end; [reflexivity |].
    cbn [columns]. rewrite Hmiss. f_equal.
    apply DataFrame_eq; [reflexivity |]. simpl.
    apply keep_first_id.
    + apply keep_first_keys.
    + intros r _. apply not_elem_of_nil.
Qed.

Lemma filter_dedup_idempotent_witness :
  exists out,
    (filter_prospects small_store (Some {[ "min_records" := VInt 1 ]})).1 = Returns out
    ∧ (filter_prospects (set_prospects small_store out)
         (Some {[ "min_records" := VInt 1 ]})).1 = Returns out.
Proof.
  eexists. split; [vm_compute; reflexivity |].
  apply (filter_dedup_idempotent small_store {[ "min_records" := VInt 1 ]});
    [compute_done | vm_compute; reflexivity].
Defined.

(** ** Scoring again, scoring more, scoring and classifying *)

Lemma gated_score_ext (d d' : DataFrame) (r r' : Row) :
  (forall c, c ∈ ["phone"; "website"; "address"; "source"] ->
             has_column d' c = has_column d c ∧ r' !! c = r !! c) ->
  gated_score d' r' = gated_score d r.
Proof.
  intros H. unfold gated_score, source_has_DMV.
  destruct (H "phone") as [-> ->]; [repeat constructor |].
  destruct (H "website") as [-> ->]; [repeat constructor |].
  destruct (H "address") as [-> ->]; [repeat constructor |].
  destruct (H "source") as [-> ->]; [repeat constructor |].
  reflexivity.
Qed.

Lemma scored_column_ne (c : string) :
  c ∈ ["phone"; "website"; "address"; "source"] ->
  c ≠ "score" ∧ c ≠ "prospect_type".
Proof.
  intros Hc. repeat (apply elem_of_cons in Hc as [-> | Hc]);
    [split; discriminate.. | inversion Hc].
Qed.

Lemma has_column_assign_scores (df : DataFrame) (c : string) :
  c ≠ "score" -> has_column (assign_scores df) c = has_column df c.
Proof.
  intros Hc. rewrite (has_column_columns _ _ c (assign_scores_columns df)).
  apply has_column_setitem. exact Hc.
Qed.

(** A frame holding scored records of [df] under the scored frame's columns
    is left as it is by scoring. *)
Lemma assign_scores_fixed (df d : DataFrame) :
  columns d = columns (assign_scores df) ->
  (forall r, r ∈ rows d -> r ∈ rows (assign_scores df)) ->
  assign_scores d = d.
Proof.
  intros Hcols Hrows. apply DataFrame_eq.
  - rewrite assign_scores_columns. unfold setitem; simpl.
    assert (Hs : has_column d "score" = true); [| rewrite Hs; reflexivity].
    rewrite (has_column_columns _ _ "score" Hcols).
    rewrite (has_column_columns _ _ "score" (assign_scores_columns df)).
    unfold has_column. apply bool_decide_eq_true_2.
    apply elem_of_columns_setitem. right. reflexivity.
  - rewrite assign_scores_rows. rewrite <- (list_fmap_id (rows d)) at 2.
    apply list_fmap_ext. intros i r Hi. simpl.
    assert (Hr : r ∈ rows (assign_scores df))
      by (apply Hrows, list_elem_of_lookup; eauto).
    rewrite assign_scores_rows in Hr. apply list_elem_of_fmap in Hr as (r0 & -> & _).
    rewrite (gated_score_ext df d r0).
    + apply insert_insert_eq.
    + intros c Hc. apply scored_column_ne in Hc as [Hc _]. split.
      * rewrite (has_column_columns _ _ c Hcols).
        apply has_column_assign_scores. exact Hc.
      * apply lookup_insert_ne. congruence.
Qed.

Lemma elem_of_columns_assign_scores (df : DataFrame) (c : string) :
  c ∈ columns (assign_scores df) <-> c ∈ columns df ∨ c = "score".
Proof. rewrite assign_scores_columns. apply elem_of_columns_setitem. Qed.

Lemma elem_of_columns_categorize (self : ProspectFinder) (df : option DataFrame)
    (c : string) :
  c ∈ columns (categorize_prospects self df)
  <-> c ∈ columns (default (prospects self) df) ∨ c = "prospect_type".
Proof. rewrite categorize_prospects_columns. apply elem_of_columns_setitem. Qed.

(** X3: scores do not accumulate.  Scoring a frame that [score_prospects] has
    already returned gives every record the score it had: the result holds
    the same records, and scoring the scored frame itself changes nothing. *)
Theorem rescoring_changes_nothing
    (argsort : list Z -> list nat) (self self' : ProspectFinder) (df : option DataFrame) :
  let input := default (prospects self) df in
  let once := (score_prospects argsort self df).1 in
  assign_scores (assign_scores input) = assign_scores input
  ∧ assign_scores once = once
  ∧ rows (score_prospects aquicksort self' (Some once)).1 ≡ₚ rows once.
Proof.
  intros input once.
  assert (Honce : assign_scores once = once).
  { apply (assign_scores_fixed input); [reflexivity |].
    intros r Hr. unfold once in Hr. rewrite score_prospects_rows in Hr.
    apply elem_of_take_at in Hr. exact Hr. }
  split; [apply (assign_scores_fixed input); auto |]. split; [exact Honce |].
  rewrite score_prospects_rows.
  change (default (prospects self') (Some once)) with once. rewrite Honce.
  apply sorted_Permutation, aquicksort_ok.
Qed.

(** The points a completeness field is worth. *)
Lemma gated_score_insert (df : DataFrame) (r : Row) (c : string) (v : value) (pts : Z) :
  (c, pts) ∈ [("phone", 10); ("website", 5); ("address", 5)] ->
  has_column df c = true -> r !! c = None ->
  gated_score df (<[c := v]> r) = gated_score df r + pts.
Proof.
  intros Hc Hcol Hr. unfold gated_score, source_has_DMV.
  assert (Hnew : bool_decide (is_Some (Some v)) = true) by reflexivity.
  assert (Hold : bool_decide (is_Some (@None value)) = false) by reflexivity.
  repeat (apply elem_of_cons in Hc as [Heq | Hc]); [| | | inversion Hc];
    injection Heq as -> ->;
    rewrite lookup_insert_eq, !lookup_insert_ne by discriminate;
    rewrite Hcol, Hr, Hnew, Hold; unfold contribution at 1 2 3 5 6 7; simpl; lia.
Qed.

(** X4: filling in a missing phone, website or address of one record raises
    that record's score by the field's points (10, 5, 5) and leaves every
    other record's scored form as it was. *)
Theorem completing_a_record_raises_its_score
    (df : DataFrame) (i : nat) (r : Row) (c : string) (v : value) (pts : Z) :
  let df' := {| columns := columns df; rows := <[i := <[c := v]> r]> (rows df) |} in
  (c, pts) ∈ [("phone", 10); ("website", 5); ("address", 5)] ->
  has_column df c = true ->
  rows df !! i = Some r ->
  r !! c = None ->
  score_of <$> rows (assign_scores df') !! i
  = (fun z => z + pts) <$> (score_of <$> rows (assign_scores df) !! i)
  ∧ forall j, j ≠ i -> rows (assign_scores df') !! j = rows (assign_scores df) !! j.
Proof.
  intros df' Hc Hcol Hi Hr. rewrite !assign_scores_rows, !list_lookup_fmap.
  assert (Hg : forall r0, gated_score df' r0 = gated_score df r0)
    by (intros r0; reflexivity).
  split.
  - simpl. rewrite list_lookup_insert_eq by (eapply lookup_lt_Some; exact Hi).
    rewrite Hi. simpl. rewrite !score_of_insert, Hg.
    rewrite (gated_score_insert df r c v pts Hc Hcol Hr). reflexivity.
  - intros j Hj. rewrite !list_lookup_fmap. simpl.
    rewrite list_lookup_insert_ne by congruence.
    destruct (rows df !! j); [| reflexivity]. simpl. rewrite Hg. reflexivity.
Qed.

Lemma completing_a_record_raises_its_score_witness :
  let df' := {| columns := columns registered_lead;
                rows := <[0%nat := <["website" := VStr "https://example.com"]> lead_record]>
                          (rows registered_lead) |} in
  rows registered_lead !! 0%nat = Some lead_record
  ∧ lead_record !! "website" = None
  ∧ score_of <$> rows (assign_scores df') !! 0%nat
    = (fun z => z + 5) <$> (score_of <$> rows (assign_scores registered_lead) !! 0%nat).
Proof.
  split; [reflexivity |]. split; [reflexivity |].
  apply (completing_a_record_raises_its_score registered_lead 0 lead_record "website"
           (VStr "https://example.com") 5).
  - compute_done.
  - reflexivity.
  - reflexivity.
  - reflexivity.
Defined.

(** X5: scoring and classifying do not interfere: classifying a scored frame
    and scoring a classified frame give the same records, under the same set
    of columns. *)
Theorem scoring_and_classifying_commute (self : ProspectFinder) (df : option DataFrame) :
  let input := default (prospects self) df in
  let classified_then_scored := assign_scores (categorize_prospects self df) in
  let scored_then_classified := categorize_prospects self (Some (assign_scores input)) in
  rows classified_then_scored = rows scored_then_classified
  ∧ forall c, c ∈ columns classified_then_scored <-> c ∈ columns scored_then_classified.
Proof.
  intros input cs sc. subst cs sc. split.
  - rewrite assign_scores_rows, !categorize_prospects_rows. simpl.
    rewrite assign_scores_rows. fold input. rewrite <- !list_fmap_compose.
    apply list_fmap_ext. intros i r _. simpl.
    rewrite (gated_score_ext input (categorize_prospects self df) r).
    + unfold gated_label.
      rewrite (has_column_assign_scores input "name") by discriminate.
      rewrite lookup_insert_ne by discriminate.
      apply insert_insert_ne. discriminate.
    + intros c Hc. apply scored_column_ne in Hc as [_ Hc]. split.
      * rewrite (has_column_columns _ _ c (categorize_prospects_columns self df)).
        apply has_column_setitem. exact Hc.
      * apply lookup_insert_ne. congruence.
  - intros c. rewrite elem_of_columns_assign_scores, !elem_of_columns_categorize.
    simpl. rewrite elem_of_columns_assign_scores. fold input. tauto.
Qed.

(** ** Merging *)

Lemma concat_assoc (a b c : DataFrame) :
  no_integers a -> no_integers b -> no_integers c ->
  concat (concat a b) c = concat a (concat b c).
Proof.
  intros Ha Hb Hc. apply DataFrame_eq.
  - unfold concat; simpl.
    rewrite <- app_assoc. f_equal. rewrite filter_app. f_equal.
    rewrite list_filter_filter. apply list_filter_iff. intros x.
    rewrite elem_of_app, list_elem_of_filter. tauto.
  - rewrite !concat_rows_keeps
      by (apply no_integers_keeps; try apply no_integers_concat; assumption).
    symmetry. apply app_assoc.
Qed.

Lemma df_empty_concat (a b : DataFrame) :
  df_empty a = false -> df_empty (concat a b) = false.
Proof.
  unfold df_empty, concat; simpl. intros H. apply orb_false_iff in H as [Hc Hr].
  apply bool_decide_eq_false_1 in Hc, Hr.
  apply orb_false_iff. split; apply bool_decide_eq_false_2.
  - intros Heq. apply app_eq_nil in Heq as [Heq _]. contradiction.
  - intros Heq. apply app_eq_nil in Heq as [Heq _]. apply Hr.
    apply length_zero_iff_nil. rewrite <- (upcast_length a b), Heq. reflexivity.
Qed.

(** X6: when neither the store nor the batches hold an integer, merging two
    non-empty batches one after the other, through whichever entry points,
    leaves the same store as merging their concatenation in one call.  (With
    an integer column that one of the frames lacks the two stores can differ:
    the column turns float64 at a different step.) *)
Theorem merging_in_parts_or_at_once
    (e1 e2 e : entry_point) (self : ProspectFinder) (B1 B2 : DataFrame) :
  df_empty B1 = false -> df_empty B2 = false ->
  no_integers (prospects self) -> no_integers B1 -> no_integers B2 ->
  (merge e2 (merge e1 self B1).1 B2).1 = (merge e self (concat B1 B2)).1.
Proof.
  intros H1 H2 Hs Hn1 Hn2.
  assert (Hm : forall e s B, df_empty B = false ->
                             (merge e s B).1 = set_prospects s (concat (prospects s) B)).
  { intros e0 s B HB. destruct e0; simpl;
      unfold add_yellowpages_data, add_dmv_data; rewrite HB; reflexivity. }
  rewrite !Hm by (try assumption; apply df_empty_concat; assumption).
  unfold set_prospects; simpl. rewrite concat_assoc by assumption. reflexivity.
Qed.

Lemma merging_in_parts_or_at_once_witness :
  df_empty small_batch = false
  ∧ df_empty (mock_dmv_batch "Jacksonville,FL") = false
  ∧ no_integers small_batch
  ∧ no_integers (mock_dmv_batch "Jacksonville,FL")
  ∧ small_store
    = (add_yellowpages_data (init "./output")
         (concat small_batch (mock_dmv_batch "Jacksonville,FL"))).1.
Proof.
  assert (Hn1 : no_integers small_batch) by compute_done.
  assert (Hn2 : no_integers (mock_dmv_batch "Jacksonville,FL")) by compute_done.
  split; [reflexivity |]. split; [reflexivity |].
  split; [exact Hn1 |]. split; [exact Hn2 |].
  refine (merging_in_parts_or_at_once YellowPages DMV YellowPages (init "./output")
            small_batch (mock_dmv_batch "Jacksonville,FL") eq_refl eq_refl _ Hn1 Hn2).
  constructor.
Defined.

(** With an integer column in the first batch that the store lacks and the
    second batch holds as text, merging in parts stores the float 5.0 and
    merging the concatenation stores the integer 5. *)
Example merging_in_parts_differs :
  let store := set_prospects (init "./output") small_batch in
  let B1 : DataFrame :=
    {| columns := ["owner_name"; "fleet_size"];
       rows := [ {[ "owner_name" := VStr "Sample Fleet"; "fleet_size" := VInt 5 ]} ] |} in
  let B2 : DataFrame :=
    {| columns := ["owner_name"; "fleet_size"];
       rows := [ {[ "owner_name" := VStr "Other Fleet"; "fleet_size" := VStr "n/a" ]} ] |} in
  (rows (prospects (add_dmv_data (add_dmv_data store B1).1 B2).1) !! 3%nat)
    ≫= (fun r : Row => r !! "fleet_size") = Some (VFloat 5)
  ∧ (rows (prospects (add_dmv_data store (concat B1 B2)).1) !! 3%nat)
      ≫= (fun r : Row => r !! "fleet_size") = Some (VInt 5).
Proof. split; vm_compute; reflexivity. Qed.

(** X7: a merge never removes or reorders columns: the store's columns stay
    where they are, every column of a merged batch is a column afterwards,
    and columns that were distinct in the store and in the batch stay
    distinct. *)
Theorem merge_extends_columns (e : entry_point) (self : ProspectFinder) (B : DataFrame) :
  let after := prospects (merge e self B).1 in
  columns (prospects self) `prefix_of` columns after
  ∧ (df_empty B = false -> forall c, c ∈ columns B -> c ∈ columns after)
  ∧ (NoDup (columns (prospects self)) -> NoDup (columns B) -> NoDup (columns after)).
Proof.
  intros after. subst after. destruct (df_empty B) eqn:He.
  - rewrite merge_empty by exact He. split; [reflexivity |].
    split; [discriminate | auto].
  - rewrite merge_nonempty by exact He. unfold concat; simpl. split.
    + apply prefix_app_r. reflexivity.
    + split.
      * intros _ c Hc. apply elem_of_app.
        destruct (decide (c ∈ columns (prospects self))); [left; assumption |].
        right. apply list_elem_of_filter. split; assumption.
      * intros Hs Hb. apply NoDup_app. split; [exact Hs |]. split.
        -- intros c Hc Hc'. apply list_elem_of_filter in Hc' as [Hn _]. contradiction.
        -- apply NoDup_filter. exact Hb.
Qed.

Lemma merge_extends_columns_witness :
  df_empty (mock_dmv_batch "Jacksonville,FL") = false
  ∧ "owner_name" ∈ columns (prospects small_store).
Proof.
  split; [reflexivity |].
  apply (proj1 (proj2 (merge_extends_columns DMV
                         (add_yellowpages_data (init "./output") small_batch).1
                         (mock_dmv_batch "Jacksonville,FL"))) eq_refl).
  compute_done.
Defined.

(** ** Report totals *)

Lemma counts_total_insert (d : gmap value nat) (v : value) (n : nat) :
  d !! v = None -> counts_total (<[v := n]> d) = (n + counts_total d)%nat.
Proof.
  intros Hv. unfold counts_total.
  rewrite (map_fold_insert_L (fun (_ : value) (n acc : nat) => (n + acc)%nat) O v n d);
    [reflexivity | | exact Hv].
  intros. lia.
Qed.

Lemma counts_total_value_counts (s : Series) :
  counts_total (value_counts s) = length (filter (fun c : option value => is_Some c) s).
Proof.
  induction s as [| c s IH]; [reflexivity |].
  rewrite filter_cons. destruct c as [v |].
  - destruct (decide (is_Some (Some v))) as [_ | Hn];
      [| exfalso; apply Hn; eexists; reflexivity].
    change (value_counts (Some v :: s))
      with (<[v := S (default O (value_counts s !! v))]> (value_counts s)).
    cbn [length]. rewrite <- IH.
    destruct (value_counts s !! v) as [n |] eqn:Hv; cbn [default].
    + rewrite <- (insert_delete_eq (value_counts s)).
      rewrite counts_total_insert by apply lookup_delete_eq.
      rewrite <- (insert_delete_id _ _ _ Hv) at 2.
      rewrite counts_total_insert by apply lookup_delete_eq. reflexivity.
    + rewrite counts_total_insert by exact Hv. reflexivity.
  - destruct (decide (is_Some (@None value))) as [[? [=]] | _]. exact IH.
Qed.

Lemma counts_total_getitem (df : DataFrame) (col : string) :
  counts_total (value_counts (getitem df col)) = count_present col df.
Proof.
  rewrite counts_total_value_counts. unfold getitem, count_present.
  induction (rows df) as [| r l IH]; [reflexivity |].
  csimpl. rewrite !filter_cons.
  destruct (decide (is_Some (r !! col))); simpl; rewrite IH; reflexivity.
Qed.

Lemma count_present_le (df : DataFrame) (col : string) :
  (count_present col df <= len df)%nat.
Proof. unfold count_present, len. apply length_filter. Qed.

Lemma generate_report_lookup (now : string) (self : ProspectFinder) :
  let store := prospects self in
  let report := generate_report now self in
  let breakdown := fun col : string =>
    if negb (df_empty store) && has_column store col
    then Some (RDict (value_counts (getitem store col))) else None in
  let completeness := fun col : string =>
    if negb (df_empty store)
    then Some (RInt (if has_column store col then count_present col store else O))
    else None in
  report !! "total_prospects" = Some (RInt (len store))
  ∧ report !! "by_source" = breakdown "source"
  ∧ report !! "by_type" = breakdown "prospect_type"
  ∧ report !! "with_phone" = completeness "phone"
  ∧ report !! "with_address" = completeness "address".
Proof.
  intros store report breakdown completeness.
  unfold report, generate_report, breakdown, completeness. fold store.
  destruct (df_empty store); simpl; [repeat split; reflexivity |].
  rewrite !sum_true_notna.
  destruct (has_column store "source"), (has_column store "prospect_type");
    repeat split; simplify_map_eq; reflexivity.
Qed.

(** X8: the figures of a report are consistent with its total: each
    breakdown accounts for exactly the records that have a value in its
    column, so for no more than [total_prospects], and neither completeness
    figure exceeds [total_prospects]. *)
Theorem report_figures_within_total (now : string) (self : ProspectFinder) :
  let store := prospects self in
  let report := generate_report now self in
  (forall (key col : string) (d : gmap value nat),
      (key, col) ∈ [("by_source", "source"); ("by_type", "prospect_type")] ->
      report !! key = Some (RDict d) ->
      counts_total d = count_present col store
      ∧ (counts_total d <= len store)%nat)
  ∧ (forall (key : string) (n : nat),
        key ∈ ["with_phone"; "with_address"] ->
        report !! key = Some (RInt n) -> (n <= len store)%nat).
Proof.
  intros store report.
  destruct (generate_report_lookup now self) as (_ & Hs & Ht & Hp & Ha).
  fold store report in Hs, Ht, Hp, Ha. split.
  - assert (Hone : forall key col d,
              report !! key
              = (if negb (df_empty store) && has_column store col
                 then Some (RDict (value_counts (getitem store col))) else None) ->
              report !! key = Some (RDict d) ->
              counts_total d = count_present col store
              ∧ (counts_total d <= len store)%nat).
    { intros key col d Hk Hd. rewrite Hk in Hd.
      destruct (negb (df_empty store) && has_column store col); [| discriminate].
      injection Hd as <-. rewrite counts_total_getitem.
      split; [reflexivity | apply count_present_le]. }
    intros key col d Hin.
    apply elem_of_cons in Hin as [[= -> ->] | Hin]; [exact (Hone _ _ d Hs) |].
    apply elem_of_cons in Hin as [[= -> ->] | Hin]; [exact (Hone _ _ d Ht) |].
    apply elem_of_nil in Hin. contradiction.
  - assert (Hone : forall key col n,
              report !! key
              = (if negb (df_empty store)
                 then Some (RInt (if has_column store col
                                  then count_present col store else O))
                 else None) ->
              report !! key = Some (RInt n) -> (n <= len store)%nat).
    { intros key col n Hk Hn. rewrite Hk in Hn.
      destruct (negb (df_empty store)); [| discriminate].
      injection Hn as <-. destruct (has_column store col);
        [apply count_present_le | lia]. }
    intros key n Hin.
    apply elem_of_cons in Hin as [-> | Hin]; [exact (Hone _ _ n Hp) |].
    apply elem_of_cons in Hin as [-> | Hin]; [exact (Hone _ _ n Ha) |].
    apply elem_of_nil in Hin. contradiction.
Qed.

Lemma report_figures_within_total_witness :
  generate_report "2024-01-15T09:30:00" three_record_store !! "by_source"
  = Some (RDict {[ VStr "YellowPages" := 2%nat; VStr "MOCK_DMV" := 1%nat ]})
  ∧ counts_total {[ VStr "YellowPages" := 2%nat; VStr "MOCK_DMV" := 1%nat ]}
    = count_present "source" (prospects three_record_store)
  ∧ generate_report "2024-01-15T09:30:00" three_record_store !! "with_phone"
    = Some (RInt 2)
  ∧ (2 <= len (prospects three_record_store))%nat.
Proof.
  assert (Hs : generate_report "2024-01-15T09:30:00" three_record_store !! "by_source"
               = Some (RDict {[ VStr "YellowPages" := 2%nat; VStr "MOCK_DMV" := 1%nat ]}))
    by (vm_compute; reflexivity).
  assert (Hp : generate_report "2024-01-15T09:30:00" three_record_store !! "with_phone"
               = Some (RInt 2)) by (vm_compute; reflexivity).
  split; [exact Hs |]. split.
  - refine (proj1 (proj1 (report_figures_within_total "2024-01-15T09:30:00"
                            three_record_store) "by_source" "source" _ _ Hs)).
    compute_done.
  - split; [exact Hp |].
    refine (proj2 (report_figures_within_total "2024-01-15T09:30:00"
                     three_record_store) "with_phone" 2%nat _ Hp).
    compute_done.
Defined.

(** ** The processing phase *)

Lemma spec_label_cases (name : option value) : spec_label name ∈ prospect_types.
Proof.
  unfold spec_label, spec_rules, prospect_types. cbn [foldl fst snd].
  repeat match goal with |- context [existsb ?f ?l] => destruct (existsb f l) end;
    cbn [fst snd]; repeat constructor.
Qed.

Lemma gated_label_cases (df : DataFrame) (r : Row) : gated_label df r ∈ prospect_types.
Proof.
  unfold gated_label. destruct (has_column df "name");
    [apply spec_label_cases | repeat constructor].
Qed.

Lemma count_present_all (df : DataFrame) (col : string) :
  Forall (fun r : Row => is_Some (r !! col)) (rows df) ->
  count_present col df = len df.
Proof.
  unfold count_present, len. induction 1 as [| r l Hr _ IH]; [reflexivity |].
  rewrite filter_cons, decide_True by exact Hr. simpl. f_equal. exact IH.
Qed.

Lemma value_counts_is_Some (s : Series) (v : value) :
  is_Some (value_counts s !! v) -> Some v ∈ s.
Proof.
  rewrite value_counts_lookup.
  destruct (decide (count_value v s = O)) as [| Hne]; [intros [? [=]] |].
  intros _. unfold count_value in Hne.
  destruct (filter (fun c : option value => c = Some v) s) as [| c l] eqn:Hf;
    [contradiction |].
  assert (Hc : c ∈ filter (fun c : option value => c = Some v) s)
    by (rewrite Hf; left).
  apply list_elem_of_filter in Hc as [-> Hc]. exact Hc.
Qed.

Lemma process_prospects_rows (now : string) (finder : ProspectFinder) :
  rows (prospects (process_prospects aquicksort now finder).1)
  ≡ₚ processed_record (prospects finder) <$> rows (prospects finder).
Proof.
  change (prospects (process_prospects aquicksort now finder).1)
    with (score_prospects aquicksort
            (set_prospects finder (categorize_prospects finder None)) None).1.
  rewrite score_prospects_rows.
  change (default (prospects (set_prospects finder (categorize_prospects finder None)))
                  None)
    with (categorize_prospects finder None).
  set (classified := categorize_prospects finder None).
  set (scored := assign_scores classified).
  rewrite (sorted_Permutation (rows scored) _
             (aquicksort_ok (reverse (score_of <$> rows scored)))).
  unfold scored. rewrite assign_scores_rows. unfold classified.
  rewrite categorize_prospects_rows. cbn [default].
  rewrite <- list_fmap_compose.
  match goal with |- ?a ≡ₚ ?b => assert (Heq : a = b); [| rewrite Heq; reflexivity] end.
  apply list_fmap_ext. intros i r _. unfold processed_record, compose. f_equal. f_equal.
  apply gated_score_ext. intros c Hc. destruct (scored_column_ne c Hc) as [_ Hne].
  split.
  - rewrite (has_column_columns _ _ c (categorize_prospects_columns finder None)).
    apply has_column_setitem. exact Hne.
  - apply lookup_insert_ne. congruence.
Qed.

Lemma process_prospects_columns (argsort : list Z -> list nat) (now : string)
    (finder : ProspectFinder) (c : string) :
  c ∈ columns (prospects (process_prospects argsort now finder).1)
  <-> c ∈ columns (prospects finder) ∨ c = "prospect_type" ∨ c = "score".
Proof.
  unfold process_prospects, score_prospects, sort_values.
  cbn [fst prospects set_prospects default columns].
  rewrite elem_of_columns_assign_scores, elem_of_columns_categorize.
  cbn [default]. tauto.
Qed.

Lemma process_prospects_descending (now : string) (finder : ProspectFinder) :
  descending (rows (prospects (process_prospects aquicksort now finder).1)).
Proof.
  change (prospects (process_prospects aquicksort now finder).1)
    with (score_prospects aquicksort
            (set_prospects finder (categorize_prospects finder None)) None).1.
  rewrite score_prospects_rows. apply sorted_descending, aquicksort_ok.
Qed.

Lemma process_prospects_report (argsort : list Z -> list nat) (now : string)
    (finder : ProspectFinder) :
  (process_prospects argsort now finder).2
  = generate_report now (process_prospects argsort now finder).1.
Proof. reflexivity. Qed.

(** X9: the processing phase of [main].  It leaves in the store the records
    it found there, each with its label and its score, highest score first;
    the report counts them all; and when there is a record at all, the
    report's breakdown by type accounts for every record, under the four
    labels only. *)
Theorem processing_classifies_and_ranks (now : string) (finder : ProspectFinder) :
  let store := prospects finder in
  let processed := prospects (process_prospects aquicksort now finder).1 in
  let report := (process_prospects aquicksort now finder).2 in
  rows processed ≡ₚ processed_record store <$> rows store
  ∧ descending (rows processed)
  ∧ report !! "total_prospects" = Some (RInt (len store))
  ∧ (rows store ≠ [] ->
     exists d, report !! "by_type" = Some (RDict d)
               ∧ counts_total d = len store
               ∧ forall v, is_Some (d !! v) -> v ∈ VStr <$> prospect_types).
Proof.
  cbv zeta.
  pose proof (process_prospects_rows now finder) as Hrows.
  pose proof (process_prospects_descending now finder) as Hdesc.
  pose proof (process_prospects_columns aquicksort now finder "prospect_type") as Hcols.
  rewrite process_prospects_report.
  generalize dependent (process_prospects aquicksort now finder).
  intros [after unused] Hrows Hdesc Hcols. cbn [fst] in *. clear unused.
  destruct (generate_report_lookup now after) as (Htotal & _ & Htype & _).
  set (report := generate_report now after) in *. clearbody report.
  set (processed := prospects after) in *. clearbody processed. clear after.
  set (store := prospects finder) in *.
  assert (Hlen : len processed = len store).
  { unfold len. rewrite Hrows. apply length_fmap. }
  assert (Htyped : Forall (fun r : Row =>
                     exists t, t ∈ prospect_types ∧ r !! "prospect_type" = Some (VStr t))
                     (rows processed)).
  { rewrite Hrows. apply Forall_fmap, Forall_forall. intros r _.
    exists (gated_label store r). split; [apply gated_label_cases |].
    unfold processed_record. cbn [compose].
    rewrite lookup_insert_ne by discriminate. apply lookup_insert_eq. }
  assert (Hcol : "prospect_type" ∈ columns processed)
    by (apply Hcols; right; left; reflexivity).
  split; [exact Hrows |]. split; [exact Hdesc |].
  split; [rewrite Htotal, Hlen; reflexivity |].
  intros Hne. eexists. split.
  - rewrite Htype.
    assert (Hfull : df_empty processed = false).
    { unfold df_empty. apply orb_false_iff. split; apply bool_decide_eq_false_2.
      - intros Hnil. rewrite Hnil in Hcol. apply elem_of_nil in Hcol. contradiction.
      - intros Hnil. apply Hne. apply length_zero_iff_nil.
        change (len store = O). rewrite <- Hlen. unfold len. rewrite Hnil. reflexivity. }
    rewrite Hfull. cbn [negb andb].
    unfold has_column. rewrite bool_decide_eq_true_2 by exact Hcol. reflexivity.
  - split.
    + rewrite counts_total_getitem, <- Hlen. apply count_present_all.
      eapply Forall_impl; [exact Htyped |]. intros r (t & _ & ->). eexists; reflexivity.
    + intros v Hv. apply value_counts_is_Some in Hv.
      unfold getitem in Hv. apply list_elem_of_fmap in Hv as (r & Hr & Hin).
      rewrite Forall_forall in Htyped. destruct (Htyped r Hin) as (t & Ht & Heq).
      rewrite Heq in Hr. injection Hr as ->. apply list_elem_of_fmap.
      exists t. split; [reflexivity | exact Ht].
Qed.

Lemma processing_classifies_and_ranks_witness :
  rows (prospects mixed_store) ≠ []
  ∧ exists d,
      (process_prospects aquicksort "2024-01-15T09:30:00" mixed_store).2 !! "by_type"
      = Some (RDict d)
      ∧ counts_total d = len (prospects mixed_store).
Proof.
  assert (Hne : rows (prospects mixed_store) ≠ []).
  { intros H. apply (f_equal length) in H. vm_compute in H. discriminate H. }
  split; [exact Hne |].
  destruct (proj2 (proj2 (proj2 (processing_classifies_and_ranks
                                   "2024-01-15T09:30:00" mixed_store))) Hne)
    as (d & Hd & Hsum & _).
  exists d. split; [exact Hd | exact Hsum].
Defined.

(** ** Text *)

Lemma append_cons (c : ascii) (a b : string) : String c a ++ b = String c (a ++ b).
Proof. reflexivity. Qed.



Lemma length_append (a b : string) :
  String.length (a ++ b) = (String.length a + String.length b)%nat.
Proof.
  induction a as [| x a IH]; [reflexivity |]. rewrite append_cons. cbn.
  rewrite IH. reflexivity.
Qed.

Lemma append_ne_self (s ext : string) : ext ≠ "" -> s ++ ext ≠ s.
Proof.
  intros Hext Heq. apply (f_equal String.length) in Heq.
  rewrite length_append in Heq. destruct ext; [contradiction | cbn in Heq; lia].
Qed.


(** ** Export *)

Lemma path_join_relative (a b : string) :
  startswith "/" b = false ->
  exists sep, sep ∈ [""; "/"] ∧ path_join a b = a ++ sep ++ b.
Proof.
  intros Hb. unfold path_join. rewrite Hb.
  destruct (bool_decide (a = "") || startswith "/" (String.rev a)).
  - exists "". split; [left | reflexivity].
  - exists "/". split; [right; left | reflexivity].
Qed.

(** X10: an export of a store that is not empty in one of the three formats
    writes one file, holding the store as it is, at the returned path
    followed by the format's extension; so the path handed back is never the
    path of the file.  For a file name that does not start with "/" the path
    is the text of the output directory, a "/" where one is needed, and the
    name as given; a name that starts with "/" is the path by itself.
    Nothing is normalised, so neither kind of name keeps the file inside the
    output directory. *)
Theorem export_writes_one_file
    (now : string) (self : ProspectFinder) (filename : option string) (format : string) :
  df_empty (prospects self) = false ->
  format ∈ ["csv"; "excel"; "json"] ->
  let name := default ("vehicle_buyer_prospects_" ++ now) filename in
  exists (path ext : string) (w : FileWrite),
    export_prospects now self filename format
    = (Returns (Some path), [w], [(INFO, "Exported to " ++ path ++ ext)])
    ∧ (format, ext) ∈ [("csv", ".csv"); ("excel", ".xlsx"); ("json", ".json")]
    ∧ path_of w = path ++ ext
    ∧ frame_of w = prospects self
    ∧ path_of w ≠ path
    ∧ (startswith "/" name = false ->
       exists sep, sep ∈ [""; "/"] ∧ path = output_directory self ++ sep ++ name)
    ∧ (startswith "/" name = true -> path = name).
Proof.
  intros Hne Hfmt name. unfold export_prospects. rewrite Hne. fold name.
  set (path := path_join (output_directory self) name).
  assert (Hrel : startswith "/" name = false ->
                 exists sep, sep ∈ [""; "/"] ∧ path = output_directory self ++ sep ++ name)
    by apply path_join_relative.
  assert (Habs : startswith "/" name = true -> path = name).
  { intros H. unfold path, path_join. rewrite H. reflexivity. }
  clearbody path.
  repeat (apply elem_of_cons in Hfmt as [-> | Hfmt]); [| | | inversion Hfmt].
  - exists path, ".csv", (to_csv (path ++ ".csv") (prospects self)).
    split; [reflexivity |]. split; [repeat constructor |].
    repeat split; try assumption. apply append_ne_self. discriminate.
  - exists path, ".xlsx", (to_excel (path ++ ".xlsx") (prospects self)).
    split; [reflexivity |]. split; [repeat constructor |].
    repeat split; try assumption. apply append_ne_self. discriminate.
  - exists path, ".json", (to_json (path ++ ".json") (prospects self)).
    split; [reflexivity |]. split; [repeat constructor |].
    repeat split; try assumption. apply append_ne_self. discriminate.
Qed.

Lemma export_writes_one_file_witness :
  df_empty (prospects small_store) = false
  ∧ "excel" ∈ ["csv"; "excel"; "json"]
  ∧ exists path ext w,
      export_prospects "20240115_093000" small_store None "excel"
      = (Returns (Some path), [w], [(INFO, "Exported to " ++ path ++ ext)])
      ∧ path_of w ≠ path.
Proof.
  assert (Hne : df_empty (prospects small_store) = false) by reflexivity.
  assert (Hfmt : "excel" ∈ ["csv"; "excel"; "json"]) by (right; left).
  split; [exact Hne |]. split; [exact Hfmt |].
  destruct (export_writes_one_file "20240115_093000" small_store None "excel" Hne Hfmt)
    as (path & ext & w & Hrun & _ & _ & _ & Hpath & _).
  exists path, ext, w. split; [exact Hrun | exact Hpath].
Defined.

(** A relative name with ".." is joined as it is and leaves the directory. *)
Example export_outside_output_directory :
  (export_prospects "20240115_093000" small_store (Some "../../etc/leads") "csv").1.2
  = [to_csv "./output/../../etc/leads.csv" (prospects small_store)].
Proof. vm_compute. reflexivity. Qed.

(** ** The export phase *)







(** ** The directory search *)

Lemma parse_listing_record (listing : Listing) (r : Row) :
  parse_listing listing = Some r -> is_directory_record r.
Proof.
  unfold parse_listing.
  destruct (bool_decide (default "" (business_name listing) = "")) eqn:Hname;
    [discriminate |].
  apply bool_decide_eq_false_1 in Hname. intros [= <-].
  eexists _, _, _, _. split; [exact Hname | reflexivity].
Qed.

Lemma search_all_records (web : string -> string -> response)
    (categories locations : list string) :
  Forall is_directory_record (search_all web categories locations ≫= fst).
Proof.
  apply Forall_forall. intros r Hr.
  apply list_elem_of_bind in Hr as (found & Hr & Hfound).
  unfold search_all in Hfound.
  apply list_elem_of_bind in Hfound as (location & Hfound & _).
  apply list_elem_of_bind in Hfound as (category & Hfound & _).
  apply list_elem_of_singleton in Hfound as ->.
  unfold search_location in Hr. destruct (web category location) as [listings | msg].
  - cbn [fst] in Hr. apply list_elem_of_omap in Hr as (listing & _ & Hparse).
    exact (parse_listing_record _ _ Hparse).
  - cbn [fst] in Hr. apply elem_of_nil in Hr. contradiction.
Qed.

Lemma NoDup_fmap_count {A B : Type} `{EqDecision B} (f : A -> B) (l : list A) (b : B) :
  NoDup (f <$> l) -> (length (filter (fun x => f x = b) l) <= 1)%nat.
Proof.
  induction l as [| x l IH]; [simpl; lia |].
  csimpl. intros Hnd. apply NoDup_cons in Hnd as [Hx Hnd].
  rewrite filter_cons. destruct (decide (f x = b)) as [Hb | _]; [| exact (IH Hnd)].
  assert (Hnone : filter (fun x => f x = b) l = []).
  { destruct (filter (fun x => f x = b) l) as [| y l'] eqn:Hf; [reflexivity |].
    exfalso. assert (Hy : y ∈ filter (fun x => f x = b) l) by (rewrite Hf; left).
    apply list_elem_of_filter in Hy as [Hy Hin]. apply Hx. rewrite Hb, <- Hy.
    apply list_elem_of_fmap. exists y. split; [reflexivity | exact Hin]. }
  rewrite Hnone. simpl. lia.
Qed.

Lemma subset_key_phone (l : list Row) :
  subset_key ["phone"] <$> l
  = (fun c : option value => [c]) <$> ((fun r : Row => r !! "phone") <$> l).
Proof. rewrite <- list_fmap_compose. reflexivity. Qed.

(** X12: what a directory search hands back.  It never fails; the frame
    holds a selection of the businesses the searches gathered, in their
    order, every one a record of the parser with the six fields; no two of
    them share a phone text, every phone text gathered is still there, and
    the first business gathered with a phone text is the one kept.  A
    business without a phone carries the empty text there, so of all the
    businesses without a phone at most one is kept. *)
Theorem directory_search_dedups_on_phone
    (web : string -> string -> response) (categories locations : list string) :
  let gathered := search_all web categories locations ≫= fst in
  exists df,
    (search_multiple_locations web categories locations).1 = Returns df
    ∧ rows df `sublist_of` gathered
    ∧ Forall is_directory_record (rows df)
    ∧ NoDup ((fun r : Row => r !! "phone") <$> rows df)
    ∧ (forall r, r ∈ gathered ->
                 exists kept, kept ∈ rows df ∧ kept !! "phone" = r !! "phone")
    ∧ (forall l1 r l2, gathered = (l1 ++ r :: l2)%list ->
                       Forall (fun r' : Row => r' !! "phone" ≠ r !! "phone") l1 ->
                       r ∈ rows df)
    ∧ (length (filter (fun r : Row => r !! "phone" = Some (VStr "")) (rows df)) <= 1)%nat.
Proof.
  intros gathered. unfold search_multiple_locations. fold gathered. cbn [fst].
  pose proof (search_all_records web categories locations) as Hrec.
  fold gathered in Hrec. clearbody gathered.
  destruct gathered as [| r0 l0].
  - exists (DataFrame_of_businesses []). split; [reflexivity |].
    cbn [DataFrame_of_businesses rows].
    split; [constructor |]. split; [constructor |]. split; [constructor |].
    split; [| split].
    + intros r Hr. apply elem_of_nil in Hr. contradiction.
    + intros l1 r l2 Heq. destruct l1; discriminate.
    + simpl. lia.
  - set (gathered := r0 :: l0) in *.
    exists {| columns := listing_columns; rows := keep_first ["phone"] [] gathered |}.
    assert (Hsub : keep_first ["phone"] [] gathered `sublist_of` gathered)
      by apply keep_first_sublist.
    destruct (keep_first_keys ["phone"] [] gathered) as [Hnd Hkeys].
    rewrite subset_key_phone in Hnd. apply NoDup_fmap_1 in Hnd.
    split; [reflexivity |]. cbn [rows]. split; [exact Hsub |].
    split.
    { apply Forall_forall. intros r Hr. rewrite Forall_forall in Hrec.
      exact (Hrec r (elem_of_sublist _ _ _ Hr Hsub)). }
    split; [exact Hnd |]. split; [| split].
    + intros r Hr.
      assert (Hk : subset_key ["phone"] r ∈ subset_key ["phone"] <$> keep_first ["phone"] [] gathered).
      { apply Hkeys. split; [| apply not_elem_of_nil].
        apply list_elem_of_fmap. exists r. split; [reflexivity | exact Hr]. }
      apply list_elem_of_fmap in Hk as (kept & Hk & Hin).
      exists kept. split; [exact Hin |]. injection Hk as Hk. symmetry. exact Hk.
    + intros l1 r l2 Heq Hfirst. rewrite Heq.
      apply keep_first_first; [apply not_elem_of_nil |].
      intros Hk. apply list_elem_of_fmap in Hk as (r' & Hk & Hin).
      injection Hk as Hk. rewrite Forall_forall in Hfirst.
      exact (Hfirst r' Hin (eq_sym Hk)).
    + apply (NoDup_fmap_count (fun r : Row => r !! "phone")). exact Hnd.
Qed.

Lemma directory_search_dedups_on_phone_witness :
  let no_phone : Row :=
    {[ "name" := VStr "River City Collision"; "phone" := VStr "";
       "address" := VStr "8 Dock Rd"; "website" := VStr "https://example.com";
       "category" := VStr ""; "source" := VStr "YellowPages" ]} in
  no_phone ∈ search_all sample_web ["auto dealers"; "car buyers"] ["Jacksonville,FL"] ≫= fst
  ∧ exists df kept,
      (search_multiple_locations sample_web ["auto dealers"; "car buyers"]
                                 ["Jacksonville,FL"]).1 = Returns df
      ∧ kept ∈ rows df ∧ kept !! "phone" = no_phone !! "phone".
Proof.
  intros no_phone.
  assert (Hin : no_phone ∈ search_all sample_web ["auto dealers"; "car buyers"]
                             ["Jacksonville,FL"] ≫= fst)
    by (right; right; left).
  split; [exact Hin |].
  destruct (directory_search_dedups_on_phone sample_web ["auto dealers"; "car buyers"]
              ["Jacksonville,FL"]) as (df & Hrun & _ & _ & _ & Hall & _).
  destruct (Hall no_phone Hin) as (kept & Hkept & Hphone).
  exists df, kept. split; [exact Hrun |]. split; [exact Hkept | exact Hphone].
Defined.

Example sample_search_keeps_one_without_phone :
  (fun r : Row => r !! "name")
  <$> match (search_multiple_locations sample_web ["auto dealers"; "car buyers"]
                                       ["Jacksonville,FL"]).1 with
      | Returns df => rows df
      | Raises _ => []
      end
  = [Some (VStr "Coastal Motors"); Some (VStr "First Coast Wholesale")].
Proof. vm_compute. reflexivity. Qed.

(** ** A run on directory and mock registration data *)

Lemma search_multiple_locations_returns
    (web : string -> string -> response) (categories locations : list string) :
  (search_multiple_locations web categories locations).1
  = Returns (DataFrame_of_businesses
               (keep_first ["phone"] [] (search_all web categories locations ≫= fst))).
Proof.
  unfold search_multiple_locations. cbn [fst].
  destruct (search_all web categories locations ≫= fst) as [| r0 l0]; reflexivity.
Qed.

(** A record that has no cell outside the columns of [d] scores the same
    under any frame with at least those columns. *)
Lemma gated_score_more_columns (d d' : DataFrame) (r : Row) :
  map_Forall (wf_cell (columns d)) r ->
  (forall c, c ∈ columns d -> c ∈ columns d') ->
  gated_score d' r = gated_score d r.
Proof.
  intros Hwf Hsub.
  assert (Hcol : forall c, has_column d c = true -> has_column d' c = true).
  { intros c Hc. apply bool_decide_eq_true_2, Hsub.
    exact (bool_decide_eq_true_1 _ Hc). }
  assert (Hnone : forall c, has_column d c = false -> r !! c = None).
  { intros c Hc. destruct (r !! c) as [v |] eqn:Hr; [| reflexivity].
    exfalso. apply bool_decide_eq_false_1 in Hc. apply Hc.
    exact (proj1 (Hwf c v Hr)). }
  unfold gated_score, source_has_DMV.
  f_equal; [f_equal; [f_equal |] |].
  - destruct (has_column d "phone") eqn:H; [rewrite (Hcol _ H); reflexivity |].
    rewrite (Hnone _ H). rewrite !andb_false_r. reflexivity.
  - destruct (has_column d "website") eqn:H; [rewrite (Hcol _ H); reflexivity |].
    rewrite (Hnone _ H). rewrite !andb_false_r. reflexivity.
  - destruct (has_column d "address") eqn:H; [rewrite (Hcol _ H); reflexivity |].
    rewrite (Hnone _ H). rewrite !andb_false_r. reflexivity.
  - destruct (has_column d "source") eqn:H; [rewrite (Hcol _ H); reflexivity |].
    rewrite (Hnone _ H). rewrite !andb_false_r. reflexivity.
Qed.

Lemma Forall_upcast (P : Row -> Prop) (df other : DataFrame) :
  (forall r r', r ∈ rows df -> upcast_of r r' -> P r') ->
  Forall P (upcast df other).
Proof.
  intros H. unfold upcast. apply Forall_fmap, Forall_forall. intros r Hr.
  apply (H r); [exact Hr | apply upcast_row_of].
Qed.

(** Turning integers into floats changes no score: a cell stays present, and
    text stays as it is. *)
Lemma gated_score_upcast_of (d : DataFrame) (r r' : Row) :
  upcast_of r r' -> gated_score d r' = gated_score d r.
Proof.
  intros H. unfold gated_score, source_has_DMV.
  rewrite (bool_decide_ext _ _ (upcast_of_is_Some r r' "phone" H)).
  rewrite (bool_decide_ext _ _ (upcast_of_is_Some r r' "website" H)).
  rewrite (bool_decide_ext _ _ (upcast_of_is_Some r r' "address" H)).
  destruct (H "source") as [-> | (z & -> & ->)]; reflexivity.
Qed.

Lemma all_score_concat (z : Z) (a b : DataFrame) :
  wf a -> wf b -> all_score z a -> all_score z b -> all_score z (concat a b).
Proof.
  unfold all_score, wf. intros Hwa Hwb Ha Hb.
  change (rows (concat a b)) with (upcast a b ++ upcast b a)%list.
  rewrite Forall_forall in Hwa, Hwb, Ha, Hb.
  apply Forall_app. split; apply Forall_upcast; intros r r' Hr Hup;
    rewrite (gated_score_upcast_of _ r r' Hup).
  - rewrite (gated_score_more_columns a); [exact (Ha r Hr) | exact (Hwa r Hr) |].
    intros c Hc. unfold concat; simpl. apply elem_of_app. left. exact Hc.
  - rewrite (gated_score_more_columns b); [exact (Hb r Hr) | exact (Hwb r Hr) |].
    intros c Hc. unfold concat; simpl. apply elem_of_app.
    destruct (decide (c ∈ columns a)); [left; assumption |].
    right. apply list_elem_of_filter. split; assumption.
Qed.

Lemma merge_all_score (z : Z) (e : entry_point) (self : ProspectFinder) (B : DataFrame) :
  wf (prospects self) -> wf B ->
  all_score z (prospects self) -> all_score z B ->
  wf (prospects (merge e self B).1) ∧ all_score z (prospects (merge e self B).1).
Proof.
  intros Hws HwB Hs HB. destruct (df_empty B) eqn:He.
  - rewrite (merge_empty e self B He). split; assumption.
  - rewrite (merge_nonempty e self B He).
    split; [apply wf_concat | apply all_score_concat]; assumption.
Qed.

(** A record written out field by field, every field text, fits its frame. *)
Ltac text_record_fits :=
  repeat (apply map_Forall_insert_2; [split; [compute_done | intros _; exact I] |]);
  apply map_Forall_empty.

Lemma directory_record_wf (r : Row) :
  is_directory_record r -> map_Forall (wf_cell listing_columns) r.
Proof. intros (name & phone & address & website & _ & ->). text_record_fits. Qed.

Lemma directory_record_score (df : DataFrame) (r : Row) :
  is_directory_record r ->
  columns df = listing_columns ->
  gated_score df r = 20.
Proof.
  intros (name & phone & address & website & _ & ->) Hcols.
  unfold gated_score, source_has_DMV, has_column. rewrite Hcols. reflexivity.
Qed.

Lemma directory_frame_scores (web : string -> string -> response)
    (categories locations : list string) (df : DataFrame) :
  (search_multiple_locations web categories locations).1 = Returns df ->
  wf df ∧ all_score 20 df.
Proof.
  rewrite search_multiple_locations_returns. intros [= <-].
  pose proof (search_all_records web categories locations) as Hrec.
  pose proof (keep_first_sublist ["phone"] []
                (search_all web categories locations ≫= fst)) as Hsub.
  assert (Hkept : Forall is_directory_record
            (keep_first ["phone"] [] (search_all web categories locations ≫= fst))).
  { apply Forall_forall. intros r Hr. rewrite Forall_forall in Hrec.
    exact (Hrec r (elem_of_sublist _ _ _ Hr Hsub)). }
  destruct (keep_first ["phone"] [] (search_all web categories locations ≫= fst))
    as [| r0 l0]; [split; constructor |].
  unfold wf, all_score. cbn [DataFrame_of_businesses columns rows].
  split; (eapply Forall_impl; [exact Hkept |]); intros r Hr.
  - apply directory_record_wf. exact Hr.
  - apply directory_record_score; [exact Hr | reflexivity].
Qed.

Lemma mock_batch_scores (location : string) :
  wf (mock_dmv_batch location) ∧ all_score 20 (mock_dmv_batch location).
Proof.
  split.
  - unfold wf. cbn [mock_dmv_batch rows columns].
    apply Forall_cons_2; [text_record_fits |].
    apply Forall_cons_2; [text_record_fits | apply List.Forall_nil].
  - unfold all_score. cbn [mock_dmv_batch rows].
    apply Forall_cons_2; [reflexivity |].
    apply Forall_cons_2; [reflexivity | apply List.Forall_nil].
Qed.

Lemma collect_mock_dmv_all_score (locations : list string) (finder : ProspectFinder) :
  wf (prospects finder) -> all_score 20 (prospects finder) ->
  wf (prospects (collect_mock_dmv locations finder))
  ∧ all_score 20 (prospects (collect_mock_dmv locations finder)).
Proof.
  revert finder. induction locations as [| location locations IH]; intros finder Hw Hs;
    [split; assumption |].
  unfold collect_mock_dmv. cbn [foldl]. apply IH;
    apply (merge_all_score 20 DMV finder (mock_dmv_batch location));
    try assumption; apply mock_batch_scores.
Qed.

Lemma collect_yellowpages_all_score (web : string -> string -> response)
    (categories locations : list string) (finder : ProspectFinder) :
  wf (prospects finder) -> all_score 20 (prospects finder) ->
  wf (prospects (collect_yellowpages web categories locations finder))
  ∧ all_score 20 (prospects (collect_yellowpages web categories locations finder)).
Proof.
  intros Hw Hs. unfold collect_yellowpages.
  destruct (search_multiple_locations web categories locations).1 as [df | e] eqn:Hrun;
    [| split; assumption].
  destruct (directory_frame_scores web categories locations df Hrun) as [Hwd Hsd].
  exact (merge_all_score 20 YellowPages finder df Hw Hwd Hs Hsd).
Qed.

(** X13: in a run of [main] on directory data and mock registration data,
    every record ends with the score 20, so the ranking separates nothing.
    A directory record carries a text, if only the empty one, in each of
    phone, website and address, which counts as present and earns 10 + 5 + 5;
    a mock registration record has none of the three and earns the 20 of its
    source. *)
Theorem mock_run_scores_all_tie
    (web : string -> string -> response) (categories locations : list string)
    (output_directory now : string) :
  let finder :=
    collect_mock_dmv locations
      (collect_yellowpages web categories locations (init output_directory)) in
  Forall (fun r : Row => score_of r = 20)
         (rows (prospects (process_prospects aquicksort now finder).1)).
Proof.
  intros finder.
  assert (Hstore : all_score 20 (prospects finder)).
  { apply collect_mock_dmv_all_score;
      apply collect_yellowpages_all_score; constructor. }
  rewrite (process_prospects_rows now finder).
  apply Forall_fmap. eapply Forall_impl; [exact Hstore |].
  intros r Hr. unfold compose, processed_record. rewrite score_of_insert. exact Hr.
Qed.

(** ** Mock registration data *)

Lemma collect_mock_dmv_cons (location : string) (locations : list string)
    (finder : ProspectFinder) :
  collect_mock_dmv (location :: locations) finder
  = collect_mock_dmv locations
      (set_prospects finder (concat (prospects finder) (mock_dmv_batch location))).
Proof. reflexivity. Qed.

Lemma upcast_of_no_integer (r r' : Row) :
  map_Forall (fun (_ : string) (v : value) => ¬ holds_integer v) r ->
  upcast_of r r' -> r' = r.
Proof.
  intros Hno H. apply map_eq. intros c.
  destruct (H c) as [Heq | (z & Hz & _)]; [exact Heq |].
  exfalso. exact (Hno c (VInt z) Hz I).
Qed.

Lemma upcast_of_list_no_integers (l l' : list Row) :
  Forall (fun r : Row => map_Forall (fun (_ : string) (v : value) => ¬ holds_integer v) r) l ->
  Forall2 upcast_of l l' -> l' = l.
Proof.
  intros Hno H. induction H as [| r r' l l' Hr _ IH]; [reflexivity |].
  apply Forall_cons in Hno as [Hr0 Hl].
  rewrite (upcast_of_no_integer r r' Hr0 Hr), (IH Hl). reflexivity.
Qed.

Lemma upcast_of_list_refl (l : list Row) : Forall2 upcast_of l l.
Proof. apply Forall_Forall2_diag, Forall_forall. intros r _. apply upcast_of_refl. Qed.

(** A record written out field by field, every field text, holds no
    integer. *)
Ltac text_record_has_no_integer :=
  repeat (apply map_Forall_insert_2; [intros [] |]);
  apply map_Forall_empty.

Lemma mock_batch_no_integers (location : string) : no_integers (mock_dmv_batch location).
Proof.
  unfold no_integers. cbn [mock_dmv_batch rows].
  apply Forall_cons_2; [text_record_has_no_integer |].
  apply Forall_cons_2; [text_record_has_no_integer | apply List.Forall_nil].
Qed.

Lemma mock_rows_no_integers (locations : list string) :
  Forall (fun r : Row => map_Forall (fun (_ : string) (v : value) => ¬ holds_integer v) r)
         (locations ≫= fun location => rows (mock_dmv_batch location)).
Proof.
  induction locations as [| location locations IH]; [constructor |].
  cbn [mbind list_bind]. apply Forall_app. split; [| exact IH].
  apply mock_batch_no_integers.
Qed.

Lemma mock_rows_length (locations : list string) :
  length (locations ≫= fun location => rows (mock_dmv_batch location))
  = (2 * length locations)%nat.
Proof.
  induction locations as [| location locations IH]; [reflexivity |].
  change (length (rows (mock_dmv_batch location)
                  ++ (locations ≫= fun location => rows (mock_dmv_batch location)))
          = (2 * length (location :: locations))%nat).
  rewrite length_app, IH. cbn [length mock_dmv_batch rows]. lia.
Qed.

Lemma collect_mock_dmv_rows (locations : list string) (finder : ProspectFinder) :
  Forall2 upcast_of
    (rows (prospects finder)
     ++ (locations ≫= fun location => rows (mock_dmv_batch location)))
    (rows (prospects (collect_mock_dmv locations finder)))
  ∧ output_directory (collect_mock_dmv locations finder) = output_directory finder.
Proof.
  revert finder. induction locations as [| location locations IH]; intros finder.
  - cbn [collect_mock_dmv foldl mbind list_bind]. rewrite app_nil_r.
    split; [apply upcast_of_list_refl | reflexivity].
  - rewrite collect_mock_dmv_cons.
    destruct (IH (set_prospects finder
                    (concat (prospects finder) (mock_dmv_batch location))))
      as (Hrows & Hdir).
    split; [| exact Hdir].
    eapply upcast_of_list_trans; [| exact Hrows].
    cbn [prospects set_prospects mbind list_bind]. rewrite app_assoc.
    apply Forall2_app; [apply concat_Forall2 | apply upcast_of_list_refl].
Qed.

(** X14: the mock registration phase adds two records for every location
    asked for, in the order of the locations, after the records already in
    the store, whatever the location text is.  The records already there
    keep their place and their cells, except that integers of theirs may be
    stored as float64 afterwards (the mock records lack their columns); a
    store without integers is kept exactly. *)
Theorem mock_phase_adds_two_per_location (locations : list string) (finder : ProspectFinder) :
  let after := prospects (collect_mock_dmv locations finder) in
  let added := locations ≫= fun location => rows (mock_dmv_batch location) in
  (exists kept,
      rows after = (kept ++ added)%list
      ∧ Forall2 upcast_of (rows (prospects finder)) kept
      ∧ (no_integers (prospects finder) -> kept = rows (prospects finder)))
  ∧ len after = (len (prospects finder) + 2 * length locations)%nat
  ∧ output_directory (collect_mock_dmv locations finder) = output_directory finder.
Proof.
  intros after added. subst after.
  destruct (collect_mock_dmv_rows locations finder) as (Hrows & Hdir).
  fold added in Hrows.
  assert (Hlen : len (prospects (collect_mock_dmv locations finder))
                 = (len (prospects finder) + 2 * length locations)%nat).
  { unfold len. rewrite <- (Forall2_length _ _ _ Hrows), length_app.
    unfold added. rewrite mock_rows_length. reflexivity. }
  apply Forall2_app_inv_l in Hrows as (kept & k2 & Hkept & Hadded & Heq).
  apply upcast_of_list_no_integers in Hadded; [| apply mock_rows_no_integers].
  subst k2. split; [| split; [exact Hlen | exact Hdir]].
  exists kept. split; [exact Heq |]. split; [exact Hkept |].
  intros Hno. exact (upcast_of_list_no_integers _ _ Hno Hkept).
Qed.

Lemma mock_phase_adds_two_per_location_witness :
  no_integers (prospects (init "./output"))
  ∧ exists kept,
      rows (prospects (collect_mock_dmv ["Jacksonville,FL"; "Saint Augustine,FL"]
                                        (init "./output")))
      = (kept ++ (rows (mock_dmv_batch "Jacksonville,FL")
                  ++ rows (mock_dmv_batch "Saint Augustine,FL")))%list
      ∧ kept = [].
Proof.
  assert (Hno : no_integers (prospects (init "./output"))) by constructor.
  split; [exact Hno |].
  destruct (proj1 (mock_phase_adds_two_per_location
                     ["Jacksonville,FL"; "Saint Augustine,FL"] (init "./output")))
    as (kept & Hrows & _ & Hkept).
  exists kept. split; [exact Hrows | exact (Hkept Hno)].
Defined.

(** A scored store that takes mock records afterwards has its scores stored
    as floats. *)
Example mock_phase_turns_scores_float :
  let scored := set_prospects (init "./output")
                  (score_prospects aquicksort (init "./output") (Some registered_lead)).1 in
  score_of <$> rows (prospects scored) = [35]
  ∧ (fun r : Row => r !! "score")
    <$> rows (prospects (collect_mock_dmv ["Jacksonville,FL"] scored))
    = [Some (VFloat 35); None; None].
Proof. split; vm_compute; reflexivity. Qed.

(** ** Setting up the registration client *)

(** X15: how [main] leaves the set-up of the real registration client.
    Without a key or an endpoint it exits with status 1.  With both but
    without a user identifier the check of [Config] passes and the client's
    constructor refuses, which [main] reports as an integration error and
    survives.  With all three the client is ready and sends the key as a
    bearer token and the user identifier with every request. *)
Theorem dmv_setup_cases (cfg : Config) :
  let key := DMV_API_KEY cfg in
  let url := DMV_API_ENDPOINT cfg in
  let user := DMV_AUTHORIZED_USER_ID cfg in
  (truthy key && truthy url = false -> dmv_setup cfg = SysExit 1)
  ∧ (truthy key && truthy url = true -> truthy user = false ->
     validate_dmv_credentials cfg = true
     ∧ exists msg, dmv_setup cfg = IntegrationError msg
                   ∧ DMVIntegration_init key url user = ValueError msg)
  ∧ (truthy key && truthy url = true -> truthy user = true ->
     exists dmv, dmv_setup cfg = ClientReady dmv
                 ∧ Some (api_key dmv) = key ∧ Some (endpoint dmv) = url
                 ∧ Some (user_id dmv) = user
                 ∧ session_headers dmv
                   = [("Authorization", "Bearer " ++ api_key dmv);
                      ("User-ID", user_id dmv)]).
Proof.
  intros key url user. unfold dmv_setup, validate_dmv_credentials, DMVIntegration_init.
  fold key url user.
  destruct key as [k |], url as [u |], user as [i |]; cbn [truthy default];
    try destruct (bool_decide (k = "")); try destruct (bool_decide (u = ""));
    try destruct (bool_decide (i = "")); cbn;
    repeat split; try discriminate; intros;
    try (eexists; repeat split; reflexivity).
Qed.

Lemma dmv_setup_cases_witness :
  truthy (DMV_API_KEY sample_config) && truthy (DMV_API_ENDPOINT sample_config) = true
  ∧ truthy (DMV_AUTHORIZED_USER_ID sample_config) = false
  ∧ validate_dmv_credentials sample_config = true
  ∧ exists msg, dmv_setup sample_config = IntegrationError msg.
Proof.
  split; [reflexivity |]. split; [reflexivity |].
  destruct (proj1 (proj2 (dmv_setup_cases sample_config)) eq_refl eq_refl)
    as (Hvalid & msg & Hsetup & _).
  split; [exact Hvalid |]. exists msg. exact Hsetup.
Defined.

(** ** The registration queries *)






Example sample_queries :
  let run := collect_dmv sample_api ["Saint Augustine,FL"; "Jacksonville,FL"]
                         (init "./output") in
  rows (prospects run.1) = [lead_record]
  ∧ run.2 = [(LOG_ERROR, "Error querying DMV for Saint Augustine,FL: 503 Server Error");
             (LOG_INFO, "Found 1 DMV records for Jacksonville,FL")].
Proof. split; vm_compute; reflexivity. Qed.

(** ** The closing display *)




(** ** How [main] ends *)

Lemma process_prospects_output_directory (argsort : list Z -> list nat) (now : string)
    (finder : ProspectFinder) :
  output_directory (process_prospects argsort now finder).1 = output_directory finder.
Proof. reflexivity. Qed.








